(** * The data-plane mediator of the qrexec agent

    A shallow embedding of [agent/qrexec-agent-data.c]: the version
    handshake, the exit-code emitter, the child reaper, the I/O loop with its
    teardown, and the per-mode dispatcher.

    Everything the file obtains from outside (libvchan, the kernel, the
    helpers of libqrexec) is answered by an explicit environment: one record
    per call site or per loop iteration.  What the file does to the outside
    (vchan sends, descriptor operations, forks) is appended to a trace. *)

From Stdlib Require Import Ascii String.
From stdpp Require Import base numbers list gmap sets strings.

Local Open Scope Z_scope.

(** ** Declarations of [qrexec.h]

    The header is not part of the sources under verification; its constants
    are taken as parameters.  The [switch] of the dispatcher needs its three
    case labels to differ, as C demands of any [switch]. *)

Class qrexec_h := {
  MSG_HELLO : Z;
  MSG_DATA_STDIN : Z;
  MSG_DATA_STDOUT : Z;
  MSG_DATA_STDERR : Z;
  MSG_DATA_EXIT_CODE : Z;
  MSG_EXEC_CMDLINE : Z;
  MSG_JUST_EXEC : Z;
  MSG_SERVICE_CONNECT : Z;
  QREXEC_PROTOCOL_V2 : Z;
  QREXEC_PROTOCOL_VERSION : Z;
  MAX_QREXEC_CMD_LEN : Z;
  case_labels_differ :
    MSG_JUST_EXEC ≠ MSG_EXEC_CMDLINE ∧
    MSG_JUST_EXEC ≠ MSG_SERVICE_CONNECT ∧
    MSG_EXEC_CMDLINE ≠ MSG_SERVICE_CONNECT
}.

(** The values the project's header gives them (protocol version 3). *)
Definition qrexec_h_v3 : qrexec_h.
Proof.
  refine {|
    MSG_HELLO := 0x300;
    MSG_DATA_STDIN := 0x190;
    MSG_DATA_STDOUT := 0x191;
    MSG_DATA_STDERR := 0x192;
    MSG_DATA_EXIT_CODE := 0x193;
    MSG_EXEC_CMDLINE := 0x200;
    MSG_JUST_EXEC := 0x201;
    MSG_SERVICE_CONNECT := 0x202;
    QREXEC_PROTOCOL_V2 := 2;
    QREXEC_PROTOCOL_VERSION := 3;
    MAX_QREXEC_CMD_LEN := 65535 |}.
  repeat split; discriminate.
Defined.

(** [struct msg_header { uint32_t type; uint32_t len; }] and
    [struct peer_info { uint32_t version; }]. *)
Record msg_header := { hdr_type : Z; hdr_len : Z }.
Record peer_info := { info_version : Z }.

(** Modelled from the spec: the two structs are declared in [qrexec.h]; the
    wire format has the type at offset 0 and the length at offset 4, both
    32 bits wide, and the peer info is one 32-bit version. *)
Definition sizeof_msg_header : Z := 8.
Definition sizeof_peer_info : Z := 4.
Definition sizeof_int : Z := 4.

Definition VCHAN_BUFFER_SIZE : Z := 65536.

(** Conversions between [uint32_t] and [int], with the wrap-around. *)
Definition to_uint32 (x : Z) : Z := x mod 2 ^ 32.
Definition to_int32 (x : Z) : Z := (x + 2 ^ 31) mod 2 ^ 32 - 2 ^ 31.
Definition to_schar (x : Z) : Z := (x + 128) mod 256 - 128.

(** ** The trace *)

Inductive shut_how := SHUT_RD | SHUT_WR.

(** What the child of [handle_just_exec] does after the fork. *)
Inductive child_action :=
  | ChOpen (path : string)
  | ChFixFds (fds_from : string)
  | ChDoExec (arg1 arg2 : string).

Inductive event :=
  | EvSendHdr (h : msg_header)              (* libvchan_send of a header *)
  | EvSendInfo (i : peer_info)              (* libvchan_send of a peer_info *)
  | EvSendStatus (status : Z)               (* libvchan_send of an int *)
  | EvRecvHdr                               (* libvchan_recv of a header *)
  | EvRecvInfo                              (* libvchan_recv of a peer_info *)
  | EvHandleRemoteData (stdin_fd version : Z)   (* handle_remote_data called *)
  | EvHandleInput (fd type version : Z)     (* handle_input called *)
  | EvSetNonblock (fd : Z)
  | EvSetBlock (fd : Z)
  | EvShutdown (fd : Z) (how : shut_how)
  | EvClose (fd : Z)
  | EvDup3 (oldfd newfd : Z)
  | EvDupfd (oldfd newfd : Z)               (* fcntl(F_DUPFD_CLOEXEC) *)
  | EvFork (pid : Z) (child : list child_action)
  | EvSpawn (ret pid : Z)                   (* execute_qubes_rpc_command *)
  | EvPrepareChildEnv
  | EvVchanServerInit (buffer_size : Z)
  | EvVchanClientInit
  | EvVchanWait
  | EvVchanClose.

Abbreviation trace := (list event).

(** ** The handshake *)

Record handshake_env := {
  hs_send_hdr : Z;            (* result of the first libvchan_send *)
  hs_send_info : Z;           (* result of the second libvchan_send *)
  hs_recv_hdr_ret : Z;        (* result of the first libvchan_recv *)
  hs_recv_hdr : msg_header;   (* what it stored *)
  hs_recv_info_ret : Z;       (* result of the second libvchan_recv *)
  hs_recv_info : peer_info    (* what it stored *)
}.

Section Handshake.
Context `{qrexec_h}.

Definition QREXEC_DATA_MIN_VERSION : Z := QREXEC_PROTOCOL_V2.

Definition hello_hdr : msg_header :=
  {| hdr_type := MSG_HELLO; hdr_len := sizeof_peer_info |}.
Definition hello_info : peer_info :=
  {| info_version := QREXEC_PROTOCOL_VERSION |}.

(** [info.version < QREXEC_PROTOCOL_VERSION ? info.version :
    QREXEC_PROTOCOL_VERSION], compared and selected as [uint32_t], then
    stored in an [int]. *)
Definition actual_version (remote : Z) : Z :=
  to_int32
    (if remote <? to_uint32 QREXEC_PROTOCOL_VERSION
     then remote
     else to_uint32 QREXEC_PROTOCOL_VERSION).

(** Returns the value of the C function and the extended trace. *)
Definition handle_handshake (w : handshake_env) (tr : trace) : Z * trace :=
  let tr := tr ++ [EvSendHdr hello_hdr] in
  if negb (hs_send_hdr w =? sizeof_msg_header) then (-1, tr) else
  let tr := tr ++ [EvSendInfo hello_info] in
  if negb (hs_send_info w =? sizeof_peer_info) then (-1, tr) else
  let tr := tr ++ [EvRecvHdr] in
  if negb (hs_recv_hdr_ret w =? sizeof_msg_header) then (-1, tr) else
  let hdr := hs_recv_hdr w in
  if negb (hdr_type hdr =? MSG_HELLO) || negb (hdr_len hdr =? sizeof_peer_info)
  then (-1, tr) else
  let tr := tr ++ [EvRecvInfo] in
  if negb (hs_recv_info_ret w =? sizeof_peer_info) then (-1, tr) else
  let v := actual_version (info_version (hs_recv_info w)) in
  if v <? QREXEC_DATA_MIN_VERSION then (-1, tr) else (v, tr).

(** All four transfers moved the number of bytes asked for. *)
Definition transfers_complete (w : handshake_env) : Prop :=
  hs_send_hdr w = sizeof_msg_header ∧ hs_send_info w = sizeof_peer_info ∧
  hs_recv_hdr_ret w = sizeof_msg_header ∧ hs_recv_info_ret w = sizeof_peer_info.

End Handshake.

(** ** Wait statuses

    The macros of [<sys/wait.h>] as glibc defines them. *)

Definition WTERMSIG (status : Z) : Z := Z.land status 0x7f.
Definition WEXITSTATUS (status : Z) : Z := Z.shiftr (Z.land status 0xff00) 8.
Definition WIFSIGNALED (status : Z) : bool :=
  Z.shiftr (to_schar (Z.land status 0x7f + 1)) 1 >? 0.

(** The translation done by the reaper of [process_child_io]. *)
Definition wait_status_to_exit_code (status : Z) : Z :=
  if WIFSIGNALED status then 128 + WTERMSIG status else WEXITSTATUS status.

(** The statuses the kernel builds: [W_EXITCODE(ret, 0)] for a child that
    exited with [ret], and the signal number, with the core-dump flag or
    without, for a child that a signal terminated. *)
Definition status_exited (ret : Z) : Z := Z.shiftl ret 8.
Definition status_signaled (sig : Z) (core : bool) : Z :=
  Z.lor sig (if core then 0x80 else 0).

(** ** The state of [process_child_io]

    The three descriptors and the two statuses are the locals of the
    function, [child_exited] and [stdio_socket_requested] the two flags the
    signal handlers write, [stdin_buf] the staging buffer.  [open_fds] is
    ghost state: the descriptors of the session that are open in the kernel,
    kept to tell a [close] of an open descriptor from one of a closed
    descriptor; [bad_closes] collects the latter. *)

Record io_state := {
  stdin_fd : Z;
  stdout_fd : Z;
  stderr_fd : Z;
  child_process_status : Z;
  remote_process_status : Z;
  child_exited : Z;
  stdio_socket_requested : Z;
  stdin_buf : list Z;
  open_fds : gset Z;
  bad_closes : list Z;
  io_trace : trace
}.

Definition set_stdin_fd (v : Z) (s : io_state) : io_state :=
  {| stdin_fd := v; stdout_fd := stdout_fd s; stderr_fd := stderr_fd s;
     child_process_status := child_process_status s;
     remote_process_status := remote_process_status s;
     child_exited := child_exited s;
     stdio_socket_requested := stdio_socket_requested s;
     stdin_buf := stdin_buf s; open_fds := open_fds s;
     bad_closes := bad_closes s; io_trace := io_trace s |}.

Definition set_stdout_fd (v : Z) (s : io_state) : io_state :=
  {| stdin_fd := stdin_fd s; stdout_fd := v; stderr_fd := stderr_fd s;
     child_process_status := child_process_status s;
     remote_process_status := remote_process_status s;
     child_exited := child_exited s;
     stdio_socket_requested := stdio_socket_requested s;
     stdin_buf := stdin_buf s; open_fds := open_fds s;
     bad_closes := bad_closes s; io_trace := io_trace s |}.

Definition set_stderr_fd (v : Z) (s : io_state) : io_state :=
  {| stdin_fd := stdin_fd s; stdout_fd := stdout_fd s; stderr_fd := v;
     child_process_status := child_process_status s;
     remote_process_status := remote_process_status s;
     child_exited := child_exited s;
     stdio_socket_requested := stdio_socket_requested s;
     stdin_buf := stdin_buf s; open_fds := open_fds s;
     bad_closes := bad_closes s; io_trace := io_trace s |}.

Definition set_child_process_status (v : Z) (s : io_state) : io_state :=
  {| stdin_fd := stdin_fd s; stdout_fd := stdout_fd s; stderr_fd := stderr_fd s;
     child_process_status := v;
     remote_process_status := remote_process_status s;
     child_exited := child_exited s;
     stdio_socket_requested := stdio_socket_requested s;
     stdin_buf := stdin_buf s; open_fds := open_fds s;
     bad_closes := bad_closes s; io_trace := io_trace s |}.

Definition set_remote_process_status (v : Z) (s : io_state) : io_state :=
  {| stdin_fd := stdin_fd s; stdout_fd := stdout_fd s; stderr_fd := stderr_fd s;
     child_process_status := child_process_status s;
     remote_process_status := v;
     child_exited := child_exited s;
     stdio_socket_requested := stdio_socket_requested s;
     stdin_buf := stdin_buf s; open_fds := open_fds s;
     bad_closes := bad_closes s; io_trace := io_trace s |}.

Definition set_child_exited (v : Z) (s : io_state) : io_state :=
  {| stdin_fd := stdin_fd s; stdout_fd := stdout_fd s; stderr_fd := stderr_fd s;
     child_process_status := child_process_status s;
     remote_process_status := remote_process_status s;
     child_exited := v;
     stdio_socket_requested := stdio_socket_requested s;
     stdin_buf := stdin_buf s; open_fds := open_fds s;
     bad_closes := bad_closes s; io_trace := io_trace s |}.

Definition set_stdio_socket_requested (v : Z) (s : io_state) : io_state :=
  {| stdin_fd := stdin_fd s; stdout_fd := stdout_fd s; stderr_fd := stderr_fd s;
     child_process_status := child_process_status s;
     remote_process_status := remote_process_status s;
     child_exited := child_exited s;
     stdio_socket_requested := v;
     stdin_buf := stdin_buf s; open_fds := open_fds s;
     bad_closes := bad_closes s; io_trace := io_trace s |}.

Definition set_stdin_buf (v : list Z) (s : io_state) : io_state :=
  {| stdin_fd := stdin_fd s; stdout_fd := stdout_fd s; stderr_fd := stderr_fd s;
     child_process_status := child_process_status s;
     remote_process_status := remote_process_status s;
     child_exited := child_exited s;
     stdio_socket_requested := stdio_socket_requested s;
     stdin_buf := v; open_fds := open_fds s;
     bad_closes := bad_closes s; io_trace := io_trace s |}.

Definition set_open_fds (v : gset Z) (s : io_state) : io_state :=
  {| stdin_fd := stdin_fd s; stdout_fd := stdout_fd s; stderr_fd := stderr_fd s;
     child_process_status := child_process_status s;
     remote_process_status := remote_process_status s;
     child_exited := child_exited s;
     stdio_socket_requested := stdio_socket_requested s;
     stdin_buf := stdin_buf s; open_fds := v;
     bad_closes := bad_closes s; io_trace := io_trace s |}.

Definition set_bad_closes (v : list Z) (s : io_state) : io_state :=
  {| stdin_fd := stdin_fd s; stdout_fd := stdout_fd s; stderr_fd := stderr_fd s;
     child_process_status := child_process_status s;
     remote_process_status := remote_process_status s;
     child_exited := child_exited s;
     stdio_socket_requested := stdio_socket_requested s;
     stdin_buf := stdin_buf s; open_fds := open_fds s;
     bad_closes := v; io_trace := io_trace s |}.

(** Appends to the trace. *)
Definition emit (evs : trace) (s : io_state) : io_state :=
  {| stdin_fd := stdin_fd s; stdout_fd := stdout_fd s; stderr_fd := stderr_fd s;
     child_process_status := child_process_status s;
     remote_process_status := remote_process_status s;
     child_exited := child_exited s;
     stdio_socket_requested := stdio_socket_requested s;
     stdin_buf := stdin_buf s; open_fds := open_fds s;
     bad_closes := bad_closes s; io_trace := io_trace s ++ evs |}.

Definition set_io_trace (v : trace) (s : io_state) : io_state :=
  {| stdin_fd := stdin_fd s; stdout_fd := stdout_fd s; stderr_fd := stderr_fd s;
     child_process_status := child_process_status s;
     remote_process_status := remote_process_status s;
     child_exited := child_exited s;
     stdio_socket_requested := stdio_socket_requested s;
     stdin_buf := stdin_buf s; open_fds := open_fds s;
     bad_closes := bad_closes s; io_trace := v |}.

Definition buffer_len (b : list Z) : Z := Z.of_nat (length b).

(** ** The kernel's descriptor operations *)

Inductive shut_res := ShutOk | ShutENOTSOCK | ShutOtherError.

(** [close(fd)]: the descriptor leaves the table; closing a descriptor that
    is not open is recorded when its number is a possible one. *)
Definition sys_close (fd : Z) (s : io_state) : io_state :=
  let s := emit [EvClose fd] s in
  if decide (fd ∈ open_fds s) then set_open_fds (open_fds s ∖ {[fd]}) s
  else if 0 <=? fd then set_bad_closes (bad_closes s ++ [fd]) s
  else s.

(** The lowest number from [n] on that is not in [used]. *)
Fixpoint lowest_free_from (fuel : nat) (used : gset Z) (n : Z) : Z :=
  match fuel with
  | O => n
  | S k => if decide (n ∈ used) then lowest_free_from k used (n + 1) else n
  end.

Definition lowest_free (used : gset Z) (n : Z) : Z :=
  lowest_free_from (size used) used n.

(** [fcntl(fd, F_DUPFD_CLOEXEC, min)]: the lowest free descriptor from [min]
    on. [other] are the descriptors the process has open besides those of the
    session, [None] when the process has no descriptor left. *)
Definition fcntl_dupfd (open : gset Z) (other : option (gset Z)) (fd min : Z) : Z :=
  match other with
  | None => -1
  | Some o => if decide (fd ∈ open) then lowest_free (open ∪ o) min else -1
  end.

(** ** The environment of one loop iteration *)

Inductive pselect_res :=
  | PselectReady (rd wr : gset Z)   (* returned >= 0 with these descriptors ready *)
  | PselectEINTR
  | PselectError.

(** The results of [handle_remote_data] and [handle_input] that the loop
    tells apart; [REMOTE_OK] stands for every other value. *)
Inductive remote_rc := REMOTE_OK | REMOTE_ERROR | REMOTE_EOF | REMOTE_EXITED.

Record remote_data_res := {
  rd_rc : remote_rc;
  rd_status : option Z;     (* what the helper stored through [&remote_process_status] *)
  rd_buf : list Z;          (* the staging buffer when the helper returns *)
  rd_closed : bool          (* at REMOTE_EOF: the helper closed the descriptor
                               (it only shut it down otherwise) *)
}.

Record input_res := {
  in_rc : remote_rc;
  in_closed : bool          (* at REMOTE_EOF: as above *)
}.

Record iter_env := {
  e_sigusr1 : bool;                 (* the handler of SIGUSR1 ran since line 238 was last passed *)
  e_waitpid_ret : Z;                (* waitpid(child_process_pid, &status, WNOHANG) *)
  e_waitpid_status : Z;
  e_shutdown : Z → shut_how → shut_res;
  e_send_hdr : Z;                   (* the two libvchan_send of send_exit_code *)
  e_send_status : Z;
  e_data_ready : Z;                 (* libvchan_data_ready, line 232 *)
  e_is_open : Z;                    (* libvchan_is_open *)
  e_dup3_errno : Z;                 (* errno when the dup3 loop ends *)
  e_other_fds : option (gset Z);
  e_vchan_fd : Z;                   (* libvchan_fd_for_select *)
  e_buffer_space : Z;               (* libvchan_buffer_space *)
  e_data_ready_poll : Z;            (* libvchan_data_ready, line 286 *)
  e_pselect : Z → pselect_res;      (* by the timeout in seconds *)
  e_sigchld : bool;                 (* SIGCHLD arrives during pselect *)
  e_vchan_wait : Z;                 (* libvchan_wait *)
  e_remote : remote_data_res;       (* handle_remote_data *)
  e_stdout_input : input_res;       (* handle_input on stdout_fd *)
  e_stderr_input : input_res        (* handle_input on stderr_fd *)
}.

(** ** Control flow of the loop body *)

Inductive flow :=
  | Go (s : io_state)                   (* control falls through *)
  | Continue (s : io_state)             (* [continue] *)
  | Break (s : io_state)                (* [break] out of the [while] *)
  | Return (v : Z) (s : io_state)       (* [return v] *)
  | Aborted (s : io_state)              (* [abort()] *)
  | VchanError (op : string) (s : io_state).

Definition flow_bind (f : flow) (k : io_state → flow) : flow :=
  match f with
  | Go s => k s
  | other => other
  end.

Notation "f >>> k" := (flow_bind f k) (at level 61, left associativity).

(** Modelled from the spec: [handle_vchan_error] is defined outside this
    file; a vchan error is fatal, it terminates the session and nothing
    more is emitted. *)
Definition handle_vchan_error (op : string) (s : io_state) : flow :=
  VchanError op s.

(** The same inside [send_exit_code], which has a trace and no loop state. *)
Inductive send_res :=
  | SendDone (tr : trace)
  | SendVchanError (op : string) (tr : trace).

Definition vchan_error_in_send (op : string) (tr : trace) : send_res :=
  SendVchanError op tr.

(** ** [send_exit_code] *)

Section Mediator.
Context `{qrexec_h}.

Definition exit_code_hdr : msg_header :=
  {| hdr_type := MSG_DATA_EXIT_CODE; hdr_len := sizeof_int |}.

(** [r_hdr] and [r_status] are the results of the two [libvchan_send]. *)
Definition send_exit_code (r_hdr r_status : Z) (status : Z) (tr : trace)
    : send_res :=
  let tr := tr ++ [EvSendHdr exit_code_hdr] in
  if r_hdr <? 0 then vchan_error_in_send "write hdr" tr else
  let tr := tr ++ [EvSendStatus status] in
  if r_status <? 0 then vchan_error_in_send "write status" tr else
  SendDone tr.

(** The call of line 226, on the state of the loop. *)
Definition send_exit_code_in_loop (e : iter_env) (s : io_state) : flow :=
  match send_exit_code (e_send_hdr e) (e_send_status e)
          (child_process_status s) (io_trace s) with
  | SendDone tr => Go (set_io_trace tr s)
  | SendVchanError op tr => handle_vchan_error op (set_io_trace tr s)
  end.

(** ** [process_child_io] *)

(** The globals [child_process_pid] and [stdout_msg_type] are set by the
    dispatcher before the call and not written during it. *)
Variable child_process_pid : Z.
Variable stdout_msg_type : Z.
Variable data_protocol_version : Z.

(** The idiom of lines 210-214, 325-329, 371-374 and 381-384: close when
    there is no local process or the descriptor is the inherited one,
    else shut down, and close after all when it is not a socket. *)
Definition shutdown_or_close (inherited : Z) (how : shut_how)
    (shut : Z → shut_how → shut_res) (fd : Z) (s : io_state) : io_state :=
  if (child_process_pid =? 0) || (fd =? inherited) then sys_close fd s
  else
    let s := emit [EvShutdown fd how] s in
    match shut fd how with
    | ShutENOTSOCK => sys_close fd s
    | _ => s
    end.

(** Lines 70-74: the handler of SIGUSR1 stores 1, whatever the flag held.
    The signal is not blocked, so the handler can run anywhere in a turn;
    the flag is read at line 238 only, so a run of the handler counts for
    the turn that passes line 238 next.  The handler has the signal ignored
    once it ran and [prepare_child_env] installs it again for each session:
    how often it runs is up to the environment. *)
Definition deliver_sigusr1 (e : iter_env) (s : io_state) : io_state :=
  if e_sigusr1 e then set_stdio_socket_requested 1 s else s.

(** Lines 199-219. *)
Definition reap (e : iter_env) (s : io_state) : io_state :=
  if child_exited s =? 0 then s else
  let s :=
    if (child_process_pid >? 0) && (e_waitpid_ret e >? 0) then
      let s := set_child_process_status
                 (wait_status_to_exit_code (e_waitpid_status e)) s in
      if stdin_fd s >=? 0 then
        let s := emit [EvSetBlock (stdin_fd s)] s in
        let s := shutdown_or_close 1 SHUT_WR (e_shutdown e) (stdin_fd s) s in
        set_stdin_fd (-1) s
      else s
    else s in
  set_child_exited 0 s.

(** The condition of line 222. *)
Definition all_done (s : io_state) : bool :=
  ((child_process_pid =? 0) || (child_process_status s >? -1)) &&
  (negb (child_process_pid =? 0) || (remote_process_status s >? -1)) &&
  (stdin_fd s =? -1) && (stdout_fd s =? -1) && (stderr_fd s =? -1).

(** The condition of line 232. *)
Definition vchan_finished (e : iter_env) (s : io_state) : bool :=
  (e_data_ready e =? 0) && (e_is_open e =? 0) &&
  (buffer_len (stdin_buf s) =? 0).

(** Lines 221-236: [Go] when the loop goes on. *)
Definition termination_test (e : iter_env) (s : io_state) : flow :=
  if all_done s then
    (if child_process_status s >? -1 then send_exit_code_in_loop e s
     else Go s) >>> Break
  else if vchan_finished e s then Break s
  else Go s.

(** Lines 238-256. *)
Definition single_socket (e : iter_env) (s : io_state) : flow :=
  if stdio_socket_requested s =? 1 then
    if negb (stdout_fd s =? -1) then
      let s := emit [EvDup3 (stdin_fd s) (stdout_fd s)] s in
      if negb (e_dup3_errno e =? 0) then Aborted s
      else Go (set_stdio_socket_requested 2 s)
    else
      let r := fcntl_dupfd (open_fds s) (e_other_fds e) (stdin_fd s) 3 in
      let s := set_stdout_fd r (emit [EvDupfd (stdin_fd s) r] s) in
      if r <? 3 then Aborted s
      else Go (set_stdio_socket_requested 2
                 (set_open_fds ({[r]} ∪ open_fds s) s))
  else Go s.

(** Lines 259-277: the descriptors watched for reading. *)
Definition build_rdset (e : iter_env) (s : io_state) : gset Z :=
  let rdset : gset Z := ∅ in
  let rdset :=
    if e_buffer_space e >? sizeof_msg_header then
      let rdset := if stdout_fd s >=? 0 then {[stdout_fd s]} ∪ rdset else rdset in
      if stderr_fd s >=? 0 then {[stderr_fd s]} ∪ rdset else rdset
    else rdset in
  {[e_vchan_fd e]} ∪ rdset.

(** Lines 278-284: the descriptors watched for writing. *)
Definition build_wrset (s : io_state) : gset Z :=
  if (stdin_fd s >? -1) && negb (buffer_len (stdin_buf s) =? 0)
  then {[stdin_fd s]} else ∅.

(** Lines 286-290: seconds of the timeout given to [pselect]. *)
Definition select_timeout (e : iter_env) (s : io_state) : Z :=
  if (buffer_len (stdin_buf s) =? 0) && (e_data_ready_poll e >? 0)
  then 0 else 10.

(** SIGCHLD is blocked except inside [pselect]. *)
Definition deliver_sigchld (e : iter_env) (s : io_state) : io_state :=
  if e_sigchld e then set_child_exited 1 s else s.

(** Lines 301-305. *)
Definition clear_vchan_event (e : iter_env) (rdset : gset Z) (s : io_state) : flow :=
  if decide (e_vchan_fd e ∈ rdset) then
    let s := emit [EvVchanWait] s in
    if e_vchan_wait e <? 0 then handle_vchan_error "wait" s else Go s
  else Go s.

(** Lines 307-337. *)
Definition dispatch_remote (e : iter_env) (s : io_state) : flow :=
  let r := e_remote e in
  let s := emit [EvHandleRemoteData (stdin_fd s) data_protocol_version] s in
  let s := set_stdin_buf (rd_buf r) s in
  let s := match rd_status r with
           | Some v => set_remote_process_status v s
           | None => s
           end in
  match rd_rc r with
  | REMOTE_ERROR => handle_vchan_error "read" s
  | REMOTE_EOF =>
      let s := if rd_closed r
               then set_open_fds (open_fds s ∖ {[stdin_fd s]}) s else s in
      Go (set_stdin_fd (-1) s)
  | REMOTE_EXITED =>
      let s := shutdown_or_close 0 SHUT_RD (e_shutdown e) (stdout_fd s) s in
      let s := set_stdout_fd (-1) s in
      let s := sys_close (stderr_fd s) s in
      let s := set_stderr_fd (-1) s in
      if child_process_pid =? 0 then Return (remote_process_status s) s
      else Go s
  | REMOTE_OK => Go s
  end.

(** Lines 338-350. *)
Definition dispatch_stdout (e : iter_env) (rdset : gset Z) (s : io_state) : flow :=
  if (stdout_fd s >=? 0) && bool_decide (stdout_fd s ∈ rdset) then
    let r := e_stdout_input e in
    let s := emit [EvHandleInput (stdout_fd s) stdout_msg_type data_protocol_version] s in
    match in_rc r with
    | REMOTE_ERROR => handle_vchan_error "send" s
    | REMOTE_EOF =>
        let s := if in_closed r
                 then set_open_fds (open_fds s ∖ {[stdout_fd s]}) s else s in
        Go (set_stdout_fd (-1) s)
    | _ => Go s
    end
  else Go s.

(** Lines 351-363. *)
Definition dispatch_stderr (e : iter_env) (rdset : gset Z) (s : io_state) : flow :=
  if (stderr_fd s >=? 0) && bool_decide (stderr_fd s ∈ rdset) then
    let r := e_stderr_input e in
    let s := emit [EvHandleInput (stderr_fd s) MSG_DATA_STDERR data_protocol_version] s in
    match in_rc r with
    | REMOTE_ERROR => handle_vchan_error "send" s
    | REMOTE_EOF =>
        let s := if in_closed r
                 then set_open_fds (open_fds s ∖ {[stderr_fd s]}) s else s in
        Go (set_stderr_fd (-1) s)
    | _ => Go s
    end
  else Go s.

(** Lines 259-363: from the readiness sets to the end of the body. *)
Definition wait_and_dispatch (e : iter_env) (s : io_state) : flow :=
  let rdset := build_rdset e s in
  let wrset := build_wrset s in
  let s := deliver_sigchld e s in
  match e_pselect e (select_timeout e s) with
  | PselectEINTR => Continue s
  | PselectError => Break s
  | PselectReady rd wr =>
      let rdset := rdset ∩ rd in
      clear_vchan_event e rdset s >>> dispatch_remote e >>>
      dispatch_stdout e rdset >>> dispatch_stderr e rdset
  end.

(** One turn of the [while (1)]. *)
Definition loop_iteration (e : iter_env) (s : io_state) : flow :=
  termination_test e (reap e (deliver_sigusr1 e s)) >>>
  single_socket e >>> wait_and_dispatch e.

(** The loop over a script of environments; [Go] when the script ends
    with the loop still running. *)
Fixpoint io_loop (es : list iter_env) (s : io_state) : flow :=
  match es with
  | [] => Go s
  | e :: es =>
      match loop_iteration e s with
      | Go s | Continue s => io_loop es s
      | other => other
      end
  end.

(** Lines 365-392. *)
Definition teardown (shut : Z → shut_how → shut_res) (s : io_state) : io_state :=
  let s :=
    if negb (stdout_fd s =? -1) then
      let s := emit [EvSetBlock (stdout_fd s)] s in
      let s := shutdown_or_close 0 SHUT_RD shut (stdout_fd s) s in
      set_stdout_fd (-1) s
    else s in
  let s :=
    if negb (stdin_fd s =? -1) then
      let s := emit [EvSetBlock (stdin_fd s)] s in
      let s := shutdown_or_close 1 SHUT_WR shut (stdin_fd s) s in
      set_stdin_fd (-1) s
    else s in
  if negb (stderr_fd s =? -1) then
    let s := emit [EvSetBlock (stderr_fd s)] s in
    let s := sys_close (stderr_fd s) s in
    set_stderr_fd (-1) s
  else s.

(** Lines 393-395. *)
Definition return_value (s : io_state) : Z :=
  if child_process_pid =? 0 then remote_process_status s
  else child_process_status s.

(** The descriptors the function is handed are open. *)
Definition initial_open (fd0 fd1 fd2 : Z) : gset Z :=
  list_to_set (filter (λ fd, 0 ≤ fd) [fd0; fd1; fd2]).

(** The state at line 185, given what the two signal flags hold then. *)
Definition initial_state (fd0 fd1 fd2 : Z) (buf : list Z)
    (exited requested : Z) (tr : trace) : io_state :=
  {| stdin_fd := fd0; stdout_fd := fd1; stderr_fd := fd2;
     child_process_status := if child_process_pid >? 0 then -1 else 0;
     remote_process_status := -1;
     child_exited := exited;
     stdio_socket_requested := requested;
     stdin_buf := buf;
     open_fds := initial_open fd0 fd1 fd2;
     bad_closes := [];
     io_trace := tr |}.

(** Lines 190-196. *)
Definition prologue (other : option (gset Z)) (s : io_state) : flow :=
  let s := emit [EvSetNonblock (stdin_fd s)] s in
  (if negb (stdout_fd s =? stdin_fd s) then
     Go (emit [EvSetNonblock (stdout_fd s)] s)
   else
     let r := fcntl_dupfd (open_fds s) other (stdin_fd s) 3 in
     let s := set_stdout_fd r (emit [EvDupfd (stdin_fd s) r] s) in
     if r <? 0 then Aborted s
     else Go (set_open_fds ({[r]} ∪ open_fds s) s)) >>> λ s,
  Go (if stderr_fd s >=? 0 then emit [EvSetNonblock (stderr_fd s)] s else s).

(** After the loop: lines 365-395 follow a [break]; a [return] inside
    the loop, [abort] and a vchan error skip them. *)
Definition finish (shut : Z → shut_how → shut_res) (f : flow) : flow :=
  match f with
  | Break s => let s := teardown shut s in Return (return_value s) s
  | other => other
  end.

End Mediator.

(** What [process_child_io] gets from outside. *)
Record io_env := {
  io_other_fds : option (gset Z);         (* for the fcntl of line 193 *)
  io_iters : list iter_env;               (* one per loop iteration *)
  io_shutdown : Z → shut_how → shut_res   (* for lines 365-392 *)
}.

(** The whole function. [Go] says that the script of iterations ended with
    the loop still running. *)
Definition process_child_io `{qrexec_h} (child_process_pid stdout_msg_type : Z)
    (stdin_fd stdout_fd stderr_fd data_protocol_version : Z) (stdin_buf : list Z)
    (exited requested : Z) (tr : trace) (w : io_env) : flow :=
  finish child_process_pid (io_shutdown w)
    (prologue (io_other_fds w)
       (initial_state child_process_pid stdin_fd stdout_fd stderr_fd
          stdin_buf exited requested tr) >>>
     io_loop child_process_pid stdout_msg_type data_protocol_version (io_iters w)).

(** ** Command lines

    The command line is a character buffer; C reads it up to the first
    NUL. *)

Definition NUL : ascii := "000"%char.

(** [buf[n] = c]; a store beyond the buffer is not defined in C and guarded
    against by the caller of this function. *)
Fixpoint store (n : nat) (c : ascii) (buf : string) : string :=
  match buf, n with
  | EmptyString, _ => EmptyString
  | String _ rest, O => String c rest
  | String d rest, S n => String d (store n c rest)
  end.

(** The C string that starts the buffer. *)
Fixpoint c_string (buf : string) : string :=
  match buf with
  | EmptyString => EmptyString
  | String c rest => if Ascii.eqb c NUL then EmptyString else String c (c_string rest)
  end.

(** [strchr(cmdline, ':')] followed by [*end_username++ = 0]: the text
    before the first colon and the text after it. *)
Fixpoint split_colon (s : string) : option (string * string) :=
  match s with
  | EmptyString => None
  | String c rest =>
      if Ascii.eqb c ":"%char then Some (EmptyString, rest)
      else match split_colon rest with
           | Some (before, after) => Some (String c before, after)
           | None => None
           end
  end.

(** ** [handle_just_exec] *)

(** The [case 0] of the fork: the child opens the null device, makes it its
    three standard descriptors and executes. *)
Definition just_exec_child (cmdline end_username : string) : list child_action :=
  [ChOpen "/dev/null"; ChFixFds "/dev/null"; ChDoExec end_username cmdline].

Inductive just_exec_res :=
  | JeReturn (v : Z) (tr : trace)
  | JeChild (tr : trace).       (* this process is the child and executes *)

(** [fork_ret] is what [fork()] returns. *)
Definition handle_just_exec (cmdline : string) (fork_ret : Z) (tr : trace)
    : just_exec_res :=
  match split_colon cmdline with
  | None => JeReturn (-1) tr
  | Some (cmdline, end_username) =>
      if fork_ret =? -1 then JeReturn (-1) tr
      else if fork_ret =? 0 then JeChild tr
      else JeReturn 0 (tr ++ [EvFork fork_ret (just_exec_child cmdline end_username)])
  end.

(** ** The dispatcher *)

Record spawn_res := {
  sp_ret : Z;               (* result of execute_qubes_rpc_command *)
  sp_pid : Z;               (* what it left in [pid] *)
  sp_stdin_fd : Z;          (* and in the three descriptors *)
  sp_stdout_fd : Z;
  sp_stderr_fd : Z;
  sp_stdin_buf : list Z     (* and in the staging buffer *)
}.

Record session_env := {
  w_vchan_ok : bool;                (* the vchan was set up *)
  w_handshake : handshake_env;
  w_prepare_ok : bool;              (* prepare_child_env did not abort *)
  w_fork : Z;                       (* fork() of handle_just_exec *)
  w_send_hdr : Z;                   (* the two libvchan_send of send_exit_code *)
  w_send_status : Z;
  w_spawn : spawn_res;
  w_stdout_msg_type : Z;            (* the global at entry *)
  w_child_exited : Z;               (* the two flags when process_child_io starts *)
  w_stdio_socket_requested : Z;
  w_io : io_env
}.

Inductive session_outcome :=
  | SReturn (v : Z) (tr : trace)          (* the function returned [v] *)
  | SExit (code : Z) (tr : trace)         (* [exit(code)] *)
  | SAbort (tr : trace)                   (* [abort()] *)
  | SVchanError (op : string) (tr : trace)
  | SChild (tr : trace)                   (* continues as the forked child *)
  | SUndefined                            (* store outside the buffer *)
  | SRunning (tr : trace).                (* the script ended inside the loop *)

Section Dispatcher.
Context `{qrexec_h}.

(** Lines 482-483, after [process_child_io]. *)
Definition close_and_return (f : flow) : session_outcome :=
  match f with
  | Return v s => SReturn v (io_trace s ++ [EvVchanClose])
  | Aborted s => SAbort (io_trace s)
  | VchanError op s => SVchanError op (io_trace s)
  | Go s | Continue s | Break s => SRunning (io_trace s)
  end.

(** Lines 448-483. *)
Definition run_session (type : Z) (cmdline : string)
    (stdin_fd stdout_fd stderr_fd : Z) (w : session_env) (tr : trace)
    : session_outcome :=
  let (data_protocol_version, tr) := handle_handshake (w_handshake w) tr in
  let tr := tr ++ [EvPrepareChildEnv] in
  if negb (w_prepare_ok w) then SAbort tr else
  if type =? MSG_JUST_EXEC then
    match handle_just_exec cmdline (w_fork w) tr with
    | JeChild tr => SChild tr
    | JeReturn status tr =>
        match send_exit_code (w_send_hdr w) (w_send_status w) status tr with
        | SendVchanError op tr => SVchanError op tr
        | SendDone tr => SReturn 0 (tr ++ [EvVchanClose])
        end
    end
  else if type =? MSG_EXEC_CMDLINE then
    let sp := w_spawn w in
    let tr := tr ++ [EvSpawn (sp_ret sp) (sp_pid sp)] in
    close_and_return
      (process_child_io (sp_pid sp) (w_stdout_msg_type w)
         (sp_stdin_fd sp) (sp_stdout_fd sp) (sp_stderr_fd sp)
         data_protocol_version (sp_stdin_buf sp)
         (w_child_exited w) (w_stdio_socket_requested w) tr (w_io w))
  else if type =? MSG_SERVICE_CONNECT then
    close_and_return
      (process_child_io 0 MSG_DATA_STDIN stdin_fd stdout_fd stderr_fd
         data_protocol_version []
         (w_child_exited w) (w_stdio_socket_requested w) tr (w_io w))
  else SReturn 0 (tr ++ [EvVchanClose]).

(** Lines 411-447, then the above. A missing command line is [None]. *)
Definition handle_new_process_common (type : Z)
    (cmdline : option string) (cmdline_len : Z)
    (stdin_fd stdout_fd stderr_fd buffer_size : Z) (w : session_env)
    : session_outcome :=
  let buffer_size :=
    if buffer_size =? 0 then VCHAN_BUFFER_SIZE else buffer_size in
  if type =? MSG_SERVICE_CONNECT then
    let tr := [EvVchanServerInit buffer_size] in
    if w_vchan_ok w
    then run_session type "" stdin_fd stdout_fd stderr_fd w (tr ++ [EvVchanWait])
    else SExit 1 tr
  else
    match cmdline with
    | None => SAbort []
    | Some buf =>
        if cmdline_len =? 0 then SAbort []
        else if cmdline_len >? MAX_QREXEC_CMD_LEN then SAbort []
        else if Z.of_nat (String.length buf) <? cmdline_len then SUndefined
        else
          let buf := store (Z.to_nat (cmdline_len - 1)) NUL buf in
          let tr := [EvVchanClientInit] in
          if w_vchan_ok w
          then run_session type (c_string buf) stdin_fd stdout_fd stderr_fd w tr
          else SExit 1 tr
    end.

(** Lines 513-523, [handle_data_client]: the entry of the service-connect
    mode. A failed [assert] (line 518) aborts. *)
Definition handle_data_client (type : Z)
    (stdin_fd stdout_fd stderr_fd buffer_size : Z)
    (w : session_env) : session_outcome :=
  if negb (type =? MSG_SERVICE_CONNECT) then SAbort [] else
  handle_new_process_common type None 0
    stdin_fd stdout_fd stderr_fd buffer_size w.

(** Lines 487-510, [handle_new_process]: the [assert] of line 492, which
    aborts when it fails, and then the forked child that runs the session;
    that child ends with [exit(exit_code)]. *)
Definition handle_new_process (type : Z) (cmdline : option string)
    (cmdline_len : Z) (w : session_env) : session_outcome :=
  if type =? MSG_SERVICE_CONNECT then SAbort [] else
  handle_new_process_common type cmdline cmdline_len (-1) (-1) (-1) 0 w.

End Dispatcher.


(** * Vocabulary of the properties *)

(** The state a flow carries. *)
Definition state_of (f : flow) : io_state :=
  match f with
  | Go s | Continue s | Break s | Return _ s | Aborted s | VchanError _ s => s
  end.

(** Does the flow leave the [while]? *)
Definition leaves_loop (f : flow) : bool :=
  match f with
  | Go _ | Continue _ => false
  | _ => true
  end.

(** [s'] has the trace of [s] and, after it, only events that satisfy [Q]. *)
Definition adds (Q : event → Prop) (s s' : io_state) : Prop :=
  ∃ new, io_trace s' = io_trace s ++ new ∧ Forall Q new.

(** The events appended between [s] and a later [s']. *)
Definition new_events (s s' : io_state) : trace :=
  drop (length (io_trace s)) (io_trace s').

(** Operations on descriptors. *)
Definition is_fd_event (ev : event) : Prop :=
  match ev with
  | EvSetNonblock _ | EvSetBlock _ | EvShutdown _ _ | EvClose _
  | EvDup3 _ _ | EvDupfd _ _ => True
  | _ => False
  end.

(** What goes out on the vchan: the sends of this file and the calls of the
    local-to-remote pump, which frames and sends what it reads. *)
Definition is_outbound (ev : event) : bool :=
  match ev with
  | EvSendHdr _ | EvSendInfo _ | EvSendStatus _ | EvHandleInput _ _ _ => true
  | _ => false
  end.

Definition is_pump (ev : event) : Prop :=
  match ev with
  | EvHandleInput _ _ _ => True
  | _ => False
  end.

(** The outbound part of a trace. *)
Definition outbound (tr : trace) : trace := filter (λ ev, is_outbound ev = true) tr.

(** The EXIT_CODE message, whole or cut short by a failed send. *)
Definition exit_code_message `{qrexec_h} (status : Z) (tr : trace) : Prop :=
  tr = [EvSendHdr exit_code_hdr] ∨
  tr = [EvSendHdr exit_code_hdr; EvSendStatus status].

(** The conditions of the termination test, in the words of the
    specification: (1) the local child, if any, has an exit code, the
    remote, if it is the one waited for, has reported its exit, and the
    three descriptors are closed; (2) the vchan has no pending data, is
    closed, and the staging buffer is empty. *)
Definition wound_down (child_process_pid : Z) (s : io_state) : Prop :=
  (child_process_pid ≠ 0 → -1 < child_process_status s) ∧
  (child_process_pid = 0 → -1 < remote_process_status s) ∧
  stdin_fd s = -1 ∧ stdout_fd s = -1 ∧ stderr_fd s = -1.

Definition vchan_drained (e : iter_env) (s : io_state) : Prop :=
  e_data_ready e = 0 ∧ e_is_open e = 0 ∧ stdin_buf s = [].

(** The three descriptors hold the closed sentinel. *)
Definition all_closed (s : io_state) : Prop :=
  stdin_fd s = -1 ∧ stdout_fd s = -1 ∧ stderr_fd s = -1.

(** A descriptor variable holds no descriptor or one that is open. *)
Definition fd_tracked (fd : Z) (s : io_state) : Prop :=
  fd < 0 ∨ fd ∈ open_fds s.

(** The discipline of the three descriptor variables: what they hold is
    open, they hold different descriptors, and no [close] so far was given a
    descriptor that was not open. *)
Definition fds_disciplined (s : io_state) : Prop :=
  fd_tracked (stdin_fd s) s ∧ fd_tracked (stdout_fd s) s ∧
  fd_tracked (stderr_fd s) s ∧
  (0 ≤ stdin_fd s → stdin_fd s ≠ stdout_fd s ∧ stdin_fd s ≠ stderr_fd s) ∧
  (0 ≤ stdout_fd s → stdout_fd s ≠ stderr_fd s) ∧
  bad_closes s = [].

(** What stays inside the process: descriptor operations, clearing the vchan
    event and the call of the remote-to-local pump. *)
Definition is_local_event (ev : event) : Prop :=
  match ev with
  | EvSetNonblock _ | EvSetBlock _ | EvShutdown _ _ | EvClose _
  | EvDup3 _ _ | EvDupfd _ _ | EvVchanWait | EvHandleRemoteData _ _ => True
  | _ => False
  end.

(** A call of the local-to-remote pump on a descriptor of [fds]. *)
Definition is_pump_on (fds : gset Z) (ev : event) : Prop :=
  match ev with
  | EvHandleInput fd _ _ => fd ∈ fds
  | _ => False
  end.

(** One of the two sends of [send_exit_code]. *)
Definition is_exit_code_send `{qrexec_h} (ev : event) : Prop :=
  match ev with
  | EvSendHdr h => h = exit_code_hdr
  | EvSendStatus _ => True
  | _ => False
  end.

(** An event that sends nothing of this file's own: local, or a call of the
    local-to-remote pump. *)
Definition no_send (ev : event) : Prop := is_local_event ev ∨ is_pump ev.

(** The outbound part of what a run appended: calls of the pump and then,
    at most once and last, the EXIT_CODE message with [status]. *)
Definition exit_code_last `{qrexec_h} (status : Z) (new : trace) : Prop :=
  ∃ pumps tail,
    outbound new = pumps ++ tail ∧ Forall is_pump pumps ∧
    (tail = [] ∨ exit_code_message status tail).

(** Was the EXIT_CODE header sent in [new]? *)
Definition exit_code_sent `{qrexec_h} (new : trace) : Prop :=
  EvSendHdr exit_code_hdr ∈ new.

(** The exit codes the reaper can have recorded in a run over [es]: none
    yet, or the translation of a wait status that [waitpid] reported. *)
Definition status_recorded (child_process_pid : Z) (es : list iter_env)
    (c : Z) : Prop :=
  c = (if child_process_pid >? 0 then -1 else 0) ∨
  ∃ e, e ∈ es ∧ 0 < child_process_pid ∧ 0 < e_waitpid_ret e ∧
       c = wait_status_to_exit_code (e_waitpid_status e).

(** What a run of the loop from [s] that is now at [f] has appended: calls
    of the pump and then, at most once and last, the EXIT_CODE message, sent
    with the session wound down and on the way out of the loop. *)
Definition run_shape `{qrexec_h} (child_process_pid : Z) (s : io_state)
    (f : flow) : Prop :=
  ∃ new pumps tail,
    io_trace (state_of f) = io_trace s ++ new ∧
    outbound new = pumps ++ tail ∧ Forall is_pump pumps ∧
    (tail = [] ∨
     (exit_code_message (child_process_status (state_of f)) tail ∧
      wound_down child_process_pid (state_of f) ∧
      -1 < child_process_status (state_of f) ∧
      leaves_loop f = true)).

(** [x] has the descriptors and the descriptor table of [s]. *)
Definition same_table (s x : io_state) : Prop :=
  stdin_fd x = stdin_fd s ∧ stdout_fd x = stdout_fd s ∧
  stderr_fd x = stderr_fd s ∧ open_fds x = open_fds s ∧
  bad_closes x = bad_closes s.

(** The descriptors [process_child_io] may be handed: [stderr_fd], when
    there is one, differs from the other two. *)
Definition fds_well_formed (stdin_fd stdout_fd stderr_fd : Z) : Prop :=
  0 ≤ stderr_fd → stderr_fd ≠ stdin_fd ∧ stderr_fd ≠ stdout_fd.

(** The trace an outcome of the dispatcher carries. *)
Definition outcome_trace (o : session_outcome) : trace :=
  match o with
  | SReturn _ tr | SExit _ tr | SAbort tr | SVchanError _ tr | SChild tr
  | SRunning tr => tr
  | SUndefined => []
  end.

(** [v] is the exit code asked for the wait status: 128 + N for a child that
    signal N terminated, core dumped or not, and the exit status for a child
    that exited. *)
Definition exit_code_for (status v : Z) : Prop :=
  (∀ sig core, 1 ≤ sig ≤ 126 → status = status_signaled sig core →
     v = 128 + sig) ∧
  (∀ ret, 0 ≤ ret < 256 → status = status_exited ret → v = ret).

(** A duplication of a descriptor, by [dup3] or by [fcntl]. *)
Definition is_dup (ev : event) : bool :=
  match ev with
  | EvDup3 _ _ | EvDupfd _ _ => true
  | _ => false
  end.

Definition no_dup (ev : event) : Prop := is_dup ev = false.

(** The duplications of a trace. *)
Definition dups (tr : trace) : trace := filter (λ ev, is_dup ev = true) tr.

(** In how many turns of the script the handler of SIGUSR1 ran. *)
Definition handler_runs (es : list iter_env) : nat :=
  length (filter (λ e, e_sigusr1 e = true) es).

(** The requests for a single socket that a run of the loop has to serve:
    the one the flag holds on entry, and one for each run of the handler. *)
Definition socket_requests (s : io_state) (es : list iter_env) : nat :=
  ((if (stdio_socket_requested s =? 1)%Z then 1 else 0) + handler_runs es)%nat.

(** What [process_child_io] can append: local events, calls of the pump,
    the sends of the exit code. *)
Definition is_io_event `{qrexec_h} (ev : event) : Prop :=
  is_local_event ev ∨ is_pump ev ∨ is_exit_code_send ev.

(** The four transfers of the handshake. *)
Definition is_handshake_event (ev : event) : Prop :=
  match ev with
  | EvSendHdr _ | EvSendInfo _ | EvRecvHdr | EvRecvInfo => True
  | _ => False
  end.

(** The whole exchange of the handshake, in its order. *)
Definition handshake_exchange `{qrexec_h} : trace :=
  [EvSendHdr hello_hdr; EvSendInfo hello_info; EvRecvHdr; EvRecvInfo].

(** An assumption on [handle_remote_data], which is not in this file: it
    stores a status through its pointer only when it reports the exit of the
    remote. *)
Definition status_only_at_exit (e : iter_env) : Prop :=
  rd_status (e_remote e) ≠ None → rd_rc (e_remote e) = REMOTE_EXITED.

(** What a run without a local child can have reached: it returned -1 or a
    status that the remote reported, or no status is stored yet. *)
Definition service_result (es : list iter_env) (f : flow) : Prop :=
  match f with
  | Return v _ =>
      v = -1 ∨
      ∃ e, e ∈ es ∧ rd_rc (e_remote e) = REMOTE_EXITED ∧
           rd_status (e_remote e) = Some v
  | Go s' | Continue s' | Break s' => remote_process_status s' = -1
  | _ => True
  end.

(** What the two pumps are called with: the protocol version [ver], and for
    the local-to-remote pump the message type [mt] or that of stderr. *)
Definition pump_arguments `{qrexec_h} (mt ver : Z) (ev : event) : Prop :=
  match ev with
  | EvHandleInput _ type version =>
      version = ver ∧ (type = mt ∨ type = MSG_DATA_STDERR)
  | EvHandleRemoteData _ version => version = ver
  | _ => True
  end.
(** * Scenarios

    Concrete environments, used where a property is evaluated. *)

(** An iteration in which nothing happens: no signal, nothing ready, the
    vchan open and empty, every transfer complete. *)
Definition idle_iter : iter_env := {|
  e_sigusr1 := false;
  e_waitpid_ret := 0;
  e_waitpid_status := 0;
  e_shutdown := λ _ _, ShutENOTSOCK;
  e_send_hdr := sizeof_msg_header;
  e_send_status := sizeof_int;
  e_data_ready := 0;
  e_is_open := 1;
  e_dup3_errno := 0;
  e_other_fds := Some ∅;
  e_vchan_fd := 9;
  e_buffer_space := VCHAN_BUFFER_SIZE;
  e_data_ready_poll := 0;
  e_pselect := λ _, PselectReady ∅ ∅;
  e_sigchld := false;
  e_vchan_wait := 0;
  e_remote := {| rd_rc := REMOTE_OK; rd_status := None; rd_buf := [];
                 rd_closed := false |};
  e_stdout_input := {| in_rc := REMOTE_OK; in_closed := false |};
  e_stderr_input := {| in_rc := REMOTE_OK; in_closed := false |}
|}.

(** A peer that answers the HELLO with [version]. *)
Definition peer_hello `{qrexec_h} (version : Z) : handshake_env := {|
  hs_send_hdr := sizeof_msg_header;
  hs_send_info := sizeof_peer_info;
  hs_recv_hdr_ret := sizeof_msg_header;
  hs_recv_hdr := hello_hdr;
  hs_recv_info_ret := sizeof_peer_info;
  hs_recv_info := {| info_version := version |}
|}.

(** A session against such a peer in which the fork gives [pid] and the
    loop, where there is one, gets [iters]. *)
Definition session_with `{qrexec_h} (version pid : Z) (iters : list iter_env)
    : session_env := {|
  w_vchan_ok := true;
  w_handshake := peer_hello version;
  w_prepare_ok := true;
  w_fork := pid;
  w_send_hdr := sizeof_msg_header;
  w_send_status := sizeof_int;
  w_spawn := {| sp_ret := 0; sp_pid := pid; sp_stdin_fd := 4; sp_stdout_fd := 5;
                sp_stderr_fd := 6; sp_stdin_buf := [] |};
  w_stdout_msg_type := MSG_DATA_STDOUT;
  w_child_exited := 0;
  w_stdio_socket_requested := 0;
  w_io := {| io_other_fds := Some ∅; io_iters := iters;
             io_shutdown := λ _ _, ShutENOTSOCK |}
|}.

(** A command line as the control protocol delivers it, and its length
    with the terminating NUL. *)
Definition sleep_cmdline : string := "user:/bin/sleep 60" ++ String NUL "".
Definition sleep_cmdline_len : Z := Z.of_nat (String.length sleep_cmdline).

(** A command line without the colon. *)
Definition bare_cmdline : string := "/bin/sleep 60" ++ String NUL "".
Definition bare_cmdline_len : Z := Z.of_nat (String.length bare_cmdline).

Definition remote_nothing : remote_data_res :=
  {| rd_rc := REMOTE_OK; rd_status := None; rd_buf := []; rd_closed := false |}.

(** The remote closes our stdin: the helper closes the descriptor. *)
Definition remote_eof : remote_data_res :=
  {| rd_rc := REMOTE_EOF; rd_status := None; rd_buf := []; rd_closed := true |}.

(** The remote reports its exit with [status]. *)
Definition remote_exited (status : Z) : remote_data_res :=
  {| rd_rc := REMOTE_EXITED; rd_status := Some status; rd_buf := [];
     rd_closed := false |}.

(** An iteration by what varies between the scenarios: the wait status of
    the child when [waitpid] reports it, whether the vchan is open, the free
    space of its ring, what [pselect] answers, whether SIGCHLD arrives in it,
    and what the three pumps return. Descriptors are pipes, sends complete. *)
Definition iter_of (reaped : option Z) (is_open buffer_space : Z)
    (ready : pselect_res) (sigchld : bool) (remote : remote_data_res)
    (out err : remote_rc) : iter_env := {|
  e_sigusr1 := false;
  e_waitpid_ret := if reaped is Some _ then 1234 else 0;
  e_waitpid_status := default 0 reaped;
  e_shutdown := λ _ _, ShutENOTSOCK;
  e_send_hdr := sizeof_msg_header;
  e_send_status := sizeof_int;
  e_data_ready := 0;
  e_is_open := is_open;
  e_dup3_errno := 0;
  e_other_fds := Some ∅;
  e_vchan_fd := 9;
  e_buffer_space := buffer_space;
  e_data_ready_poll := 0;
  e_pselect := λ _, ready;
  e_sigchld := sigchld;
  e_vchan_wait := 0;
  e_remote := remote;
  e_stdout_input := {| in_rc := out; in_closed := true |};
  e_stderr_input := {| in_rc := err; in_closed := true |}
|}.

(** The vchan is found closed and empty. *)
Definition vchan_closed_iter : iter_env :=
  iter_of None 0 VCHAN_BUFFER_SIZE (PselectReady ∅ ∅) false remote_nothing
    REMOTE_OK REMOTE_OK.


(** The remote reports exit code 7. *)
Definition remote_exit_7_iter : iter_env :=
  iter_of None 1 VCHAN_BUFFER_SIZE (PselectReady {[9]} ∅) false (remote_exited 7)
    REMOTE_OK REMOTE_OK.


(** Both outputs of the child are readable and there is room in the ring:
    the pumps run. *)
Definition output_ready_iter : iter_env :=
  iter_of None 1 VCHAN_BUFFER_SIZE (PselectReady {[5; 6]} ∅) false remote_nothing
    REMOTE_OK REMOTE_OK.

(** The run of a child that ends at once: in the first turn the remote
    closes stdin, both outputs are at their end and SIGCHLD arrives; in the
    second the child is reaped, while the ring of the vchan has no free
    space. *)
Definition all_at_end_iter : iter_env :=
  iter_of None 1 VCHAN_BUFFER_SIZE (PselectReady {[5; 6]} ∅) true remote_eof
    REMOTE_EOF REMOTE_EOF.
Definition reaped_ring_full_iter : iter_env :=
  iter_of (Some (status_exited 0)) 1 0 (PselectReady ∅ ∅) false remote_nothing
    REMOTE_OK REMOTE_OK.

(** The state of the loop at its first turn, with a child 1234 on the
    descriptors 4, 5 and 6, and without a child on the pipes 4 and 5. *)
Definition exec_start (exited : Z) : io_state :=
  initial_state 1234 4 5 6 [] exited 0 [].
Definition service_start : io_state :=
  initial_state 0 4 5 (-1) [] 0 0 [].

Definition pipes : Z → shut_how → shut_res := λ _ _, ShutENOTSOCK.

(** The environment of [process_child_io] for the child that ends at
    once. *)
Definition ends_at_once : io_env :=
  {| io_other_fds := Some ∅;
     io_iters := [all_at_end_iter; reaped_ring_full_iter];
     io_shutdown := pipes |}.

(** The environment of [process_child_io] in which the remote reports exit
    code 7 in the first turn. *)
Definition remote_exits_with_7 : io_env :=
  {| io_other_fds := Some ∅;
     io_iters := [remote_exit_7_iter];
     io_shutdown := pipes |}.

(** A session in which [execute_qubes_rpc_command] fails and leaves the
    three descriptors as [handle_new_process] passed them, at -1. *)
Definition failed_spawn_session `{qrexec_h} : session_env := {|
  w_vchan_ok := true;
  w_handshake := peer_hello 3;
  w_prepare_ok := true;
  w_fork := 0;
  w_send_hdr := sizeof_msg_header;
  w_send_status := sizeof_int;
  w_spawn := {| sp_ret := -1; sp_pid := 0; sp_stdin_fd := -1;
                sp_stdout_fd := -1; sp_stderr_fd := -1; sp_stdin_buf := [] |};
  w_stdout_msg_type := MSG_DATA_STDOUT;
  w_child_exited := 0;
  w_stdio_socket_requested := 0;
  w_io := {| io_other_fds := Some ∅; io_iters := [idle_iter];
             io_shutdown := pipes |}
|}.



(** A child terminated by SIGKILL is reaped with nothing left open, and
    the ring of the vchan has no free space. *)
Definition killed_ring_full_iter : iter_env :=
  iter_of (Some (status_signaled 9 false)) 1 0 (PselectReady ∅ ∅) false
    remote_nothing REMOTE_OK REMOTE_OK.
Definition ends_killed : io_env :=
  {| io_other_fds := Some ∅;
     io_iters := [all_at_end_iter; killed_ring_full_iter];
     io_shutdown := pipes |}.

(** An idle iteration before which the handler of SIGUSR1 ran. *)
Definition sigusr1_iter : iter_env := {|
  e_sigusr1 := true;
  e_waitpid_ret := 0;
  e_waitpid_status := 0;
  e_shutdown := λ _ _, ShutENOTSOCK;
  e_send_hdr := sizeof_msg_header;
  e_send_status := sizeof_int;
  e_data_ready := 0;
  e_is_open := 1;
  e_dup3_errno := 0;
  e_other_fds := Some ∅;
  e_vchan_fd := 9;
  e_buffer_space := VCHAN_BUFFER_SIZE;
  e_data_ready_poll := 0;
  e_pselect := λ _, PselectReady ∅ ∅;
  e_sigchld := false;
  e_vchan_wait := 0;
  e_remote := {| rd_rc := REMOTE_OK; rd_status := None; rd_buf := [];
                 rd_closed := false |};
  e_stdout_input := {| in_rc := REMOTE_OK; in_closed := false |};
  e_stderr_input := {| in_rc := REMOTE_OK; in_closed := false |}
|}.
(** * Properties *)

#[local] Set Warnings "-clear-no-such-hyp".

(** ** Arithmetic of the conversions and of the wait statuses *)

Lemma to_uint32_small (x : Z) : 0 ≤ x < 2 ^ 32 → to_uint32 x = x.
Proof. intros Hx. unfold to_uint32. by apply Z.mod_small. Qed.

Lemma to_int32_small (x : Z) : - 2 ^ 31 ≤ x < 2 ^ 31 → to_int32 x = x.
Proof. intros Hx. unfold to_int32. rewrite Z.mod_small; lia. Qed.

Lemma actual_version_min `{qrexec_h} (remote : Z) :
  0 ≤ QREXEC_PROTOCOL_VERSION < 2 ^ 31 →
  0 ≤ remote < 2 ^ 32 →
  actual_version remote = Z.min QREXEC_PROTOCOL_VERSION remote.
Proof.
  intros Hl Hr. unfold actual_version.
  rewrite to_uint32_small by lia.
  destruct (Z.ltb_spec remote QREXEC_PROTOCOL_VERSION);
    rewrite to_int32_small; lia.
Qed.

Lemma land_low7 (x : Z) : 0 ≤ x < 128 → Z.land x 0x7f = x.
Proof.
  intros Hx. change 0x7f with (Z.ones 7).
  rewrite Z.land_ones by lia. apply Z.mod_small. lia.
Qed.

Lemma WTERMSIG_signaled (sig : Z) (core : bool) :
  0 ≤ sig < 128 → WTERMSIG (status_signaled sig core) = sig.
Proof.
  intros Hs. unfold WTERMSIG, status_signaled.
  rewrite Z.land_lor_distr_l, land_low7 by done.
  destruct core; simpl; apply Z.lor_0_r.
Qed.

Lemma WIFSIGNALED_range (status : Z) :
  WIFSIGNALED status = true ↔ 1 ≤ WTERMSIG status ≤ 126.
Proof.
  unfold WIFSIGNALED, WTERMSIG.
  assert (0 ≤ Z.land status 0x7f < 128) as Hr.
  { change 0x7f with (Z.ones 7). rewrite Z.land_ones by lia.
    apply Z.mod_pos_bound. lia. }
  set (t := Z.land status 0x7f) in *. clearbody t.
  rewrite Z.shiftr_div_pow2 by lia. unfold to_schar.
  destruct (decide (t = 127)) as [->|Hne].
  - vm_compute. split; [discriminate | intros [_ Hle]; by destruct Hle].
  - rewrite Z.mod_small by lia.
    assert (((t + 1 + 128 - 128) `div` 2 ^ 1 >? 0) = true ↔ 1 ≤ t) as Hd.
    { rewrite Z.gtb_gt. change (2 ^ 1) with 2.
      split; intros Hx.
      - destruct (decide (t = 0)) as [->|]; [by vm_compute in Hx | lia].
      - assert (1 ≤ (t + 1 + 128 - 128) `div` 2); [|lia].
        apply Z.div_le_lower_bound; lia. }
    rewrite Hd. lia.
Qed.

Lemma WEXITSTATUS_exited (ret : Z) :
  0 ≤ ret < 256 → WEXITSTATUS (status_exited ret) = ret.
Proof.
  intros Hr. unfold WEXITSTATUS, status_exited.
  change 0xff00 with (Z.shiftl 0xff 8).
  rewrite <- Z.shiftl_land, Z.shiftr_shiftl_l by lia.
  change (8 - 8) with 0. rewrite Z.shiftl_0_r.
  change 0xff with (Z.ones 8). rewrite Z.land_ones by lia.
  apply Z.mod_small. lia.
Qed.

Lemma WTERMSIG_exited (ret : Z) : WTERMSIG (status_exited ret) = 0.
Proof.
  unfold WTERMSIG, status_exited. change 0x7f with (Z.ones 7).
  rewrite Z.land_ones, Z.shiftl_mul_pow2 by lia.
  change (2 ^ 8) with (2 * 2 ^ 7). rewrite Z.mul_assoc.
  apply Z.mod_mul. lia.
Qed.

Lemma exit_code_of_signal (sig : Z) (core : bool) :
  1 ≤ sig ≤ 126 →
  wait_status_to_exit_code (status_signaled sig core) = 128 + sig.
Proof.
  intros Hs. unfold wait_status_to_exit_code.
  assert (WIFSIGNALED (status_signaled sig core) = true) as ->.
  { apply WIFSIGNALED_range. rewrite WTERMSIG_signaled; lia. }
  rewrite WTERMSIG_signaled; lia.
Qed.

Lemma exit_code_of_exit (ret : Z) :
  0 ≤ ret < 256 → wait_status_to_exit_code (status_exited ret) = ret.
Proof.
  intros Hr. unfold wait_status_to_exit_code.
  assert (WIFSIGNALED (status_exited ret) = false) as ->.
  { apply not_true_is_false. rewrite WIFSIGNALED_range, WTERMSIG_exited. lia. }
  by apply WEXITSTATUS_exited.
Qed.

(** ** The handshake *)

Lemma handle_handshake_result `{qrexec_h} (w : handshake_env) (tr : trace) :
  (handle_handshake w tr).1 = -1 ∨
  (transfers_complete w ∧ hdr_type (hs_recv_hdr w) = MSG_HELLO ∧
   hdr_len (hs_recv_hdr w) = sizeof_peer_info ∧
   (handle_handshake w tr).1 = actual_version (info_version (hs_recv_info w)) ∧
   QREXEC_DATA_MIN_VERSION ≤ actual_version (info_version (hs_recv_info w))).
Proof.
  unfold handle_handshake, transfers_complete.
  repeat (case_match; simpl; [by left|]).
  right.
  repeat match goal with
         | Hb : negb _ = false |- _ => apply negb_false_iff in Hb
         | Hb : _ || _ = false |- _ => apply orb_false_iff in Hb as [??]
         end.
  repeat split; lia.
Qed.

(** C2. The handshake returns the smaller of the local and the peer's
    version when every transfer is complete, the first message received is a
    HELLO of the size of the peer info and that version reaches the minimum;
    it returns the error -1 when the type is not HELLO or the length is not
    the size of the peer info, and when the smaller version is below the
    minimum. *)
Theorem handshake_negotiates_min `{qrexec_h} (w : handshake_env) (tr : trace) :
  0 ≤ QREXEC_PROTOCOL_VERSION < 2 ^ 31 →
  0 ≤ info_version (hs_recv_info w) < 2 ^ 32 →
  let negotiated := Z.min QREXEC_PROTOCOL_VERSION (info_version (hs_recv_info w)) in
  (transfers_complete w →
   hdr_type (hs_recv_hdr w) = MSG_HELLO →
   hdr_len (hs_recv_hdr w) = sizeof_peer_info →
   QREXEC_DATA_MIN_VERSION ≤ negotiated →
   (handle_handshake w tr).1 = negotiated) ∧
  (hdr_type (hs_recv_hdr w) ≠ MSG_HELLO ∨
   hdr_len (hs_recv_hdr w) ≠ sizeof_peer_info →
   (handle_handshake w tr).1 = -1) ∧
  (negotiated < QREXEC_DATA_MIN_VERSION → (handle_handshake w tr).1 = -1).
Proof.
  intros Hl Hr negotiated. subst negotiated.
  rewrite <- (actual_version_min _ Hl Hr).
  split; [|split].
  - intros (H1 & H2 & H3 & H4) Ht Hn Hmin. unfold handle_handshake.
    rewrite H1, H2, H3, H4, Ht, Hn, !Z.eqb_refl. simpl.
    destruct (Z.ltb_spec (actual_version (info_version (hs_recv_info w)))
                QREXEC_DATA_MIN_VERSION); [lia | done].
  - intros Hbad.
    destruct (handle_handshake_result w tr) as [?|(_ & ? & ? & _)]; [done|].
    destruct Hbad; congruence.
  - intros Hlow.
    destruct (handle_handshake_result w tr) as [?|(_ & _ & _ & _ & ?)]; [done|lia].
Qed.

Section HandshakeAtV3.
#[local] Existing Instance qrexec_h_v3.

Lemma handshake_negotiates_min_witness :
  (handle_handshake (peer_hello 2) []).1 = 2 ∧
  (handle_handshake (peer_hello 1) []).1 = -1.
Proof.
  split.
  - apply (handshake_negotiates_min (H := qrexec_h_v3)
             (peer_hello 2) []); by vm_compute.
  - apply (handshake_negotiates_min (H := qrexec_h_v3)
             (peer_hello 1) []); by vm_compute.
Defined.

End HandshakeAtV3.

(** ** The exit-code emitter *)

(** What is sent, and when the emitter fails: only a negative result of a
    send is an error to it. *)
Lemma send_exit_code_cases `{qrexec_h} (r_hdr r_status status : Z) (tr : trace) :
  send_exit_code r_hdr r_status status tr =
    if r_hdr <? 0 then SendVchanError "write hdr" (tr ++ [EvSendHdr exit_code_hdr])
    else if r_status <? 0
         then SendVchanError "write status"
                (tr ++ [EvSendHdr exit_code_hdr; EvSendStatus status])
         else SendDone (tr ++ [EvSendHdr exit_code_hdr; EvSendStatus status]).
Proof.
  unfold send_exit_code, vchan_error_in_send.
  repeat case_match; by rewrite <- ?app_assoc.
Qed.

(** C7. The emitter sends the header (type EXIT_CODE, length 4) and then the
    status, as two sends; but a send that moved fewer bytes than asked, here 3
    of the 8 bytes of the header and none of the 4 of the status, is not an
    error to it: it goes on and ends normally, where the handshake fails on
    any count other than the size. *)
Theorem send_exit_code_short_write `{qrexec_h} (status : Z) (tr : trace) :
  hdr_type exit_code_hdr = MSG_DATA_EXIT_CODE ∧
  hdr_len exit_code_hdr = 4 ∧
  send_exit_code 3 0 status tr =
    SendDone (tr ++ [EvSendHdr exit_code_hdr; EvSendStatus status]) ∧
  (handle_handshake
     {| hs_send_hdr := 3; hs_send_info := 0;
        hs_recv_hdr_ret := sizeof_msg_header; hs_recv_hdr := hello_hdr;
        hs_recv_info_ret := sizeof_peer_info; hs_recv_info := hello_info |} tr).1 = -1.
Proof. by rewrite send_exit_code_cases. Qed.

(** ** Execute-and-detach *)

Lemma run_session_just_exec `{qrexec_h} (cmdline : string)
    (fd0 fd1 fd2 : Z) (w : session_env) (tr : trace) :
  w_prepare_ok w = true →
  run_session MSG_JUST_EXEC cmdline fd0 fd1 fd2 w tr =
    match handle_just_exec cmdline (w_fork w)
            ((handle_handshake (w_handshake w) tr).2 ++ [EvPrepareChildEnv]) with
    | JeChild tr => SChild tr
    | JeReturn status tr =>
        match send_exit_code (w_send_hdr w) (w_send_status w) status tr with
        | SendVchanError op tr => SVchanError op tr
        | SendDone tr => SReturn 0 (tr ++ [EvVchanClose])
        end
    end.
Proof.
  intros Hp. unfold run_session.
  destruct (handle_handshake (w_handshake w) tr) as [v tr'].
  by rewrite Hp, Z.eqb_refl.
Qed.

Lemma common_client_side `{qrexec_h} (type : Z) (buf : string) (cmdline_len : Z)
    (fd0 fd1 fd2 bs : Z) (w : session_env) :
  type ≠ MSG_SERVICE_CONNECT →
  0 < cmdline_len ≤ MAX_QREXEC_CMD_LEN →
  cmdline_len ≤ Z.of_nat (String.length buf) →
  w_vchan_ok w = true →
  handle_new_process_common type (Some buf) cmdline_len fd0 fd1 fd2 bs w =
    run_session type (c_string (store (Z.to_nat (cmdline_len - 1)) NUL buf))
      fd0 fd1 fd2 w [EvVchanClientInit].
Proof.
  intros Ht Hl Hb Hv. unfold handle_new_process_common.
  rewrite (proj2 (Z.eqb_neq _ _) Ht), Hv.
  destruct (Z.eqb_spec cmdline_len 0); [lia|].
  destruct (Z.gtb_spec cmdline_len MAX_QREXEC_CMD_LEN); [lia|].
  by destruct (Z.ltb_spec (Z.of_nat (String.length buf)) cmdline_len); [lia|].
Qed.

(** C6, as the code has it. In execute-and-detach mode, for a command
    line of a length from 1 to [MAX_QREXEC_CMD_LEN] that lies within its
    buffer, once the vchan is connected and [prepare_child_env] has not
    aborted, and whatever the handshake gave, the parent of the fork: when the
    command line has a colon and the fork succeeds, has forked a child that
    opens the null device, makes it its standard descriptors and executes the
    command, and sends exit code 0; when the command line has no colon or
    the fork fails, forks nothing and sends exit code -1.  In both cases it
    then closes the vchan and returns 0, unless a send of the exit code
    returns a negative value: then the session ends in [handle_vchan_error],
    after the header or after the status, without closing the vchan and
    without returning. *)
Theorem just_exec_sends_result_returns_0 `{qrexec_h}
    (buf : string) (cmdline_len : Z) (w : session_env) :
  0 < cmdline_len ≤ MAX_QREXEC_CMD_LEN →
  cmdline_len ≤ Z.of_nat (String.length buf) →
  w_vchan_ok w = true →
  w_prepare_ok w = true →
  w_fork w ≠ 0 →
  let cmdline := c_string (store (Z.to_nat (cmdline_len - 1)) NUL buf) in
  let before := (handle_handshake (w_handshake w) [EvVchanClientInit]).2
                  ++ [EvPrepareChildEnv] in
  let forked :=
    match split_colon cmdline with
    | Some (user, command) =>
        if w_fork w =? -1 then []
        else [EvFork (w_fork w)
                [ChOpen "/dev/null"; ChFixFds "/dev/null";
                 ChDoExec command user]]
    | None => []
    end in
  let status :=
    match split_colon cmdline with
    | Some _ => if w_fork w =? -1 then -1 else 0
    | None => -1
    end in
  handle_new_process MSG_JUST_EXEC (Some buf) cmdline_len w =
    if w_send_hdr w <? 0 then
      SVchanError "write hdr" (before ++ forked ++ [EvSendHdr exit_code_hdr])
    else if w_send_status w <? 0 then
      SVchanError "write status"
        (before ++ forked ++ [EvSendHdr exit_code_hdr; EvSendStatus status])
    else
      SReturn 0
        (before ++ forked ++
         [EvSendHdr exit_code_hdr; EvSendStatus status; EvVchanClose]).
Proof.
  intros Hl Hb Hv Hp Hf cmdline before forked status.
  unfold handle_new_process.
  destruct case_labels_differ as (_ & Hd & _).
  rewrite (proj2 (Z.eqb_neq _ _) Hd).
  rewrite common_client_side by done.
  rewrite run_session_just_exec by done.
  fold cmdline before. unfold handle_just_exec.
  subst forked status.
  destruct (split_colon cmdline) as [[user command]|].
  - destruct (Z.eqb_spec (w_fork w) (-1)).
    + rewrite send_exit_code_cases.
      destruct (w_send_hdr w <? 0); [|destruct (w_send_status w <? 0)];
        by rewrite <- ?app_assoc.
    + destruct (Z.eqb_spec (w_fork w) 0); [done|].
      rewrite send_exit_code_cases.
      destruct (w_send_hdr w <? 0); [|destruct (w_send_status w <? 0)];
        by rewrite <- ?app_assoc.
  - rewrite send_exit_code_cases.
    destruct (w_send_hdr w <? 0); [|destruct (w_send_status w <? 0)];
      by rewrite <- ?app_assoc.
Qed.

Section DispatcherAtV3.
#[local] Existing Instance qrexec_h_v3.

Lemma just_exec_sends_result_returns_0_witness :
  handle_new_process MSG_JUST_EXEC
    (Some sleep_cmdline) sleep_cmdline_len
    (session_with 3 1234 []) =
  SReturn 0
    [EvVchanClientInit;
     EvSendHdr {| hdr_type := 0x300; hdr_len := 4 |};
     EvSendInfo {| info_version := 3 |}; EvRecvHdr; EvRecvInfo;
     EvPrepareChildEnv;
     EvFork 1234 [ChOpen "/dev/null"; ChFixFds "/dev/null";
                  ChDoExec "/bin/sleep 60" "user"];
     EvSendHdr {| hdr_type := 0x193; hdr_len := 4 |}; EvSendStatus 0;
     EvVchanClose].
Proof.
  rewrite (just_exec_sends_result_returns_0 (H := qrexec_h_v3)
             sleep_cmdline sleep_cmdline_len
             (session_with 3 1234 []));
    by vm_compute.
Defined.

(** C6, as the claim has it, fails for a command line without a colon:
    no child is forked and the exit code sent is -1. *)
Lemma just_exec_without_colon :
  handle_new_process MSG_JUST_EXEC
    (Some bare_cmdline) bare_cmdline_len
    (session_with 3 1234 []) =
  SReturn 0
    [EvVchanClientInit;
     EvSendHdr {| hdr_type := 0x300; hdr_len := 4 |};
     EvSendInfo {| info_version := 3 |}; EvRecvHdr; EvRecvInfo;
     EvPrepareChildEnv;
     EvSendHdr {| hdr_type := 0x193; hdr_len := 4 |}; EvSendStatus (-1);
     EvVchanClose].
Proof. by vm_compute. Qed.

(** ** The dispatcher and a failed handshake *)

(** C1. Against a peer that announces version 1 the handshake returns -1,
    and the dispatcher goes on as if it had succeeded: in execute-and-detach
    mode the child is forked, the EXIT_CODE frame is sent and 0 is returned;
    in execute-and-wait mode the child is spawned and the loop runs, -1 being
    handed to the pumps as the protocol version. *)
Theorem failed_handshake_is_not_checked :
  (handle_handshake (peer_hello 1)
     [EvVchanClientInit]).1 = -1 ∧
  handle_new_process MSG_JUST_EXEC
    (Some sleep_cmdline) sleep_cmdline_len
    (session_with 1 1234 []) =
  SReturn 0
    [EvVchanClientInit;
     EvSendHdr {| hdr_type := 0x300; hdr_len := 4 |};
     EvSendInfo {| info_version := 3 |}; EvRecvHdr; EvRecvInfo;
     EvPrepareChildEnv;
     EvFork 1234 [ChOpen "/dev/null"; ChFixFds "/dev/null";
                  ChDoExec "/bin/sleep 60" "user"];
     EvSendHdr {| hdr_type := 0x193; hdr_len := 4 |}; EvSendStatus 0;
     EvVchanClose] ∧
  handle_new_process MSG_EXEC_CMDLINE
    (Some sleep_cmdline) sleep_cmdline_len
    (session_with 1 1234 [idle_iter]) =
  SRunning
    [EvVchanClientInit;
     EvSendHdr {| hdr_type := 0x300; hdr_len := 4 |};
     EvSendInfo {| info_version := 3 |}; EvRecvHdr; EvRecvInfo;
     EvPrepareChildEnv; EvSpawn 0 1234;
     EvSetNonblock 4; EvSetNonblock 5; EvSetNonblock 6;
     EvHandleRemoteData 4 (-1)].
Proof. by vm_compute. Qed.

End DispatcherAtV3.

(** ** Traces only grow *)

Lemma adds_refl (Q : event → Prop) (s : io_state) : adds Q s s.
Proof. exists []. by rewrite app_nil_r. Qed.

Lemma adds_trans (Q : event → Prop) (s1 s2 s3 : io_state) :
  adds Q s1 s2 → adds Q s2 s3 → adds Q s1 s3.
Proof.
  intros (n1 & H1 & F1) (n2 & H2 & F2). exists (n1 ++ n2).
  rewrite H2, H1, app_assoc. split; [done|]. by apply Forall_app.
Qed.

Lemma adds_weaken (P Q : event → Prop) (s s' : io_state) :
  (∀ ev, P ev → Q ev) → adds P s s' → adds Q s s'.
Proof.
  intros HPQ (n & Hn & Fn). exists n. split; [done|].
  by apply (Forall_impl P).
Qed.

Lemma adds_same_trace (Q : event → Prop) (s s' : io_state) :
  io_trace s' = io_trace s → adds Q s s'.
Proof. intros Heq. exists []. by rewrite app_nil_r. Qed.

Lemma adds_emit (Q : event → Prop) (evs : trace) (s : io_state) :
  Forall Q evs → adds Q s (emit evs s).
Proof. intros HQ. by exists evs. Qed.

Lemma adds_new_events (Q : event → Prop) (s s' : io_state) :
  adds Q s s' →
  io_trace s' = io_trace s ++ new_events s s' ∧ Forall Q (new_events s s').
Proof.
  intros (n & Hn & Fn). unfold new_events.
  by rewrite Hn, drop_app_length.
Qed.

(** ** The loop over a script *)

Section Loop.
Context `{qrexec_h}.
Variables (pid mt ver : Z).

Lemma io_loop_is_not_continue (es : list iter_env) (s s' : io_state) :
  io_loop pid mt ver es s ≠ Continue s'.
Proof.
  revert s. induction es as [|e es IH]; intros s; simpl; [done|].
  destruct (loop_iteration pid mt ver e s); try done; apply IH.
Qed.

Lemma io_loop_app (es1 es2 : list iter_env) (s : io_state) :
  io_loop pid mt ver (es1 ++ es2) s =
    io_loop pid mt ver es1 s >>> io_loop pid mt ver es2.
Proof.
  revert s. induction es1 as [|e es1 IH]; intros s; simpl; [done|].
  destruct (loop_iteration pid mt ver e s); simpl; try done; apply IH.
Qed.

(** A property of states that every turn of the loop keeps, holds after
    the loop, however it ends. *)
Lemma io_loop_invariant (P : io_state → Prop) (es : list iter_env) :
  (∀ e s, e ∈ es → P s → P (state_of (loop_iteration pid mt ver e s))) →
  ∀ s, P s → P (state_of (io_loop pid mt ver es s)).
Proof.
  induction es as [|e es IH]; intros Hstep s HP; simpl; [done|].
  assert (P (state_of (loop_iteration pid mt ver e s))) as HP'.
  { apply Hstep; [left | done]. }
  assert (∀ s', P s' → P (state_of (io_loop pid mt ver es s'))) as Hrest.
  { apply IH. intros e' s' He'. apply Hstep. by right. }
  destruct (loop_iteration pid mt ver e s); simpl in *; auto.
Qed.

End Loop.

(** ** The steps of the loop body, one by one *)

(** Projections of updated states. *)
Ltac fields :=
  cbn [stdin_fd stdout_fd stderr_fd child_process_status remote_process_status stdin_buf child_exited stdio_socket_requested open_fds bad_closes io_trace
       set_stdin_fd set_stdout_fd set_stderr_fd set_child_process_status set_remote_process_status set_child_exited
       set_stdio_socket_requested set_stdin_buf set_open_fds set_bad_closes set_io_trace emit] in *.

Section Frames.
Context `{qrexec_h}.
Variable pid : Z.

Lemma sys_close_stdin_fd (fd : Z) (s : io_state) :
  stdin_fd (sys_close fd s) = stdin_fd s.
Proof. unfold sys_close. by repeat case_match. Qed.

Lemma sys_close_stdout_fd (fd : Z) (s : io_state) :
  stdout_fd (sys_close fd s) = stdout_fd s.
Proof. unfold sys_close. by repeat case_match. Qed.

Lemma sys_close_stderr_fd (fd : Z) (s : io_state) :
  stderr_fd (sys_close fd s) = stderr_fd s.
Proof. unfold sys_close. by repeat case_match. Qed.

Lemma sys_close_child_process_status (fd : Z) (s : io_state) :
  child_process_status (sys_close fd s) = child_process_status s.
Proof. unfold sys_close. by repeat case_match. Qed.

Lemma sys_close_remote_process_status (fd : Z) (s : io_state) :
  remote_process_status (sys_close fd s) = remote_process_status s.
Proof. unfold sys_close. by repeat case_match. Qed.

Lemma sys_close_stdin_buf (fd : Z) (s : io_state) :
  stdin_buf (sys_close fd s) = stdin_buf s.
Proof. unfold sys_close. by repeat case_match. Qed.

Lemma sys_close_child_exited (fd : Z) (s : io_state) :
  child_exited (sys_close fd s) = child_exited s.
Proof. unfold sys_close. by repeat case_match. Qed.

Lemma sys_close_stdio_socket_requested (fd : Z) (s : io_state) :
  stdio_socket_requested (sys_close fd s) = stdio_socket_requested s.
Proof. unfold sys_close. by repeat case_match. Qed.

Lemma shutdown_or_close_stdin_fd (inh : Z) (how : shut_how)
    (shut : Z → shut_how → shut_res) (fd : Z) (s : io_state) :
  stdin_fd (shutdown_or_close pid inh how shut fd s) = stdin_fd s.
Proof.
  unfold shutdown_or_close.
  repeat case_match; by rewrite ?sys_close_stdin_fd.
Qed.

Lemma shutdown_or_close_stdout_fd (inh : Z) (how : shut_how)
    (shut : Z → shut_how → shut_res) (fd : Z) (s : io_state) :
  stdout_fd (shutdown_or_close pid inh how shut fd s) = stdout_fd s.
Proof.
  unfold shutdown_or_close.
  repeat case_match; by rewrite ?sys_close_stdout_fd.
Qed.

Lemma shutdown_or_close_stderr_fd (inh : Z) (how : shut_how)
    (shut : Z → shut_how → shut_res) (fd : Z) (s : io_state) :
  stderr_fd (shutdown_or_close pid inh how shut fd s) = stderr_fd s.
Proof.
  unfold shutdown_or_close.
  repeat case_match; by rewrite ?sys_close_stderr_fd.
Qed.

Lemma shutdown_or_close_child_process_status (inh : Z) (how : shut_how)
    (shut : Z → shut_how → shut_res) (fd : Z) (s : io_state) :
  child_process_status (shutdown_or_close pid inh how shut fd s) = child_process_status s.
Proof.
  unfold shutdown_or_close.
  repeat case_match; by rewrite ?sys_close_child_process_status.
Qed.

Lemma shutdown_or_close_remote_process_status (inh : Z) (how : shut_how)
    (shut : Z → shut_how → shut_res) (fd : Z) (s : io_state) :
  remote_process_status (shutdown_or_close pid inh how shut fd s) = remote_process_status s.
Proof.
  unfold shutdown_or_close.
  repeat case_match; by rewrite ?sys_close_remote_process_status.
Qed.

Lemma shutdown_or_close_stdin_buf (inh : Z) (how : shut_how)
    (shut : Z → shut_how → shut_res) (fd : Z) (s : io_state) :
  stdin_buf (shutdown_or_close pid inh how shut fd s) = stdin_buf s.
Proof.
  unfold shutdown_or_close.
  repeat case_match; by rewrite ?sys_close_stdin_buf.
Qed.

Lemma shutdown_or_close_child_exited (inh : Z) (how : shut_how)
    (shut : Z → shut_how → shut_res) (fd : Z) (s : io_state) :
  child_exited (shutdown_or_close pid inh how shut fd s) = child_exited s.
Proof.
  unfold shutdown_or_close.
  repeat case_match; by rewrite ?sys_close_child_exited.
Qed.

Lemma shutdown_or_close_stdio_socket_requested (inh : Z) (how : shut_how)
    (shut : Z → shut_how → shut_res) (fd : Z) (s : io_state) :
  stdio_socket_requested (shutdown_or_close pid inh how shut fd s) = stdio_socket_requested s.
Proof.
  unfold shutdown_or_close.
  repeat case_match; by rewrite ?sys_close_stdio_socket_requested.
Qed.

End Frames.

Create Rewrite HintDb io_fields.

#[global] Hint Rewrite
  @sys_close_stdin_fd
  @sys_close_stdout_fd
  @sys_close_stderr_fd
  @sys_close_child_process_status
  @sys_close_remote_process_status
  @sys_close_stdin_buf
  @sys_close_child_exited
  @sys_close_stdio_socket_requested
  @shutdown_or_close_stdin_fd
  @shutdown_or_close_stdout_fd
  @shutdown_or_close_stderr_fd
  @shutdown_or_close_child_process_status
  @shutdown_or_close_remote_process_status
  @shutdown_or_close_stdin_buf
  @shutdown_or_close_child_exited
  @shutdown_or_close_stdio_socket_requested
  : io_fields.

Ltac norm_fields := repeat (progress (fields; autorewrite with io_fields in * )).

Ltac unfold_steps :=
  unfold reap, deliver_sigusr1, deliver_sigchld, teardown, return_value in *.

Ltac step_cases := unfold_steps; repeat case_match; norm_fields.

Section Steps.
Context `{qrexec_h}.
Variables (pid mt ver : Z).

Lemma sys_close_fields (fd : Z) (s : io_state) :
  stdin_fd (sys_close fd s) = stdin_fd s ∧
  stdout_fd (sys_close fd s) = stdout_fd s ∧
  stderr_fd (sys_close fd s) = stderr_fd s ∧
  child_process_status (sys_close fd s) = child_process_status s ∧
  remote_process_status (sys_close fd s) = remote_process_status s ∧
  stdin_buf (sys_close fd s) = stdin_buf s ∧
  child_exited (sys_close fd s) = child_exited s ∧
  stdio_socket_requested (sys_close fd s) = stdio_socket_requested s.
Proof. by autorewrite with io_fields. Qed.

Lemma shutdown_or_close_fields (inh : Z) (how : shut_how)
    (shut : Z → shut_how → shut_res) (fd : Z) (s : io_state) :
  let s' := shutdown_or_close pid inh how shut fd s in
  stdin_fd s' = stdin_fd s ∧ stdout_fd s' = stdout_fd s ∧
  stderr_fd s' = stderr_fd s ∧
  child_process_status s' = child_process_status s ∧
  remote_process_status s' = remote_process_status s ∧
  stdin_buf s' = stdin_buf s ∧
  child_exited s' = child_exited s ∧
  stdio_socket_requested s' = stdio_socket_requested s.
Proof. cbv zeta. by autorewrite with io_fields. Qed.

Lemma deliver_sigusr1_fields (e : iter_env) (s : io_state) :
  let s' := deliver_sigusr1 e s in
  stdin_fd s' = stdin_fd s ∧ stdout_fd s' = stdout_fd s ∧
  stderr_fd s' = stderr_fd s ∧
  child_process_status s' = child_process_status s ∧
  remote_process_status s' = remote_process_status s ∧
  stdin_buf s' = stdin_buf s ∧ child_exited s' = child_exited s ∧
  open_fds s' = open_fds s ∧ bad_closes s' = bad_closes s ∧
  io_trace s' = io_trace s.
Proof. by step_cases. Qed.

Lemma reap_fields (e : iter_env) (s : io_state) :
  let s' := reap pid e s in
  stdout_fd s' = stdout_fd s ∧ stderr_fd s' = stderr_fd s ∧
  remote_process_status s' = remote_process_status s ∧
  stdin_buf s' = stdin_buf s ∧
  stdio_socket_requested s' = stdio_socket_requested s.
Proof. by step_cases. Qed.

(** The reaper leaves the exit code alone unless the flag is set, there is
    a child and [waitpid] reports it. *)
Lemma reap_not_reaped (e : iter_env) (s : io_state) :
  child_exited s = 0 ∨ pid ≤ 0 ∨ e_waitpid_ret e ≤ 0 →
  child_process_status (reap pid e s) = child_process_status s ∧
  stdin_fd (reap pid e s) = stdin_fd s.
Proof. intros Hn. step_cases; try done; lia. Qed.

(** And records the translated wait status when they do. *)
Lemma reap_reaped (e : iter_env) (s : io_state) :
  child_exited s ≠ 0 → 0 < pid → 0 < e_waitpid_ret e →
  child_process_status (reap pid e s) =
    wait_status_to_exit_code (e_waitpid_status e) ∧
  stdin_fd (reap pid e s) < 0 ∧
  child_exited (reap pid e s) = 0.
Proof. intros Hf Hp Hw. step_cases; try done; lia. Qed.

Lemma teardown_all_closed (shut : Z → shut_how → shut_res) (s : io_state) :
  all_closed (teardown pid shut s).
Proof. unfold all_closed. step_cases; repeat split; lia. Qed.

Lemma teardown_statuses (shut : Z → shut_how → shut_res) (s : io_state) :
  child_process_status (teardown pid shut s) = child_process_status s ∧
  remote_process_status (teardown pid shut s) = remote_process_status s.
Proof. by step_cases. Qed.

Lemma all_done_wound_down (s : io_state) :
  all_done pid s = true ↔ wound_down pid s.
Proof.
  unfold all_done, wound_down.
  rewrite !andb_true_iff, !orb_true_iff, negb_true_iff, !Z.eqb_eq,
    Z.eqb_neq, !Z.gtb_gt.
  destruct (decide (pid = 0)); intuition lia.
Qed.

Lemma vchan_finished_drained (e : iter_env) (s : io_state) :
  vchan_finished e s = true ↔ vchan_drained e s.
Proof.
  unfold vchan_finished, vchan_drained, buffer_len.
  rewrite !andb_true_iff, !Z.eqb_eq.
  destruct (stdin_buf s); simpl; intuition (try done; lia).
Qed.

End Steps.

(** ** The termination test *)

Section TerminationTest.
Context `{qrexec_h}.
Variables (pid mt ver : Z).

Lemma termination_test_goes_on (e : iter_env) (s : io_state) :
  all_done pid s = false → vchan_finished e s = false →
  termination_test pid e s = Go s.
Proof. intros H1 H2. unfold termination_test. by rewrite H1, H2. Qed.

Lemma termination_test_vchan (e : iter_env) (s : io_state) :
  all_done pid s = false → vchan_finished e s = true →
  termination_test pid e s = Break s.
Proof. intros H1 H2. unfold termination_test. by rewrite H1, H2. Qed.

Lemma termination_test_all_done (e : iter_env) (s : io_state) :
  all_done pid s = true →
  termination_test pid e s =
    if child_process_status s >? -1
    then match send_exit_code (e_send_hdr e) (e_send_status e)
                 (child_process_status s) (io_trace s) with
         | SendDone tr => Break (set_io_trace tr s)
         | SendVchanError op tr => VchanError op (set_io_trace tr s)
         end
    else Break s.
Proof.
  intros H1. unfold termination_test, send_exit_code_in_loop, handle_vchan_error.
  rewrite H1. repeat case_match; done.
Qed.

(** The test lets the loop go on exactly when neither condition holds, and
    leaves the state as it is then. *)
Lemma termination_test_leaves (e : iter_env) (s : io_state) :
  leaves_loop (termination_test pid e s) = true ↔
  wound_down pid s ∨ vchan_drained e s.
Proof.
  rewrite <- all_done_wound_down, <- vchan_finished_drained.
  destruct (all_done pid s) eqn:H1.
  - rewrite termination_test_all_done by done.
    split; [by left|intros _].
    rewrite send_exit_code_cases. by repeat case_match.
  - destruct (vchan_finished e s) eqn:H2.
    + rewrite termination_test_vchan by done. split; [by right|done].
    + rewrite termination_test_goes_on by done. simpl.
      split; [done | by intros [|]].
Qed.

End TerminationTest.

(** C10. At any turn of the loop: when the vchan has no pending data, is
    closed and the staging buffer is empty while no exit code is recorded
    (with a local child: [child_process_status] still -1 and the child not
    reaped in this turn; without one: [remote_process_status] still -1),
    [process_child_io] returns -1, after the teardown has put the closed
    sentinel in the three descriptors. *)
Theorem vchan_closed_before_exit_code `{qrexec_h} (pid mt ver : Z)
    (es1 es2 : list iter_env) (e : iter_env)
    (shut : Z → shut_how → shut_res) (s0 s : io_state) :
  io_loop pid mt ver es1 s0 = Go s →
  vchan_drained e s →
  (pid ≠ 0 → child_process_status s = -1 ∧
             (child_exited s = 0 ∨ e_waitpid_ret e ≤ 0)) →
  (pid = 0 → remote_process_status s = -1) →
  ∃ s', finish pid shut (io_loop pid mt ver (es1 ++ e :: es2) s0) = Return (-1) s'
        ∧ all_closed s'.
Proof.
  intros Hrun Hdrained Hchild Hremote.
  rewrite io_loop_app, Hrun. simpl. unfold loop_iteration.
  set (s1 := reap pid e (deliver_sigusr1 e s)).
  destruct (deliver_sigusr1_fields e s) as (_ & _ & _ & Hc & Hr & Hb & Hx & _).
  destruct (reap_fields pid e (deliver_sigusr1 e s)) as (_ & _ & Hr1 & Hb1 & _).
  fold s1 in Hr1, Hb1.
  assert (vchan_finished e s1 = true) as Hfin.
  { apply vchan_finished_drained. destruct Hdrained as (? & ? & ?).
    repeat split; [done..|]. by rewrite Hb1, Hb. }
  assert (return_value pid s1 = -1 ∧ all_done pid s1 = false) as [Hret Hnot].
  { unfold return_value, all_done.
    destruct (Z.eqb_spec pid 0) as [Hp|Hp]; simpl.
    - rewrite Hr1, Hr, (Hremote Hp). done.
    - destruct (Hchild Hp) as [Hst Hnr].
      destruct (reap_not_reaped pid e (deliver_sigusr1 e s)) as [Hst1 _].
      { rewrite Hx. destruct Hnr; auto. }
      fold s1 in Hst1. rewrite Hst1, Hc, Hst. done. }
  rewrite (termination_test_vchan pid e s1 Hnot Hfin). simpl.
  eexists. split; [|apply teardown_all_closed].
  f_equal. unfold return_value in *.
  destruct (teardown_statuses pid shut s1) as [-> ->]. done.
Qed.

(** ** What each step appends to the trace *)

Ltac solve_adds :=
  first
    [ apply adds_same_trace; reflexivity
    | eexists; split;
      [ simpl; rewrite <- ?app_assoc; reflexivity
      | repeat constructor; simpl; auto ] ].

Lemma adds_ext (Q : event → Prop) (s s1 s2 : io_state) :
  io_trace s2 = io_trace s1 → adds Q s s1 → adds Q s s2.
Proof. intros Heq (n & Hn & Fn). exists n. by rewrite Heq. Qed.

Lemma adds_sys_close (Q : event → Prop) (fd : Z) (s : io_state) :
  Q (EvClose fd) → adds Q s (sys_close fd s).
Proof.
  intros HQ. exists [EvClose fd]. split; [|by constructor].
  unfold sys_close. by repeat case_match.
Qed.

Lemma adds_shutdown_or_close `{qrexec_h} (Q : event → Prop) (pid inh : Z)
    (how : shut_how) (shut : Z → shut_how → shut_res) (fd : Z) (s : io_state) :
  Q (EvShutdown fd how) → Q (EvClose fd) →
  adds Q s (shutdown_or_close pid inh how shut fd s).
Proof.
  intros H1 H2. unfold shutdown_or_close.
  repeat case_match; try by apply adds_sys_close.
  all: try (apply (adds_trans _ _ (emit [EvShutdown fd how] s));
            [by apply adds_emit; constructor | by apply adds_sys_close]).
  all: by apply adds_emit; constructor.
Qed.

(** Peels the updates off the state on the right, last one first. *)
Ltac adds_step :=
  lazymatch goal with
  | |- adds ?Q ?s ?s => apply adds_refl
  | |- adds ?Q ?s (emit ?evs ?s1) =>
      apply (adds_trans Q s s1); [|apply adds_emit; repeat constructor; done]
  | |- adds ?Q ?s (sys_close ?fd ?s1) =>
      apply (adds_trans Q s s1); [|apply adds_sys_close; done]
  | |- adds ?Q ?s (shutdown_or_close ?p ?i ?h ?sh ?fd ?s1) =>
      apply (adds_trans Q s s1); [|apply adds_shutdown_or_close; done]
  | |- adds ?Q ?s (set_io_trace _ _) => fail
  | |- adds ?Q ?s (?setter ?v ?s1) =>
      apply (adds_ext Q s s1); [reflexivity|]
  end.

Ltac adds_auto := repeat adds_step.

Section StepTraces.
Context `{qrexec_h}.
Variables (pid mt ver : Z).

Lemma reap_adds (e : iter_env) (s : io_state) :
  adds is_fd_event s (reap pid e s).
Proof. unfold reap. repeat case_match; adds_auto. Qed.

Lemma reap_sigusr1_adds (e : iter_env) (s : io_state) :
  adds is_fd_event s (reap pid e (deliver_sigusr1 e s)).
Proof.
  eapply adds_trans; [|apply reap_adds].
  unfold deliver_sigusr1. case_match; adds_auto.
Qed.

Lemma teardown_adds (shut : Z → shut_how → shut_res) (s : io_state) :
  adds is_fd_event s (teardown pid shut s).
Proof. unfold teardown. repeat case_match; adds_auto. Qed.

Lemma termination_test_adds (e : iter_env) (s : io_state) :
  adds is_exit_code_send s (state_of (termination_test pid e s)).
Proof.
  unfold termination_test, send_exit_code_in_loop, send_exit_code,
    vchan_error_in_send, handle_vchan_error.
  repeat case_match; simplify_eq; simpl; solve_adds.
Qed.

Lemma single_socket_adds (e : iter_env) (s : io_state) :
  adds is_fd_event s (state_of (single_socket e s)).
Proof. unfold single_socket. repeat case_match; simpl; solve_adds. Qed.

Lemma clear_vchan_event_adds (e : iter_env) (rdset : gset Z) (s : io_state) :
  adds is_local_event s (state_of (clear_vchan_event e rdset s)).
Proof.
  unfold clear_vchan_event, handle_vchan_error.
  repeat case_match; simpl; solve_adds.
Qed.

Lemma dispatch_remote_adds (e : iter_env) (s : io_state) :
  adds is_local_event s (state_of (dispatch_remote pid ver e s)).
Proof.
  unfold dispatch_remote, handle_vchan_error.
  repeat case_match; cbn [state_of]; adds_auto.
Qed.

Lemma dispatch_stdout_adds (e : iter_env) (rdset : gset Z) (s : io_state) :
  adds (is_pump_on rdset) s (state_of (dispatch_stdout mt ver e rdset s)).
Proof.
  unfold dispatch_stdout, handle_vchan_error.
  destruct (stdout_fd s >=? 0); simpl; [|solve_adds].
  case_bool_decide; simpl; [|solve_adds].
  repeat case_match; simpl; solve_adds.
Qed.

Lemma dispatch_stderr_adds (e : iter_env) (rdset : gset Z) (s : io_state) :
  adds (is_pump_on rdset) s (state_of (dispatch_stderr ver e rdset s)).
Proof.
  unfold dispatch_stderr, handle_vchan_error.
  destruct (stderr_fd s >=? 0); simpl; [|solve_adds].
  case_bool_decide; simpl; [|solve_adds].
  repeat case_match; simpl; solve_adds.
Qed.

(** Sequencing: what [f >>> k] appends is what [f] and then [k] append. *)
Lemma bind_adds (Q : event → Prop) (s : io_state) (f : flow) (k : io_state → flow) :
  adds Q s (state_of f) →
  (∀ s1, adds Q s1 (state_of (k s1))) →
  adds Q s (state_of (f >>> k)).
Proof.
  intros Hf Hk. destruct f; simpl in *; try done.
  eapply adds_trans; [done | apply Hk].
Qed.

End StepTraces.

Section VchanClosedAtV3.
#[local] Existing Instance qrexec_h_v3.

Lemma vchan_closed_before_exit_code_witness :
  ∃ s', finish 1234 pipes
          (io_loop 1234 MSG_DATA_STDOUT 3 ([] ++ vchan_closed_iter :: [])
             (exec_start 0)) = Return (-1) s' ∧ all_closed s'.
Proof.
  apply (vchan_closed_before_exit_code 1234 MSG_DATA_STDOUT 3 [] []
           vchan_closed_iter pipes (exec_start 0) (exec_start 0)).
  - reflexivity.
  - by vm_compute.
  - intros _. split; [reflexivity | by left].
  - intros Hpid. by vm_compute in Hpid.
Defined.

End VchanClosedAtV3.

(** ** How a turn of the loop can end *)

Section Outcomes.
Context `{qrexec_h}.
Variables (pid mt ver : Z).

Lemma single_socket_outcome (e : iter_env) (s : io_state) :
  (∃ s', single_socket e s = Go s') ∨ (∃ s', single_socket e s = Aborted s').
Proof. unfold single_socket. repeat case_match; eauto. Qed.

Lemma clear_vchan_event_outcome (e : iter_env) (rdset : gset Z) (s : io_state) :
  (∃ s', clear_vchan_event e rdset s = Go s') ∨
  (∃ s', clear_vchan_event e rdset s = VchanError "wait" s' ∧ e_vchan_wait e < 0).
Proof.
  unfold clear_vchan_event, handle_vchan_error.
  repeat case_match; eauto. right. eexists. split; [done|lia].
Qed.

Lemma dispatch_remote_outcome (e : iter_env) (s : io_state) :
  match dispatch_remote pid ver e s with
  | Go _ => rd_rc (e_remote e) ≠ REMOTE_ERROR
  | VchanError op _ => op = "read"%string ∧ rd_rc (e_remote e) = REMOTE_ERROR
  | Return v s' =>
      pid = 0 ∧ rd_rc (e_remote e) = REMOTE_EXITED ∧
      v = remote_process_status s' ∧
      remote_process_status s' =
        default (remote_process_status s) (rd_status (e_remote e))
  | _ => False
  end.
Proof.
  unfold dispatch_remote, handle_vchan_error.
  destruct (rd_rc (e_remote e)) eqn:Hrc; try done.
  destruct (Z.eqb_spec pid 0); [|done].
  repeat split; try done.
  norm_fields. by destruct (rd_status (e_remote e)).
Qed.

Lemma dispatch_stdout_outcome (e : iter_env) (rdset : gset Z) (s : io_state) :
  (∃ s', dispatch_stdout mt ver e rdset s = Go s') ∨
  (∃ s', dispatch_stdout mt ver e rdset s = VchanError "send" s').
Proof.
  unfold dispatch_stdout, handle_vchan_error. repeat case_match; eauto.
Qed.

Lemma dispatch_stderr_outcome (e : iter_env) (rdset : gset Z) (s : io_state) :
  (∃ s', dispatch_stderr ver e rdset s = Go s') ∨
  (∃ s', dispatch_stderr ver e rdset s = VchanError "send" s').
Proof.
  unfold dispatch_stderr, handle_vchan_error. repeat case_match; eauto.
Qed.

(** After the readiness wait: a [break] comes from a failed [pselect] only,
    a [return] from the exit of the remote when there is no local child. *)
Lemma wait_and_dispatch_outcome (e : iter_env) (s : io_state) :
  match wait_and_dispatch pid mt ver e s with
  | Break _ =>
      e_pselect e (select_timeout e (deliver_sigchld e s)) = PselectError
  | Continue _ =>
      e_pselect e (select_timeout e (deliver_sigchld e s)) = PselectEINTR
  | Return v s' =>
      pid = 0 ∧ rd_rc (e_remote e) = REMOTE_EXITED ∧ v = remote_process_status s'
  | _ => True
  end.
Proof.
  unfold wait_and_dispatch.
  destruct (e_pselect e (select_timeout e (deliver_sigchld e s))) as [rd wr| |];
    [|done..].
  set (rdset := build_rdset e s ∩ rd).
  destruct (clear_vchan_event_outcome e rdset (deliver_sigchld e s))
    as [[s1 ->]|[s1 [-> _]]]; [|done]. simpl.
  pose proof (dispatch_remote_outcome e s1) as Hr.
  destruct (dispatch_remote pid ver e s1) as [s2| | |v s2| |] eqn:Hd;
    try done; simpl; [|by destruct Hr as (? & ? & ? & _)].
  destruct (dispatch_stdout_outcome e rdset s2) as [[s3 ->]|[s3 ->]]; [|done].
  simpl.
  by destruct (dispatch_stderr_outcome e rdset s3) as [[s4 ->]|[s4 ->]].
Qed.

End Outcomes.

(** X1. The termination test of lines 221-236 leaves the loop exactly when
    the session is wound down (the local child, if any, has an exit code;
    without a local child the remote has reported its exit; the three
    descriptors are closed) or the vchan is drained (no pending data, closed,
    staging buffer empty).  When only the second holds it breaks without
    touching the state, and so without sending an exit code; when neither
    holds the loop goes on from the same state. *)
Theorem termination_test_exits_iff `{qrexec_h} (pid : Z) (e : iter_env)
    (s : io_state) :
  (leaves_loop (termination_test pid e s) = true ↔
     wound_down pid s ∨ vchan_drained e s) ∧
  (¬ wound_down pid s ∧ vchan_drained e s → termination_test pid e s = Break s) ∧
  (¬ wound_down pid s ∧ ¬ vchan_drained e s → termination_test pid e s = Go s).
Proof.
  split; [apply termination_test_leaves|].
  rewrite <- all_done_wound_down, <- vchan_finished_drained.
  split; intros [H1 H2].
  - apply termination_test_vchan; [by destruct (all_done pid s) | done].
  - apply termination_test_goes_on;
      [by destruct (all_done pid s) | by destruct (vchan_finished e s)].
Qed.

(** X2. The ways out of the loop. A turn that ends in [break] found the
    session wound down or the vchan drained at its termination test, or had
    [pselect] fail with an error other than EINTR; a turn that ends in
    [return] ran without a local child, had [handle_remote_data] report the
    exit of the remote, and returns the remote's status. *)
Theorem loop_exit_causes `{qrexec_h} (pid mt ver : Z) (e : iter_env)
    (s : io_state) :
  let s1 := reap pid e (deliver_sigusr1 e s) in
  match loop_iteration pid mt ver e s with
  | Break _ =>
      wound_down pid s1 ∨ vchan_drained e s1 ∨
      ∃ timeout, e_pselect e timeout = PselectError
  | Return v s' =>
      pid = 0 ∧ rd_rc (e_remote e) = REMOTE_EXITED ∧ v = remote_process_status s'
  | _ => True
  end.
Proof.
  intros s1. unfold loop_iteration. fold s1.
  pose proof (proj1 (termination_test_leaves pid e s1)) as Hleave.
  destruct (termination_test pid e s1) as [s2| |s2|v s2| |] eqn:Ht; simpl;
    try done.
  - destruct (single_socket_outcome e s2) as [[s3 ->]|[s3 ->]]; [|done]. simpl.
    pose proof (wait_and_dispatch_outcome pid mt ver e s3) as Hw.
    destruct (wait_and_dispatch pid mt ver e s3); try done.
    right; right. eauto.
  - destruct Hleave as [|]; auto.
  - exfalso. revert Ht.
    unfold termination_test, send_exit_code_in_loop, handle_vchan_error.
    by repeat case_match.
Qed.

(** ** Reads are gated on the space of the ring *)

Section Gating.
Context `{qrexec_h}.
Variables (pid mt ver : Z).

Lemma build_rdset_members (e : iter_env) (s : io_state) (fd : Z) :
  fd ∈ build_rdset e s ↔
  fd = e_vchan_fd e ∨
  (sizeof_msg_header < e_buffer_space e ∧
   ((0 ≤ stdout_fd s ∧ fd = stdout_fd s) ∨ (0 ≤ stderr_fd s ∧ fd = stderr_fd s))).
Proof.
  unfold build_rdset.
  destruct (Z.gtb_spec (e_buffer_space e) sizeof_msg_header);
    destruct (Z.geb_spec (stdout_fd s) 0);
    destruct (Z.geb_spec (stderr_fd s) 0);
    set_unfold; intuition lia.
Qed.

Lemma build_wrset_members (s : io_state) (fd : Z) :
  fd ∈ build_wrset s ↔ fd = stdin_fd s ∧ -1 < stdin_fd s ∧ stdin_buf s ≠ [].
Proof.
  unfold build_wrset, buffer_len.
  destruct (Z.gtb_spec (stdin_fd s) (-1)); destruct (stdin_buf s); simpl;
    set_unfold; intuition (try done; lia).
Qed.

Lemma wait_and_dispatch_adds (e : iter_env) (s : io_state) :
  adds (λ ev, is_local_event ev ∨ is_pump_on (build_rdset e s) ev) s
    (state_of (wait_and_dispatch pid mt ver e s)).
Proof.
  unfold wait_and_dispatch.
  assert (adds (λ ev, is_local_event ev ∨ is_pump_on (build_rdset e s) ev) s
            (deliver_sigchld e s)) as Hsig.
  { unfold deliver_sigchld. case_match; adds_auto. }
  destruct (e_pselect e (select_timeout e (deliver_sigchld e s))) as [rd wr| |];
    [|done..].
  repeat apply bind_adds.
  - eapply adds_trans; [exact Hsig|].
    eapply adds_weaken; [|apply clear_vchan_event_adds]. auto.
  - intros s1. eapply adds_weaken; [|apply dispatch_remote_adds]. auto.
  - intros s1. eapply adds_weaken; [|apply dispatch_stdout_adds].
    intros [] Hev; simpl in *; try done. right.
    by apply elem_of_intersection in Hev as [? _].
  - intros s1. eapply adds_weaken; [|apply dispatch_stderr_adds].
    intros [] Hev; simpl in *; try done. right.
    by apply elem_of_intersection in Hev as [? _].
Qed.

End Gating.

(** X3. In every turn of the loop the descriptors watched for reading,
    other than the event descriptor of the vchan, are [stdout_fd] and
    [stderr_fd], and they are watched only when the free space of the vchan
    exceeds the size of a message header; [stdin_fd] is watched for writing
    exactly when it is open and the staging buffer is not empty. As a
    consequence every call of [handle_input] in a turn, on a descriptor other
    than the vchan's, is made in a turn whose buffer space exceeded the header
    size. *)
Theorem reads_gated_on_buffer_space `{qrexec_h} (pid mt ver : Z) (e : iter_env)
    (s : io_state) :
  (∀ fd, fd ∈ build_rdset e s → fd ≠ e_vchan_fd e →
     sizeof_msg_header < e_buffer_space e ∧
     (fd = stdout_fd s ∨ fd = stderr_fd s)) ∧
  (∀ fd, fd ∈ build_wrset s ↔
     fd = stdin_fd s ∧ -1 < stdin_fd s ∧ stdin_buf s ≠ []) ∧
  (∀ fd type version,
     EvHandleInput fd type version ∈
       new_events s (state_of (loop_iteration pid mt ver e s)) →
     fd ≠ e_vchan_fd e → sizeof_msg_header < e_buffer_space e).
Proof.
  split; [|split].
  - intros fd Hin Hne. apply build_rdset_members in Hin. intuition.
  - apply build_wrset_members.
  - intros fd type version Hin Hne.
    set (Q := λ ev, match ev with
                    | EvHandleInput fd _ _ =>
                        fd ≠ e_vchan_fd e → sizeof_msg_header < e_buffer_space e
                    | _ => True
                    end).
    assert (adds Q s (state_of (loop_iteration pid mt ver e s))) as Hadds.
    { unfold loop_iteration. repeat apply bind_adds.
      - eapply adds_trans.
        + eapply adds_weaken; [|apply reap_sigusr1_adds]. by intros [].
        + eapply adds_weaken; [|apply termination_test_adds]. by intros [].
      - intros s1. eapply adds_weaken; [|apply single_socket_adds]. by intros [].
      - intros s1. eapply adds_weaken; [|apply wait_and_dispatch_adds].
        intros [] [Hl|Hp]; simpl in *; try done.
        intros Hv. apply build_rdset_members in Hp. intuition. }
    apply adds_new_events in Hadds as [_ HQ].
    rewrite Forall_forall in HQ. by apply (HQ _ Hin).
Qed.

(** ** The EXIT_CODE message comes once and last *)

Lemma outbound_app (a b : trace) : outbound (a ++ b) = outbound a ++ outbound b.
Proof. apply filter_app. Qed.

Lemma outbound_fd_events (new : trace) :
  Forall is_fd_event new → outbound new = [].
Proof.
  induction 1 as [|ev new Hev _ IH]; [done|].
  unfold outbound in *. by destruct ev; simpl in *; try done.
Qed.

Lemma outbound_no_send (new : trace) :
  Forall no_send new → Forall is_pump (outbound new).
Proof.
  induction 1 as [|ev new Hev _ IH]; [constructor|].
  unfold outbound in *.
  destruct ev; simpl in *; destruct Hev as [?|?]; try done.
  by constructor.
Qed.

Lemma outbound_exit_code_message `{qrexec_h} (status : Z) (tail : trace) :
  exit_code_message status tail → outbound tail = tail.
Proof. by intros [-> | ->]. Qed.

Section Shape.
Context `{qrexec_h}.
Variables (pid mt ver : Z).

Local Abbreviation run_shape := (run_shape pid).

Lemma run_shape_no_send (s : io_state) (f : flow) :
  adds no_send s (state_of f) → run_shape s f.
Proof.
  intros (new & Hnew & Hns). exists new, (outbound new), [].
  rewrite app_nil_r. repeat split; [done| |by left].
  by apply outbound_no_send.
Qed.

Lemma fd_event_no_send (ev : event) : is_fd_event ev → no_send ev.
Proof. destruct ev; simpl; try done; by left. Qed.

Lemma termination_test_shape (e : iter_env) (s0 s : io_state) :
  adds is_fd_event s0 s →
  run_shape s0 (termination_test pid e s) ∧
  ∀ s', termination_test pid e s = Go s' → s' = s.
Proof.
  intros Hfd. destruct (all_done pid s) eqn:Hdone.
  - rewrite termination_test_all_done by done.
    destruct (child_process_status s >? -1) eqn:Hst.
    + apply Z.gtb_gt in Hst. apply all_done_wound_down in Hdone.
      destruct Hfd as (fdev & Hfdev & Hfds).
      rewrite send_exit_code_cases.
      split; [|by repeat case_match].
      destruct (e_send_hdr e <? 0); [|destruct (e_send_status e <? 0)];
        (eexists (fdev ++ _), [], _;
         split; [cbn [state_of]; fields; rewrite Hfdev, <- ?app_assoc; reflexivity|];
         split; [rewrite outbound_app, (outbound_fd_events fdev) by done;
                 reflexivity|];
         split; [apply Forall_nil_2|]; right;
         unfold exit_code_message, wound_down in *; cbn [state_of leaves_loop];
         fields; repeat split; auto; lia).
    + split; [|done]. apply run_shape_no_send.
      by eapply adds_weaken; [apply fd_event_no_send|].
  - destruct (vchan_finished e s) eqn:Hfin.
    + rewrite termination_test_vchan by done. split; [|done].
      apply run_shape_no_send.
      by eapply adds_weaken; [apply fd_event_no_send|].
    + rewrite termination_test_goes_on by done. split; [|by intros ? [= <-]].
      apply run_shape_no_send.
      by eapply adds_weaken; [apply fd_event_no_send|].
Qed.

Lemma rest_of_turn_adds (e : iter_env) (s : io_state) :
  adds no_send s (state_of (single_socket e s >>> wait_and_dispatch pid mt ver e)).
Proof.
  apply bind_adds.
  - eapply adds_weaken; [apply fd_event_no_send | apply single_socket_adds].
  - intros s1. eapply adds_weaken; [|apply wait_and_dispatch_adds].
    intros [] [Hl|Hp]; simpl in *; try done; try (by left). by right.
Qed.

Lemma loop_iteration_shape (e : iter_env) (s : io_state) :
  run_shape s (loop_iteration pid mt ver e s).
Proof.
  unfold loop_iteration.
  destruct (termination_test_shape e s (reap pid e (deliver_sigusr1 e s)))
    as [Hshape Hgo]; [apply reap_sigusr1_adds|].
  destruct (termination_test pid e (reap pid e (deliver_sigusr1 e s)))
    as [s1| | | | |] eqn:Ht; try done.
  rewrite (Hgo s1 eq_refl). simpl.
  apply run_shape_no_send. eapply adds_trans; [|apply rest_of_turn_adds].
  eapply adds_weaken; [apply fd_event_no_send | apply reap_sigusr1_adds].
Qed.

(** A run that goes on has sent nothing of its own so far. *)
Lemma run_shape_goes_on (s : io_state) (f : flow) :
  run_shape s f → leaves_loop f = false →
  ∃ new, io_trace (state_of f) = io_trace s ++ new ∧ Forall is_pump (outbound new).
Proof.
  intros (new & pumps & tail & Hnew & Hout & Hp & [->|(_ & _ & _ & Hl)]) Hgo;
    [|congruence].
  exists new. rewrite Hout, app_nil_r. done.
Qed.

Lemma run_shape_trans (s s' : io_state) (f : flow) :
  (∃ new, io_trace s' = io_trace s ++ new ∧ Forall is_pump (outbound new)) →
  run_shape s' f → run_shape s f.
Proof.
  intros (n1 & Hn1 & Hp1) (n2 & pumps & tail & Hn2 & Hout & Hp & Htail).
  exists (n1 ++ n2), (outbound n1 ++ pumps), tail.
  rewrite Hn2, Hn1, outbound_app, Hout, <- !app_assoc.
  repeat split; [by apply Forall_app | done].
Qed.

Lemma io_loop_shape (es : list iter_env) (s : io_state) :
  run_shape s (io_loop pid mt ver es s).
Proof.
  revert s. induction es as [|e es IH]; intros s; simpl.
  - apply run_shape_no_send, adds_refl.
  - pose proof (loop_iteration_shape e s) as Hs.
    destruct (loop_iteration pid mt ver e s) as [s'|s'| | | |] eqn:Hit; try done.
    + eapply run_shape_trans; [|apply IH]. by apply (run_shape_goes_on _ _ Hs).
    + eapply run_shape_trans; [|apply IH]. by apply (run_shape_goes_on _ _ Hs).
Qed.

End Shape.

Section WholeFunction.
Context `{qrexec_h}.
Variables (pid mt ver : Z).

Lemma prologue_outcome (other : option (gset Z)) (s : io_state) :
  (∃ s', prologue other s = Go s') ∨ (∃ s', prologue other s = Aborted s').
Proof. unfold prologue. repeat case_match; simpl; eauto. Qed.

Lemma prologue_adds (other : option (gset Z)) (s : io_state) :
  adds is_fd_event s (state_of (prologue other s)).
Proof.
  unfold prologue.
  repeat (cbn [flow_bind state_of]; case_match);
    cbn [flow_bind state_of]; adds_auto.
Qed.

Lemma finish_shape (shut : Z → shut_how → shut_res) (s : io_state) (f : flow) :
  run_shape pid s f → run_shape pid s (finish pid shut f).
Proof.
  intros Hs. destruct f as [| |s'| | |]; try done. simpl.
  destruct Hs as (new & pumps & tail & Hnew & Hout & Hp & Htail).
  destruct (teardown_adds pid shut s') as (td & Htd & Hfd).
  destruct (teardown_statuses pid shut s') as [Hc Hr].
  exists (new ++ td), pumps, tail. cbn [state_of] in *.
  split; [by rewrite Htd, Hnew, app_assoc|].
  split; [by rewrite outbound_app, (outbound_fd_events td Hfd), app_nil_r|].
  split; [done|].
  destruct Htail as [->|(Hm & Hw & Hst & _)]; [by left|right].
  rewrite Hc.
  destruct (teardown_all_closed pid shut s') as (? & ? & ?).
  destruct Hw as (_ & Hw & _).
  unfold wound_down. rewrite Hc, Hr. by repeat split.
Qed.

Lemma process_child_io_shape (fd0 fd1 fd2 : Z) (buf : list Z)
    (exited requested : Z) (tr : trace) (w : io_env) :
  let f := process_child_io pid mt fd0 fd1 fd2 ver buf exited requested tr w in
  ∃ new pumps tail,
    io_trace (state_of f) = tr ++ new ∧
    outbound new = pumps ++ tail ∧ Forall is_pump pumps ∧
    (tail = [] ∨
     (exit_code_message (child_process_status (state_of f)) tail ∧
      wound_down pid (state_of f) ∧ -1 < child_process_status (state_of f) ∧
      leaves_loop f = true)).
Proof.
  cbv zeta. unfold process_child_io.
  set (s0 := initial_state pid fd0 fd1 fd2 buf exited requested tr).
  change tr with (io_trace s0).
  apply (finish_shape (io_shutdown w) s0).
  pose proof (prologue_adds (io_other_fds w) s0) as Hadds.
  destruct (prologue_outcome (io_other_fds w) s0) as [[s1 Hp]|[s1 Hp]];
    rewrite Hp in *; cbn [flow_bind state_of] in *.
  - eapply run_shape_trans; [|apply io_loop_shape].
    destruct Hadds as (new & Hnew & Hfd). exists new. split; [done|].
    rewrite (outbound_fd_events new Hfd). constructor.
  - apply run_shape_no_send.
    by eapply adds_weaken; [apply fd_event_no_send|].
Qed.

End WholeFunction.

(** ** Only the reaper writes the exit code of the child *)

Section ChildStatus.
Context `{qrexec_h}.
Variables (pid mt ver : Z).

Lemma bind_keeps {A : Type} (g : io_state → A) (s : io_state) (f : flow)
    (k : io_state → flow) :
  g (state_of f) = g s →
  (∀ s1, g (state_of (k s1)) = g s1) →
  g (state_of (f >>> k)) = g s.
Proof. intros Hf Hk. destruct f; simpl in *; try done. by rewrite Hk. Qed.

Lemma termination_test_child_status (e : iter_env) (s : io_state) :
  child_process_status (state_of (termination_test pid e s)) =
  child_process_status s.
Proof.
  unfold termination_test, send_exit_code_in_loop, handle_vchan_error.
  by repeat case_match.
Qed.

Lemma single_socket_child_status (e : iter_env) (s : io_state) :
  child_process_status (state_of (single_socket e s)) = child_process_status s.
Proof. unfold single_socket. by repeat case_match. Qed.

Lemma clear_vchan_event_child_status (e : iter_env) (rdset : gset Z)
    (s : io_state) :
  child_process_status (state_of (clear_vchan_event e rdset s)) =
  child_process_status s.
Proof. unfold clear_vchan_event, handle_vchan_error. by repeat case_match. Qed.

Lemma dispatch_remote_child_status (e : iter_env) (s : io_state) :
  child_process_status (state_of (dispatch_remote pid ver e s)) =
  child_process_status s.
Proof.
  unfold dispatch_remote, handle_vchan_error.
  repeat case_match; cbn [state_of]; by norm_fields.
Qed.

Lemma dispatch_stdout_child_status (e : iter_env) (rdset : gset Z)
    (s : io_state) :
  child_process_status (state_of (dispatch_stdout mt ver e rdset s)) =
  child_process_status s.
Proof. unfold dispatch_stdout, handle_vchan_error. by repeat case_match. Qed.

Lemma dispatch_stderr_child_status (e : iter_env) (rdset : gset Z)
    (s : io_state) :
  child_process_status (state_of (dispatch_stderr ver e rdset s)) =
  child_process_status s.
Proof. unfold dispatch_stderr, handle_vchan_error. by repeat case_match. Qed.

Lemma wait_and_dispatch_child_status (e : iter_env) (s : io_state) :
  child_process_status (state_of (wait_and_dispatch pid mt ver e s)) =
  child_process_status s.
Proof.
  unfold wait_and_dispatch.
  assert (child_process_status (deliver_sigchld e s) = child_process_status s)
    as Hsig by (unfold deliver_sigchld; by case_match).
  destruct (e_pselect e (select_timeout e (deliver_sigchld e s))); [|done..].
  rewrite <- Hsig.
  repeat apply (bind_keeps child_process_status); intros.
  - apply clear_vchan_event_child_status.
  - apply dispatch_remote_child_status.
  - apply dispatch_stdout_child_status.
  - apply dispatch_stderr_child_status.
Qed.

Lemma loop_iteration_child_status (e : iter_env) (s : io_state) :
  child_process_status (state_of (loop_iteration pid mt ver e s)) =
  child_process_status (reap pid e (deliver_sigusr1 e s)).
Proof.
  unfold loop_iteration.
  repeat apply (bind_keeps child_process_status); intros.
  - apply termination_test_child_status.
  - apply single_socket_child_status.
  - apply wait_and_dispatch_child_status.
Qed.

Lemma reap_status_recorded (es : list iter_env) (e : iter_env) (s : io_state) :
  e ∈ es →
  status_recorded pid es (child_process_status s) →
  status_recorded pid es (child_process_status (reap pid e (deliver_sigusr1 e s))).
Proof.
  intros He Hs.
  destruct (deliver_sigusr1_fields e s) as (_ & _ & _ & Hc & _ & _ & Hx & _).
  set (s1 := deliver_sigusr1 e s) in *.
  destruct (decide (child_exited s1 ≠ 0 ∧ 0 < pid ∧ 0 < e_waitpid_ret e))
    as [(Hf & Hp & Hw)|Hn].
  - destruct (reap_reaped pid e s1 Hf Hp Hw) as (-> & _).
    right. by exists e.
  - destruct (reap_not_reaped pid e s1) as [-> _]; [|by rewrite Hc].
    destruct (decide (child_exited s1 = 0)); [by left|].
    destruct (decide (pid ≤ 0)); [by right; left|].
    right; right. apply Znot_gt_le. intros Hgt. apply Hn. repeat split; lia.
Qed.

Lemma io_loop_status_recorded (es : list iter_env) (s : io_state) :
  status_recorded pid es (child_process_status s) →
  status_recorded pid es (child_process_status (state_of (io_loop pid mt ver es s))).
Proof.
  apply (io_loop_invariant pid mt ver
           (λ s, status_recorded pid es (child_process_status s))).
  intros e s' He Hs'. rewrite loop_iteration_child_status.
  by apply reap_status_recorded.
Qed.

Lemma prologue_child_status (other : option (gset Z)) (s : io_state) :
  child_process_status (state_of (prologue other s)) = child_process_status s.
Proof.
  unfold prologue.
  repeat (cbn [flow_bind state_of]; case_match); by cbn [flow_bind state_of].
Qed.

Lemma finish_child_status (shut : Z → shut_how → shut_res) (f : flow) :
  child_process_status (state_of (finish pid shut f)) =
  child_process_status (state_of f).
Proof.
  destruct f; try done. simpl.
  by destruct (teardown_statuses pid shut s) as [-> _].
Qed.

Lemma process_child_io_status_recorded (fd0 fd1 fd2 : Z) (buf : list Z)
    (exited requested : Z) (tr : trace) (w : io_env) :
  status_recorded pid (io_iters w)
    (child_process_status
       (state_of (process_child_io pid mt fd0 fd1 fd2 ver buf exited requested
                    tr w))).
Proof.
  unfold process_child_io. rewrite finish_child_status.
  set (s0 := initial_state pid fd0 fd1 fd2 buf exited requested tr).
  pose proof (prologue_child_status (io_other_fds w) s0) as Hp.
  destruct (prologue_outcome (io_other_fds w) s0) as [[s1 Hs]|[s1 Hs]];
    rewrite Hs in *; cbn [flow_bind state_of] in *.
  - apply io_loop_status_recorded. rewrite Hp. by left.
  - rewrite Hp. by left.
Qed.

(** Without a local child nothing is returned from inside the loop but the
    status of the remote; with one, nothing is. *)
Lemma io_loop_return (es : list iter_env) (s : io_state) (v : Z) (s' : io_state) :
  io_loop pid mt ver es s = Return v s' →
  pid = 0 ∧ v = remote_process_status s'.
Proof.
  revert s. induction es as [|e es IH]; intros s; simpl; [done|].
  destruct (loop_iteration pid mt ver e s) as [s1|s1| |v1 s1| |] eqn:Hit;
    try done; try apply IH.
  intros [= -> ->]. revert Hit. unfold loop_iteration.
  destruct (termination_test pid e (reap pid e (deliver_sigusr1 e s)))
    as [s2| | |v2 s2| |] eqn:Ht; simpl; try done.
  - destruct (single_socket_outcome e s2) as [[s3 ->]|[s3 ->]]; [|done]. simpl.
    intros Hw. pose proof (wait_and_dispatch_outcome pid mt ver e s3) as Ho.
    rewrite Hw in Ho. by destruct Ho as (? & _ & ?).
  - exfalso. revert Ht.
    unfold termination_test, send_exit_code_in_loop, handle_vchan_error.
    by repeat case_match.
Qed.

Lemma process_child_io_return (fd0 fd1 fd2 : Z) (buf : list Z)
    (exited requested : Z) (tr : trace) (w : io_env) (v : Z) (s' : io_state) :
  process_child_io pid mt fd0 fd1 fd2 ver buf exited requested tr w = Return v s' →
  v = return_value pid s'.
Proof.
  unfold process_child_io.
  set (s0 := initial_state pid fd0 fd1 fd2 buf exited requested tr).
  destruct (prologue_outcome (io_other_fds w) s0) as [[s1 ->]|[s1 ->]];
    [|done]. simpl.
  destruct (io_loop pid mt ver (io_iters w) s1) as [| |s2|v2 s2| |] eqn:Hl;
    simpl; try done.
  - by intros [= <- <-].
  - intros [= <- <-]. apply io_loop_return in Hl as [-> ->]. done.
Qed.

End ChildStatus.

(** X4. Whatever the environment does, the outbound traffic that
    [process_child_io] adds consists of calls of the local-to-remote pump
    followed by at most one EXIT_CODE message (its header alone when the
    second send was not reached), and nothing goes out after that message.
    The message carries the recorded [child_process_status], and it is sent
    only with the session wound down: the three descriptors closed and the
    status above -1. *)
Theorem exit_code_once_and_last `{qrexec_h} (pid mt fd0 fd1 fd2 ver : Z)
    (buf : list Z) (exited requested : Z) (tr : trace) (w : io_env) :
  let f := process_child_io pid mt fd0 fd1 fd2 ver buf exited requested tr w in
  ∃ new pumps tail,
    io_trace (state_of f) = tr ++ new ∧
    outbound new = pumps ++ tail ∧ Forall is_pump pumps ∧
    (tail = [] ∨
     (exit_code_message (child_process_status (state_of f)) tail ∧
      all_closed (state_of f) ∧ -1 < child_process_status (state_of f))).
Proof.
  intros f.
  destruct (process_child_io_shape pid mt ver fd0 fd1 fd2 buf exited requested
              tr w) as (new & pumps & tail & Hnew & Hout & Hp & Htail).
  exists new, pumps, tail. repeat split; [done..|].
  destruct Htail as [->|(Hm & (_ & _ & Hc) & Hst & _)]; [by left|right].
  split; [done|]. split; [exact Hc | done].
Qed.

(** X5. With a local child ([child_process_pid] above 0): every status
    that [process_child_io] sends in an EXIT_CODE message is the translation
    of a wait status that [waitpid] reported in that run, with a positive
    result, and is the status the function has recorded at its end; and the
    value the function returns is -1 or such a translation. *)
Theorem sent_status_is_reaped_status `{qrexec_h} (pid mt fd0 fd1 fd2 ver : Z)
    (buf : list Z) (exited requested : Z) (tr : trace) (w : io_env) :
  0 < pid →
  let f := process_child_io pid mt fd0 fd1 fd2 ver buf exited requested tr w in
  (∀ v, EvSendStatus v ∈ drop (length tr) (io_trace (state_of f)) →
     v = child_process_status (state_of f) ∧
     ∃ e, e ∈ io_iters w ∧ 0 < e_waitpid_ret e ∧
          v = wait_status_to_exit_code (e_waitpid_status e)) ∧
  (∀ v s', f = Return v s' →
     v = -1 ∨
     ∃ e, e ∈ io_iters w ∧ 0 < e_waitpid_ret e ∧
          v = wait_status_to_exit_code (e_waitpid_status e)).
Proof.
  intros Hpid f.
  pose proof (process_child_io_status_recorded pid mt ver fd0 fd1 fd2 buf
                exited requested tr w) as Hrec.
  fold f in Hrec.
  assert (∀ c, status_recorded pid (io_iters w) c →
            c = -1 ∨ ∃ e, e ∈ io_iters w ∧ 0 < e_waitpid_ret e ∧
                          c = wait_status_to_exit_code (e_waitpid_status e))
    as Hcases.
  { intros c [->|(e & He & _ & Hw & ->)].
    - left. by destruct (Z.gtb_spec pid 0); [|lia].
    - right. by exists e. }
  split.
  - intros v Hin.
    destruct (process_child_io_shape pid mt ver fd0 fd1 fd2 buf exited requested
                tr w) as (new & pumps & tail & Hnew & Hout & Hp & Htail).
    fold f in Hnew, Htail. rewrite Hnew, drop_app_length in Hin.
    assert (EvSendStatus v ∈ outbound new) as Hin'.
    { unfold outbound. by apply list_elem_of_filter. }
    rewrite Hout in Hin'. apply elem_of_app in Hin' as [Hin'|Hin'].
    { rewrite Forall_forall in Hp. by apply Hp in Hin'. }
    destruct Htail as [->|([->| ->] & _ & Hst & _)].
    + by apply elem_of_nil in Hin'.
    + apply list_elem_of_singleton in Hin'. done.
    + apply elem_of_cons in Hin' as [Heq|Hin']; [done|].
      apply list_elem_of_singleton in Hin'. injection Hin' as ->.
      split; [done|].
      destruct (Hcases _ Hrec) as [Hm|]; [lia|done].
  - intros v s' Hret.
    apply process_child_io_return in Hret as Hv.
    unfold return_value in Hv. destruct (Z.eqb_spec pid 0); [lia|].
    subst v. rewrite Hret in Hrec. by apply Hcases.
Qed.

Section ExitCodeAtV3.
#[local] Existing Instance qrexec_h_v3.

Lemma sent_status_is_reaped_status_witness :
  0 < 1234 ∧
  ∀ v s',
    process_child_io 1234 MSG_DATA_STDOUT 4 5 6 3 [] 0 0 [] ends_at_once =
      Return v s' →
    v = -1 ∨
    ∃ e, e ∈ io_iters ends_at_once ∧ 0 < e_waitpid_ret e ∧
         v = wait_status_to_exit_code (e_waitpid_status e).
Proof.
  split; [lia|].
  apply (sent_status_is_reaped_status 1234 MSG_DATA_STDOUT 4 5 6 3 [] 0 0 []
           ends_at_once).
  lia.
Defined.

End ExitCodeAtV3.

(** ** The descriptor table *)

Lemma lowest_free_from_spec (fuel : nat) (used : gset Z) (n : Z) :
  (size (filter (λ x, (n ≤ x)%Z) used) ≤ fuel)%nat →
  (lowest_free_from fuel used n ∉ used) ∧ n ≤ lowest_free_from fuel used n.
Proof.
  revert n. induction fuel as [|k IH]; intros n Hsize; simpl.
  - split; [|done].
    apply Nat.le_0_r, size_empty_iff in Hsize.
    by apply (filter_empty_not_elem_of (λ x, n ≤ x) used n Hsize).
  - destruct (decide (n ∈ used)) as [Hin|Hin]; [|done].
    destruct (IH (n + 1)) as [Hfresh Hle]; [|split; [done|lia]].
    assert (filter (λ x, n ≤ x) used =
              {[n]} ∪ filter (λ x, n + 1 ≤ x) used) as Heq.
    { apply set_eq. intros x.
      rewrite elem_of_union, !elem_of_filter, elem_of_singleton.
      split; [intros [Hx ?]|intros [->|[Hx ?]]]; try (split; [lia|done]).
      destruct (decide (x = n)); [by left|right]. split; [lia|done]. }
    rewrite Heq, size_union, size_singleton in Hsize; [lia|].
    apply disjoint_singleton_l. rewrite elem_of_filter. lia.
Qed.

Lemma lowest_free_spec (used : gset Z) (n : Z) :
  (lowest_free used n ∉ used) ∧ n ≤ lowest_free used n.
Proof.
  apply lowest_free_from_spec, subseteq_size.
  intros x Hx. by apply elem_of_filter in Hx as [_ ?].
Qed.

(** A descriptor that [fcntl] hands out is new. *)
Lemma fcntl_dupfd_spec (open : gset Z) (other : option (gset Z)) (fd min : Z) :
  0 ≤ min →
  fcntl_dupfd open other fd min = -1 ∨
  (min ≤ fcntl_dupfd open other fd min ∧ fcntl_dupfd open other fd min ∉ open).
Proof.
  intros Hmin. unfold fcntl_dupfd.
  destruct other as [o|]; [|by left].
  destruct (decide (fd ∈ open)); [|by left].
  right. destruct (lowest_free_spec (open ∪ o) min). set_solver.
Qed.

Section Table.
Context `{qrexec_h}.
Variables (pid mt ver : Z).

Lemma sys_close_table (fd : Z) (s : io_state) :
  fd_tracked fd s →
  bad_closes (sys_close fd s) = bad_closes s ∧
  open_fds (sys_close fd s) = open_fds s ∖ {[fd]}.
Proof.
  intros Ht. unfold sys_close. fields.
  destruct (decide (fd ∈ open_fds s)) as [Hin|Hin]; [done|].
  destruct Ht as [Hneg|]; [|done].
  destruct (Z.leb_spec 0 fd); [lia|]. fields. split; [done|]. set_solver.
Qed.

Lemma shutdown_or_close_table (inh : Z) (how : shut_how)
    (shut : Z → shut_how → shut_res) (fd : Z) (s : io_state) :
  fd_tracked fd s →
  bad_closes (shutdown_or_close pid inh how shut fd s) = bad_closes s ∧
  (open_fds (shutdown_or_close pid inh how shut fd s) = open_fds s ∨
   open_fds (shutdown_or_close pid inh how shut fd s) = open_fds s ∖ {[fd]}).
Proof.
  intros Ht. unfold shutdown_or_close.
  repeat case_match; fields; auto;
    destruct (sys_close_table fd (emit [EvShutdown fd how] s) Ht) as [-> ->]
    || destruct (sys_close_table fd s Ht) as [-> ->]; auto.
Qed.

(** Giving up the descriptor of a variable, closed or not, keeps the
    discipline. *)
Lemma release_stdin (s s' : io_state) :
  fds_disciplined s →
  stdout_fd s' = stdout_fd s → stderr_fd s' = stderr_fd s →
  bad_closes s' = bad_closes s →
  open_fds s' = open_fds s ∨ open_fds s' = open_fds s ∖ {[stdin_fd s]} →
  fds_disciplined (set_stdin_fd (-1) s').
Proof.
  intros (T0 & T1 & T2 & D0 & D1 & B) E1 E2 EB EO.
  unfold fds_disciplined, fd_tracked in *. fields. rewrite E1, E2, EB.
  split; [left; lia|]. split; [|split; [|split; [lia|done]]].
  - destruct (decide (stdout_fd s < 0)); [by left|right].
    destruct T1 as [|T1]; [lia|]. destruct EO as [-> | ->]; [done|].
    apply elem_of_difference. split; [done|]. rewrite elem_of_singleton. lia.
  - destruct (decide (stderr_fd s < 0)); [by left|right].
    destruct T2 as [|T2]; [lia|]. destruct EO as [-> | ->]; [done|].
    apply elem_of_difference. split; [done|]. rewrite elem_of_singleton. lia.
Qed.

Lemma release_stdout (s s' : io_state) :
  fds_disciplined s →
  stdin_fd s' = stdin_fd s → stderr_fd s' = stderr_fd s →
  bad_closes s' = bad_closes s →
  open_fds s' = open_fds s ∨ open_fds s' = open_fds s ∖ {[stdout_fd s]} →
  fds_disciplined (set_stdout_fd (-1) s').
Proof.
  intros (T0 & T1 & T2 & D0 & D1 & B) E1 E2 EB EO.
  unfold fds_disciplined, fd_tracked in *. fields. rewrite E1, E2, EB.
  split; [|split; [left; lia|split; [|split; [lia|split; [lia|done]]]]].
  - destruct (decide (stdin_fd s < 0)); [by left|right].
    destruct T0 as [|T0]; [lia|]. destruct EO as [-> | ->]; [done|].
    apply elem_of_difference. split; [done|]. rewrite elem_of_singleton. lia.
  - destruct (decide (stderr_fd s < 0)); [by left|right].
    destruct T2 as [|T2]; [lia|]. destruct EO as [-> | ->]; [done|].
    apply elem_of_difference. split; [done|]. rewrite elem_of_singleton. lia.
Qed.

Lemma release_stderr (s s' : io_state) :
  fds_disciplined s →
  stdin_fd s' = stdin_fd s → stdout_fd s' = stdout_fd s →
  bad_closes s' = bad_closes s →
  open_fds s' = open_fds s ∨ open_fds s' = open_fds s ∖ {[stderr_fd s]} →
  fds_disciplined (set_stderr_fd (-1) s').
Proof.
  intros (T0 & T1 & T2 & D0 & D1 & B) E1 E2 EB EO.
  unfold fds_disciplined, fd_tracked in *. fields. rewrite E1, E2, EB.
  split; [|split; [|split; [left; lia|split; [lia|split; [lia|done]]]]].
  - destruct (decide (stdin_fd s < 0)); [by left|right].
    destruct T0 as [|T0]; [lia|]. destruct EO as [-> | ->]; [done|].
    apply elem_of_difference. split; [done|]. rewrite elem_of_singleton. lia.
  - destruct (decide (stdout_fd s < 0)); [by left|right].
    destruct T1 as [|T1]; [lia|]. destruct EO as [-> | ->]; [done|].
    apply elem_of_difference. split; [done|]. rewrite elem_of_singleton. lia.
Qed.

End Table.

Ltac same_table_auto := repeat split; by norm_fields.

Section Discipline.
Context `{qrexec_h}.
Variables (pid mt ver : Z).

Lemma disciplined_ext (s x : io_state) :
  same_table s x → fds_disciplined s → fds_disciplined x.
Proof.
  intros (E0 & E1 & E2 & EO & EB). unfold fds_disciplined, fd_tracked.
  by rewrite E0, E1, E2, EO, EB.
Qed.

Lemma bind_pred (P : io_state → Prop) (f : flow) (k : io_state → flow) :
  P (state_of f) → (∀ s, P s → P (state_of (k s))) → P (state_of (f >>> k)).
Proof. intros Hf Hk. destruct f; simpl in *; auto. Qed.

Lemma release_stdin_soc (s x : io_state) (inh : Z) (how : shut_how)
    (shut : Z → shut_how → shut_res) :
  fds_disciplined s → same_table s x →
  fds_disciplined
    (set_stdin_fd (-1) (shutdown_or_close pid inh how shut (stdin_fd s) x)).
Proof.
  intros HD (E0 & E1 & E2 & EO & EB).
  destruct (shutdown_or_close_table pid inh how shut (stdin_fd s) x)
    as [Hb Ho].
  { destruct HD as (T0 & _). unfold fd_tracked in *. by rewrite EO. }
  apply (release_stdin s); [done|by norm_fields..| |].
  - by rewrite Hb.
  - by rewrite EO in Ho.
Qed.

Lemma release_stdout_soc (s x : io_state) (inh : Z) (how : shut_how)
    (shut : Z → shut_how → shut_res) :
  fds_disciplined s → same_table s x →
  fds_disciplined
    (set_stdout_fd (-1) (shutdown_or_close pid inh how shut (stdout_fd s) x)).
Proof.
  intros HD (E0 & E1 & E2 & EO & EB).
  destruct (shutdown_or_close_table pid inh how shut (stdout_fd s) x)
    as [Hb Ho].
  { destruct HD as (_ & T1 & _). unfold fd_tracked in *. by rewrite EO. }
  apply (release_stdout s); [done|by norm_fields..| |].
  - by rewrite Hb.
  - by rewrite EO in Ho.
Qed.

Lemma release_stderr_close (s x : io_state) :
  fds_disciplined s → same_table s x →
  fds_disciplined (set_stderr_fd (-1) (sys_close (stderr_fd s) x)).
Proof.
  intros HD (E0 & E1 & E2 & EO & EB).
  destruct (sys_close_table (stderr_fd s) x) as [Hb Ho].
  { destruct HD as (_ & _ & T2 & _). unfold fd_tracked in *. by rewrite EO. }
  apply (release_stderr s); [done|by norm_fields..| |].
  - by rewrite Hb.
  - right. by rewrite Ho, EO.
Qed.

Lemma reap_disciplined (e : iter_env) (s : io_state) :
  fds_disciplined s → fds_disciplined (reap pid e (deliver_sigusr1 e s)).
Proof.
  intros HD.
  assert (fds_disciplined (deliver_sigusr1 e s)) as HD1.
  { eapply disciplined_ext; [|done]. unfold deliver_sigusr1.
    case_match; same_table_auto. }
  revert HD1. generalize (deliver_sigusr1 e s). clear s HD. intros s HD.
  unfold reap. repeat case_match;
    try (eapply disciplined_ext; [|done]; same_table_auto).
  fields.
  match goal with
  | |- fds_disciplined (set_child_exited _ ?x) =>
      apply (disciplined_ext x); [same_table_auto|]
  end.
  apply release_stdin_soc; [done|same_table_auto].
Qed.

Lemma teardown_disciplined (shut : Z → shut_how → shut_res) (s : io_state) :
  fds_disciplined s → fds_disciplined (teardown pid shut s).
Proof.
  intros HD. unfold teardown.
  set (s1 := if negb (stdout_fd s =? -1) then _ else s).
  assert (fds_disciplined s1) as HD1.
  { subst s1. case_match; [|done].
    apply (release_stdout_soc s); [done|same_table_auto]. }
  clearbody s1. clear s HD.
  set (s2 := if negb (stdin_fd s1 =? -1) then _ else s1).
  assert (fds_disciplined s2) as HD2.
  { subst s2. case_match; [|done].
    apply (release_stdin_soc s1); [done|same_table_auto]. }
  clearbody s2. clear s1 HD1.
  case_match; [|done].
  apply (release_stderr_close s2); [done|same_table_auto].
Qed.

Lemma termination_test_disciplined (e : iter_env) (s : io_state) :
  fds_disciplined s → fds_disciplined (state_of (termination_test pid e s)).
Proof.
  intros HD. eapply disciplined_ext; [|done].
  unfold termination_test, send_exit_code_in_loop, handle_vchan_error.
  repeat case_match; cbn [flow_bind state_of]; same_table_auto.
Qed.

Lemma fresh_stdout_disciplined (s x : io_state) (other : option (gset Z)) :
  let r := fcntl_dupfd (open_fds s) other (stdin_fd s) 3 in
  fd_tracked (stdin_fd s) s → fd_tracked (stderr_fd s) s →
  (0 ≤ stderr_fd s → stderr_fd s ≠ stdin_fd s) →
  bad_closes s = [] →
  stdin_fd x = stdin_fd s → stderr_fd x = stderr_fd s →
  bad_closes x = bad_closes s →
  (r < 3 ∧ open_fds x = open_fds s) ∨
  (3 ≤ r ∧ open_fds x = {[r]} ∪ open_fds s) →
  fds_disciplined (set_stdout_fd r x).
Proof.
  intros r T0 T2 D B E0 E2 EB EO.
  destruct (fcntl_dupfd_spec (open_fds s) other (stdin_fd s) 3) as [Hr|[Hr Hf]];
    [lia| |]; fold r in Hr; try fold r in Hf;
    unfold fds_disciplined, fd_tracked in *; fields; rewrite E0, E2, EB.
  - destruct EO as [[_ ->]|[? _]]; [|lia].
    repeat split; first [done | lia | (left; lia)].
  - destruct EO as [[? _]|[_ ->]]; [lia|].
    split; [|split; [|split; [|split; [|split; [|done]]]]].
    + destruct T0; [by left|right]. set_solver.
    + right. set_solver.
    + destruct T2; [by left|right]. set_solver.
    + intros Hp. destruct T0; [lia|].
      split; [intros Heq; apply Hf; by rewrite <- Heq | lia].
    + intros _ Heq. destruct T2 as [|T2]; [lia|]. apply Hf. by rewrite Heq.
Qed.

Lemma single_socket_disciplined (e : iter_env) (s : io_state) :
  fds_disciplined s → fds_disciplined (state_of (single_socket e s)).
Proof.
  intros HD. unfold single_socket.
  destruct (stdio_socket_requested s =? 1); [|done].
  destruct (Z.eqb_spec (stdout_fd s) (-1)) as [Hout|Hout]; simpl.
  - destruct HD as (T0 & T1 & T2 & D0 & D1 & B).
    assert (0 ≤ stderr_fd s → stderr_fd s ≠ stdin_fd s) as D2.
    { intros Hp Heq. rewrite Heq in Hp. apply D0 in Hp as [_ ?]. congruence. }
    destruct (Z.ltb_spec (fcntl_dupfd (open_fds s) (e_other_fds e) (stdin_fd s) 3) 3);
      cbn [state_of].
    + apply (fresh_stdout_disciplined s); try done. left. by split.
    + eapply disciplined_ext;
        [|apply (fresh_stdout_disciplined s
                   (set_open_fds
                      ({[fcntl_dupfd (open_fds s) (e_other_fds e) (stdin_fd s) 3]}
                         ∪ open_fds s) s) (e_other_fds e)); try done].
      * same_table_auto.
      * right. by split.
  - case_match; cbn [state_of];
      (eapply disciplined_ext; [|done]; same_table_auto).
Qed.

End Discipline.

Section DisciplineOfTheLoop.
Context `{qrexec_h}.
Variables (pid mt ver : Z).

Lemma clear_vchan_event_disciplined (e : iter_env) (rdset : gset Z)
    (s : io_state) :
  fds_disciplined s → fds_disciplined (state_of (clear_vchan_event e rdset s)).
Proof.
  intros HD. eapply disciplined_ext; [|done].
  unfold clear_vchan_event, handle_vchan_error.
  repeat case_match; cbn [state_of]; same_table_auto.
Qed.

Lemma dispatch_remote_disciplined (e : iter_env) (s : io_state) :
  fds_disciplined s → fds_disciplined (state_of (dispatch_remote pid ver e s)).
Proof.
  intros HD. unfold dispatch_remote, handle_vchan_error.
  set (s1 := match rd_status (e_remote e) with
             | Some v => set_remote_process_status v _
             | None => _
             end).
  assert (same_table s s1) as Hsame.
  { subst s1. case_match; same_table_auto. }
  assert (fds_disciplined s1) as HD1 by by eapply disciplined_ext.
  clearbody s1. clear s HD Hsame.
  destruct (rd_rc (e_remote e)); cbn [state_of]; try done.
  - apply (release_stdin s1); [done|by case_match..|].
    case_match; fields; auto.
  - set (x := set_stdout_fd (-1)
                (shutdown_or_close pid 0 SHUT_RD (e_shutdown e) (stdout_fd s1) s1)).
    assert (fds_disciplined x) as HDx.
    { apply release_stdout_soc; [done|same_table_auto]. }
    assert (fds_disciplined (set_stderr_fd (-1) (sys_close (stderr_fd x) x)))
      as HD2.
    { apply release_stderr_close; [done|same_table_auto]. }
    by case_match.
Qed.

Lemma dispatch_stdout_disciplined (e : iter_env) (rdset : gset Z)
    (s : io_state) :
  fds_disciplined s →
  fds_disciplined (state_of (dispatch_stdout mt ver e rdset s)).
Proof.
  intros HD. unfold dispatch_stdout, handle_vchan_error.
  case_match; [|done].
  destruct (in_rc (e_stdout_input e)); cbn [state_of];
    try (eapply disciplined_ext; [|done]; same_table_auto).
  apply (release_stdout s); [done|by case_match..|].
  case_match; fields; auto.
Qed.

Lemma dispatch_stderr_disciplined (e : iter_env) (rdset : gset Z)
    (s : io_state) :
  fds_disciplined s →
  fds_disciplined (state_of (dispatch_stderr ver e rdset s)).
Proof.
  intros HD. unfold dispatch_stderr, handle_vchan_error.
  case_match; [|done].
  destruct (in_rc (e_stderr_input e)); cbn [state_of];
    try (eapply disciplined_ext; [|done]; same_table_auto).
  apply (release_stderr s); [done|by case_match..|].
  case_match; fields; auto.
Qed.

Lemma wait_and_dispatch_disciplined (e : iter_env) (s : io_state) :
  fds_disciplined s →
  fds_disciplined (state_of (wait_and_dispatch pid mt ver e s)).
Proof.
  intros HD. unfold wait_and_dispatch.
  assert (fds_disciplined (deliver_sigchld e s)) as HD1.
  { eapply disciplined_ext; [|done]. unfold deliver_sigchld.
    case_match; same_table_auto. }
  destruct (e_pselect e (select_timeout e (deliver_sigchld e s))); [|done..].
  repeat apply (bind_pred fds_disciplined).
  - by apply clear_vchan_event_disciplined.
  - apply dispatch_remote_disciplined.
  - apply dispatch_stdout_disciplined.
  - apply dispatch_stderr_disciplined.
Qed.

Lemma loop_iteration_disciplined (e : iter_env) (s : io_state) :
  fds_disciplined s →
  fds_disciplined (state_of (loop_iteration pid mt ver e s)).
Proof.
  intros HD. unfold loop_iteration.
  repeat apply (bind_pred fds_disciplined).
  - by apply termination_test_disciplined, reap_disciplined.
  - apply single_socket_disciplined.
  - apply wait_and_dispatch_disciplined.
Qed.

Lemma initial_open_members (fd0 fd1 fd2 fd : Z) :
  fd ∈ initial_open fd0 fd1 fd2 ↔ 0 ≤ fd ∧ (fd = fd0 ∨ fd = fd1 ∨ fd = fd2).
Proof.
  unfold initial_open.
  rewrite elem_of_list_to_set, list_elem_of_filter, !elem_of_cons, elem_of_nil.
  tauto.
Qed.

Lemma prologue_disciplined (other : option (gset Z)) (fd0 fd1 fd2 : Z)
    (buf : list Z) (exited requested : Z) (tr : trace) :
  fds_well_formed fd0 fd1 fd2 →
  fds_disciplined
    (state_of (prologue other
                 (initial_state pid fd0 fd1 fd2 buf exited requested tr))).
Proof.
  intros Hwf. unfold fds_well_formed in Hwf.
  set (s0 := initial_state pid fd0 fd1 fd2 buf exited requested tr).
  assert (∀ fd, fd = fd0 ∨ fd = fd1 ∨ fd = fd2 → fd_tracked fd s0) as Ht.
  { intros fd Hfd. unfold fd_tracked.
    destruct (decide (fd < 0)); [by left|right].
    apply initial_open_members. split; [lia|done]. }
  unfold prologue.
  set (s1 := emit [EvSetNonblock (stdin_fd s0)] s0).
  apply (bind_pred fds_disciplined);
    [|intros s HD; cbn [state_of]; case_match; [|done];
      eapply disciplined_ext; [|done]; same_table_auto].
  destruct (Z.eqb_spec (stdout_fd s1) (stdin_fd s1)) as [Heq|Hne];
    cbn [negb state_of].
  - cbn in Heq.
    assert (0 ≤ stderr_fd s0 → stderr_fd s0 ≠ stdin_fd s0) as D2.
    { cbn. intros Hp. by apply Hwf in Hp as [? _]. }
    destruct (Z.ltb_spec (fcntl_dupfd (open_fds s1) other (stdin_fd s1) 3) 0);
      cbn [state_of].
    + apply (fresh_stdout_disciplined s0); try done; try (apply Ht; auto).
      left. split; [|done]. cbn in *. lia.
    + destruct (fcntl_dupfd_spec (open_fds s0) other (stdin_fd s0) 3)
        as [Hr|[Hr Hf]]; [lia| |].
      { cbn in *. lia. }
      eapply disciplined_ext;
        [|apply (fresh_stdout_disciplined s0
                   (set_open_fds
                      ({[fcntl_dupfd (open_fds s0) other (stdin_fd s0) 3]}
                         ∪ open_fds s0) s1) other);
          try done; try (apply Ht; auto)].
      * same_table_auto.
      * right. by split.
  - cbn in Hne. eapply (disciplined_ext s0); [same_table_auto|].
    unfold fds_disciplined.
    split; [apply (Ht fd0); auto|]. split; [apply (Ht fd1); auto|].
    split; [apply (Ht fd2); auto|]. cbn.
    split; [lia|]. split; [lia|done].
Qed.

Lemma process_child_io_disciplined (fd0 fd1 fd2 : Z) (buf : list Z)
    (exited requested : Z) (tr : trace) (w : io_env) :
  fds_well_formed fd0 fd1 fd2 →
  fds_disciplined
    (state_of (process_child_io pid mt fd0 fd1 fd2 ver buf exited requested
                 tr w)).
Proof.
  intros Hwf. unfold process_child_io.
  pose proof (prologue_disciplined (io_other_fds w) fd0 fd1 fd2 buf exited
                requested tr Hwf) as HD.
  set (s0 := initial_state pid fd0 fd1 fd2 buf exited requested tr) in *.
  assert (fds_disciplined
            (state_of (prologue (io_other_fds w) s0 >>>
                       io_loop pid mt ver (io_iters w)))) as HD1.
  { apply (bind_pred fds_disciplined); [done|].
    apply io_loop_invariant. intros e s _. apply loop_iteration_disciplined. }
  destruct (prologue (io_other_fds w) s0 >>> io_loop pid mt ver (io_iters w));
    try done.
  cbn [finish state_of] in *. by apply teardown_disciplined.
Qed.

End DisciplineOfTheLoop.

(** ** Descriptors at the end *)

Section AtTheEnd.
Context `{qrexec_h}.
Variables (pid mt ver : Z).

Lemma dispatch_remote_exited (e : iter_env) (s : io_state) :
  rd_rc (e_remote e) = REMOTE_EXITED →
  ∃ s',
    dispatch_remote pid ver e s =
      (if pid =? 0 then Return (remote_process_status s') s' else Go s') ∧
    remote_process_status s' =
      default (remote_process_status s) (rd_status (e_remote e)) ∧
    stdin_fd s' = stdin_fd s ∧ stdout_fd s' = -1 ∧ stderr_fd s' = -1 ∧
    stdin_buf s' = rd_buf (e_remote e) ∧
    io_trace s' =
      io_trace s ++ [EvHandleRemoteData (stdin_fd s) ver] ++
      (if (pid =? 0) || (stdout_fd s =? 0) then [EvClose (stdout_fd s)]
       else EvShutdown (stdout_fd s) SHUT_RD ::
            match e_shutdown e (stdout_fd s) SHUT_RD with
            | ShutENOTSOCK => [EvClose (stdout_fd s)]
            | _ => []
            end) ++
      [EvClose (stderr_fd s)].
Proof.
  intros Hrc. unfold dispatch_remote. rewrite Hrc.
  eexists. split; [reflexivity|].
  norm_fields.
  split; [by destruct (rd_status (e_remote e))|].
  split; [by destruct (rd_status (e_remote e))|].
  split; [done|]. split; [done|].
  split; [by destruct (rd_status (e_remote e))|].
  unfold shutdown_or_close, sys_close.
  destruct (rd_status (e_remote e)); fields;
    destruct ((pid =? 0) || (stdout_fd s =? 0));
    repeat case_match; fields; by rewrite <- ?app_assoc.
Qed.

Lemma io_loop_return_closed (es : list iter_env) (s : io_state) (v : Z)
    (s' : io_state) :
  io_loop pid mt ver es s = Return v s' →
  stdout_fd s' = -1 ∧ stderr_fd s' = -1.
Proof.
  revert s. induction es as [|e es IH]; intros s; simpl; [done|].
  destruct (loop_iteration pid mt ver e s) as [s1|s1| |v1 s1| |] eqn:Hit;
    try done; try apply IH.
  intros [= -> ->]. revert Hit. unfold loop_iteration.
  destruct (termination_test pid e (reap pid e (deliver_sigusr1 e s)))
    as [s2| | |v2 s2| |] eqn:Ht; simpl; try done.
  - destruct (single_socket_outcome e s2) as [[s3 ->]|[s3 ->]]; [|done]. simpl.
    unfold wait_and_dispatch.
    destruct (e_pselect e (select_timeout e (deliver_sigchld e s3)))
      as [rd wr| |]; [|done..].
    set (rdset := build_rdset e s3 ∩ rd).
    destruct (clear_vchan_event_outcome e rdset (deliver_sigchld e s3))
      as [[s4 ->]|[s4 [-> _]]]; [|done]. simpl.
    pose proof (dispatch_remote_outcome pid ver e s4) as Ho.
    destruct (dispatch_remote pid ver e s4) as [s5| | |v5 s5| |] eqn:Hd;
      try done; simpl.
    + destruct (dispatch_stdout_outcome mt ver e rdset s5) as [[s6 ->]|[s6 ->]];
        [|done]. simpl.
      by destruct (dispatch_stderr_outcome ver e rdset s6) as [[s7 ->]|[s7 ->]].
    + intros [= -> ->]. destruct Ho as (_ & Hrc & _).
      destruct (dispatch_remote_exited e s4 Hrc)
        as (s6 & Heq & _ & _ & Ho1 & Ho2 & _).
      rewrite Hd in Heq. by destruct (pid =? 0); simplify_eq.
  - exfalso. revert Ht.
    unfold termination_test, send_exit_code_in_loop, handle_vchan_error.
    by repeat case_match.
Qed.

Lemma process_child_io_return_closed (fd0 fd1 fd2 : Z) (buf : list Z)
    (exited requested : Z) (tr : trace) (w : io_env) (v : Z) (s' : io_state) :
  process_child_io pid mt fd0 fd1 fd2 ver buf exited requested tr w = Return v s' →
  stdout_fd s' = -1 ∧ stderr_fd s' = -1 ∧ (pid ≠ 0 → stdin_fd s' = -1).
Proof.
  unfold process_child_io.
  set (s0 := initial_state pid fd0 fd1 fd2 buf exited requested tr).
  destruct (prologue_outcome (io_other_fds w) s0) as [[s1 ->]|[s1 ->]];
    [|done]. simpl.
  destruct (io_loop pid mt ver (io_iters w) s1) as [| |s2|v2 s2| |] eqn:Hl;
    simpl; try done.
  - intros [= <- <-].
    by destruct (teardown_all_closed pid (io_shutdown w) s2) as (? & ? & ?).
  - intros [= <- <-].
    destruct (io_loop_return_closed _ _ _ _ Hl) as [? ?].
    apply (io_loop_return pid mt ver) in Hl as [? _]. by repeat split.
Qed.

End AtTheEnd.

(** X6. When [stderr_fd], if there is one, differs from the other two
    descriptors handed to [process_child_io], no [close] of the function is
    ever given a descriptor that is not open: none is closed twice, whatever
    the environment does and however the function ends.  When the function
    returns, [stdout_fd] and [stderr_fd] hold the closed sentinel, and with a
    local child so does [stdin_fd]. *)
Theorem no_descriptor_closed_twice `{qrexec_h} (pid mt fd0 fd1 fd2 ver : Z)
    (buf : list Z) (exited requested : Z) (tr : trace) (w : io_env) :
  fds_well_formed fd0 fd1 fd2 →
  let f := process_child_io pid mt fd0 fd1 fd2 ver buf exited requested tr w in
  bad_closes (state_of f) = [] ∧
  fds_disciplined (state_of f) ∧
  (∀ v s', f = Return v s' →
     stdout_fd s' = -1 ∧ stderr_fd s' = -1 ∧ (pid ≠ 0 → stdin_fd s' = -1)).
Proof.
  intros Hwf f.
  pose proof (process_child_io_disciplined pid mt ver fd0 fd1 fd2 buf exited
                requested tr w Hwf) as HD.
  split; [by destruct HD as (_ & _ & _ & _ & _ & ?)|]. split; [done|].
  intros v s'. apply process_child_io_return_closed.
Qed.

Section DescriptorsAtV3.
#[local] Existing Instance qrexec_h_v3.

Lemma no_descriptor_closed_twice_witness :
  fds_well_formed 4 5 6 ∧
  bad_closes
    (state_of (process_child_io 1234 MSG_DATA_STDOUT 4 5 6 3 [] 0 0 []
                 ends_at_once)) = [].
Proof.
  assert (fds_well_formed 4 5 6) as Hwf by (intros _; split; lia).
  split; [done|].
  apply (no_descriptor_closed_twice 1234 MSG_DATA_STDOUT 4 5 6 3 [] 0 0 []
           ends_at_once Hwf).
Defined.

End DescriptorsAtV3.

(** ** The reaper *)

(** X8. The reaper of lines 199-219 always clears the flag of SIGCHLD.
    Unless the flag was set, there is a local child and [waitpid] reports it,
    it changes neither the recorded exit code nor [stdin_fd] and does nothing
    to any descriptor.  When it reaps, [stdin_fd] holds no descriptor
    afterwards, and the recorded exit code is 128 plus the signal number for a
    child that a signal terminated (core dumped or not) and the exit status
    for a child that exited. *)
Theorem reaper_translates_wait_status `{qrexec_h} (pid : Z) (e : iter_env)
    (s : io_state) :
  child_exited (reap pid e s) = 0 ∧
  (child_exited s = 0 ∨ pid ≤ 0 ∨ e_waitpid_ret e ≤ 0 →
     child_process_status (reap pid e s) = child_process_status s ∧
     stdin_fd (reap pid e s) = stdin_fd s ∧
     io_trace (reap pid e s) = io_trace s) ∧
  (child_exited s ≠ 0 ∧ 0 < pid ∧ 0 < e_waitpid_ret e →
     stdin_fd (reap pid e s) < 0 ∧
     (∀ sig core, 1 ≤ sig ≤ 126 →
        e_waitpid_status e = status_signaled sig core →
        child_process_status (reap pid e s) = 128 + sig) ∧
     (∀ ret, 0 ≤ ret < 256 →
        e_waitpid_status e = status_exited ret →
        child_process_status (reap pid e s) = ret)).
Proof.
  split; [|split].
  - unfold reap. repeat case_match; norm_fields; try done. lia.
  - intros Hn. destruct (reap_not_reaped pid e s Hn) as [-> ->].
    split; [done|]. split; [done|].
    unfold reap. repeat case_match; norm_fields; try done; lia.
  - intros (Hf & Hp & Hw).
    destruct (reap_reaped pid e s Hf Hp Hw) as (Hst & Hin & _).
    split; [done|]. rewrite Hst. split.
    + intros sig core Hsig ->. by apply exit_code_of_signal.
    + intros ret Hret ->. by apply exit_code_of_exit.
Qed.

(** ** Command lines *)

Lemma split_colon_first (s : string) :
  match split_colon s with
  | Some (before, after) =>
      s = (before ++ String ":" after)%string ∧
      (":"%char ∉ list_ascii_of_string before)
  | None => ":"%char ∉ list_ascii_of_string s
  end.
Proof.
  induction s as [|c s IH]; simpl; [apply not_elem_of_nil|].
  destruct (Ascii.eqb_spec c ":"%char) as [->|Hne].
  - split; [done|apply not_elem_of_nil].
  - destruct (split_colon s) as [[before after]|].
    + destruct IH as [-> Hno]. split; [done|]. simpl.
      by apply not_elem_of_cons.
    + by apply not_elem_of_cons.
Qed.

(** X9. [handle_just_exec] cuts the command line at its first colon
    (lines 140-145): when it finds one, the line is the text before it, the
    colon and the text after it, and the text before it holds no colon; it
    finds none exactly when the line holds no colon, and then returns -1
    without calling [fork]. *)
Theorem command_line_cut_at_first_colon (cmdline : string) (fork_ret : Z)
    (tr : trace) :
  match split_colon cmdline with
  | Some (before, after) =>
      cmdline = (before ++ String ":" after)%string ∧
      (":"%char ∉ list_ascii_of_string before)
  | None =>
      (":"%char ∉ list_ascii_of_string cmdline) ∧
      handle_just_exec cmdline fork_ret tr = JeReturn (-1) tr
  end.
Proof.
  pose proof (split_colon_first cmdline) as Hs. unfold handle_just_exec.
  by destruct (split_colon cmdline) as [[before after]|].
Qed.

Lemma c_string_store_length (n : nat) (buf : string) :
  (n < String.length buf)%nat →
  (String.length (c_string (store n NUL buf)) ≤ n)%nat.
Proof.
  revert n. induction buf as [|c buf IH]; intros n Hn; simpl in *; [lia|].
  destruct n as [|n]; simpl; [lia|].
  destruct (Ascii.eqb c NUL); simpl; [lia|].
  specialize (IH n). lia.
Qed.

Lemma c_string_no_nul (buf : string) :
  NUL ∉ list_ascii_of_string (c_string buf).
Proof.
  induction buf as [|c buf IH]; simpl; [apply not_elem_of_nil|].
  destruct (Ascii.eqb_spec c NUL) as [->|Hne]; simpl; [apply not_elem_of_nil|].
  by apply not_elem_of_cons.
Qed.

Lemma c_string_store_prefix (n : nat) (buf : string) :
  (String.length (c_string buf) ≤ n)%nat →
  c_string (store n NUL buf) = c_string buf.
Proof.
  revert n. induction buf as [|c buf IH]; intros n Hn; simpl in *;
    [by destruct n|].
  destruct (Ascii.eqb_spec c NUL) as [->|Hne].
  - by destruct n.
  - simpl in Hn. destruct n as [|n]; [lia|]. simpl.
    rewrite (proj2 (Ascii.eqb_neq c NUL)) by done.
    f_equal. apply IH. lia.
Qed.

(** X10. The store of line 441 bounds the command line: for a buffer of
    at least [cmdline_len] characters, the C string that the session reads
    after [cmdline[cmdline_len-1] = 0] holds no NUL and is shorter than
    [cmdline_len]; and a command line that already ends before that position
    is read unchanged. *)
Theorem command_line_is_terminated (buf : string) (cmdline_len : Z) :
  0 < cmdline_len ≤ Z.of_nat (String.length buf) →
  let cmdline := c_string (store (Z.to_nat (cmdline_len - 1)) NUL buf) in
  Z.of_nat (String.length cmdline) < cmdline_len ∧
  (NUL ∉ list_ascii_of_string cmdline) ∧
  (Z.of_nat (String.length (c_string buf)) < cmdline_len →
   cmdline = c_string buf).
Proof.
  intros Hlen cmdline. subst cmdline. split; [|split].
  - pose proof (c_string_store_length (Z.to_nat (cmdline_len - 1)) buf). lia.
  - apply c_string_no_nul.
  - intros Hshort. apply c_string_store_prefix. lia.
Qed.

Lemma command_line_is_terminated_witness :
  0 < sleep_cmdline_len ≤ Z.of_nat (String.length sleep_cmdline) ∧
  c_string (store (Z.to_nat (sleep_cmdline_len - 1)) NUL sleep_cmdline) =
    c_string sleep_cmdline.
Proof.
  assert (0 < sleep_cmdline_len ≤ Z.of_nat (String.length sleep_cmdline)) as Hl
    by by vm_compute.
  split; [done|].
  apply (command_line_is_terminated sleep_cmdline sleep_cmdline_len Hl).
  by vm_compute.
Defined.

(** ** What the whole function appends *)

Section IoEvents.
Context `{qrexec_h}.
Variables (pid mt ver : Z).

Lemma loop_iteration_adds (e : iter_env) (s : io_state) :
  adds is_io_event s (state_of (loop_iteration pid mt ver e s)).
Proof.
  unfold loop_iteration.
  repeat apply bind_adds.
  - eapply adds_trans.
    + eapply adds_weaken; [|apply reap_sigusr1_adds].
      intros ev Hev. left. by destruct ev.
    + eapply adds_weaken; [|apply termination_test_adds].
      intros ev Hev. by right; right.
  - intros s1. eapply adds_weaken; [|apply single_socket_adds].
    intros ev Hev. left. by destruct ev.
  - intros s1. eapply adds_weaken; [|apply wait_and_dispatch_adds].
    intros ev [Hl|Hp]; [by left|]. right; left. by destruct ev.
Qed.

Lemma io_loop_adds (es : list iter_env) (s : io_state) :
  adds is_io_event s (state_of (io_loop pid mt ver es s)).
Proof.
  apply (io_loop_invariant pid mt ver (adds is_io_event s)).
  - intros e s1 _ Hs1. eapply adds_trans; [done|apply loop_iteration_adds].
  - apply adds_refl.
Qed.

Lemma process_child_io_adds (fd0 fd1 fd2 : Z) (buf : list Z)
    (exited requested : Z) (tr : trace) (w : io_env) :
  ∃ new,
    io_trace (state_of (process_child_io pid mt fd0 fd1 fd2 ver buf exited
                          requested tr w)) = tr ++ new ∧
    Forall is_io_event new.
Proof.
  unfold process_child_io.
  set (s0 := initial_state pid fd0 fd1 fd2 buf exited requested tr).
  change tr with (io_trace s0). fold (adds is_io_event s0).
  assert (∀ ev, is_fd_event ev → is_io_event ev) as Hfd.
  { intros ev Hev. left. by destruct ev. }
  assert (adds is_io_event s0
            (state_of (prologue (io_other_fds w) s0 >>>
                       io_loop pid mt ver (io_iters w)))) as Hloop.
  { apply bind_adds; [|apply io_loop_adds].
    eapply adds_weaken; [done|apply prologue_adds]. }
  destruct (prologue (io_other_fds w) s0 >>> io_loop pid mt ver (io_iters w));
    try done.
  cbn [finish state_of] in *. eapply adds_trans; [done|].
  eapply adds_weaken; [done|apply teardown_adds].
Qed.

End IoEvents.

(** ** The order of the handshake *)

(** X11. The handshake performs a prefix of the exchange "send the HELLO
    header, send the local version, receive a header, receive a peer info",
    in that order, and always at least the first send. It receives nothing
    unless both of its sends moved the number of bytes asked for, it reads a
    peer info only after a header of type HELLO and of the size of the peer
    info, and it returns something other than -1 only after the whole
    exchange. *)
Theorem handshake_exchange_order `{qrexec_h} (w : handshake_env) (tr : trace) :
  ∃ n : nat,
    (handle_handshake w tr).2 = tr ++ take n handshake_exchange ∧
    (1 ≤ n ≤ 4)%nat ∧
    ((3 ≤ n)%nat →
       hs_send_hdr w = sizeof_msg_header ∧ hs_send_info w = sizeof_peer_info) ∧
    (n = 4%nat →
       hs_recv_hdr_ret w = sizeof_msg_header ∧
       hdr_type (hs_recv_hdr w) = MSG_HELLO ∧
       hdr_len (hs_recv_hdr w) = sizeof_peer_info) ∧
    ((handle_handshake w tr).1 ≠ -1 → n = 4%nat ∧ transfers_complete w).
Proof.
  unfold handle_handshake, transfers_complete, handshake_exchange.
  destruct (Z.eqb_spec (hs_send_hdr w) sizeof_msg_header) as [H1|H1]; simpl;
    [|exists 1%nat; repeat split; (done || lia)].
  destruct (Z.eqb_spec (hs_send_info w) sizeof_peer_info) as [H2|H2]; simpl;
    [|exists 2%nat; rewrite <- !app_assoc; repeat split; (done || lia)].
  destruct (Z.eqb_spec (hs_recv_hdr_ret w) sizeof_msg_header) as [H3|H3]; simpl;
    [|exists 3%nat; rewrite <- !app_assoc; repeat split; (done || lia)].
  destruct (Z.eqb_spec (hdr_type (hs_recv_hdr w)) MSG_HELLO) as [H4|H4]; simpl;
    [|exists 3%nat; rewrite <- !app_assoc; repeat split; (done || lia)].
  destruct (Z.eqb_spec (hdr_len (hs_recv_hdr w)) sizeof_peer_info) as [H5|H5];
    simpl;
    [|exists 3%nat; rewrite <- !app_assoc; repeat split; (done || lia)].
  exists 4%nat. rewrite <- !app_assoc.
  destruct (Z.eqb_spec (hs_recv_info_ret w) sizeof_peer_info) as [H6|H6]; simpl;
    [|repeat split; (done || lia)].
  case_match; simpl; repeat split; (done || lia).
Qed.

Lemma handle_handshake_adds `{qrexec_h} (w : handshake_env) (tr : trace) :
  ∃ new, (handle_handshake w tr).2 = tr ++ new ∧ Forall is_handshake_event new.
Proof.
  unfold handle_handshake.
  repeat case_match; simpl; rewrite <- ?app_assoc;
    (eexists; split; [reflexivity|]; by repeat constructor).
Qed.

(** ** The dispatcher closes the vchan once, when it returns *)

Ltac no_close_in_list :=
  repeat (apply not_elem_of_cons; split; [discriminate|]); apply not_elem_of_nil.

Section CloseOnce.
Context `{qrexec_h}.

Lemma no_close_app (a b : trace) :
  EvVchanClose ∉ a → EvVchanClose ∉ b → EvVchanClose ∉ a ++ b.
Proof. intros Ha Hb Hin. apply elem_of_app in Hin as [?|?]; auto. Qed.

Lemma no_close_forall (Q : event → Prop) (new : trace) :
  ¬ Q EvVchanClose → Forall Q new → EvVchanClose ∉ new.
Proof.
  intros HQ Hall Hin. rewrite Forall_forall in Hall. by apply HQ, Hall.
Qed.

Lemma handshake_no_close (w : handshake_env) (tr : trace) :
  EvVchanClose ∉ tr → EvVchanClose ∉ (handle_handshake w tr).2.
Proof.
  intros Htr. destruct (handle_handshake_adds w tr) as (new & -> & Hnew).
  apply no_close_app; [done|].
  apply (no_close_forall is_handshake_event); [intros []|done].
Qed.

Lemma process_child_io_no_close (pid mt fd0 fd1 fd2 ver : Z) (buf : list Z)
    (exited requested : Z) (tr : trace) (w : io_env) :
  EvVchanClose ∉ tr →
  EvVchanClose ∉
    io_trace (state_of (process_child_io pid mt fd0 fd1 fd2 ver buf exited
                          requested tr w)).
Proof.
  intros Htr.
  destruct (process_child_io_adds pid mt ver fd0 fd1 fd2 buf exited requested
              tr w) as (new & -> & Hnew).
  apply no_close_app; [done|]. apply (no_close_forall is_io_event); [|done].
  by intros [?|[?|?]].
Qed.

Lemma close_and_return_once (f : flow) :
  EvVchanClose ∉ io_trace (state_of f) →
  match close_and_return f with
  | SReturn _ tr => ∃ tr', tr = tr' ++ [EvVchanClose] ∧ EvVchanClose ∉ tr'
  | other => EvVchanClose ∉ outcome_trace other
  end.
Proof. destruct f; simpl; eauto. Qed.

Lemma run_session_closes_once (type : Z) (cmdline : string) (fd0 fd1 fd2 : Z)
    (w : session_env) (tr : trace) :
  EvVchanClose ∉ tr →
  match run_session type cmdline fd0 fd1 fd2 w tr with
  | SReturn _ tr => ∃ tr', tr = tr' ++ [EvVchanClose] ∧ EvVchanClose ∉ tr'
  | other => EvVchanClose ∉ outcome_trace other
  end.
Proof.
  intros Htr. unfold run_session.
  pose proof (handshake_no_close (w_handshake w) tr Htr) as Hhs.
  destruct (handle_handshake (w_handshake w) tr) as [v tr1]. simpl in Hhs.
  assert (EvVchanClose ∉ tr1 ++ [EvPrepareChildEnv]) as Hprep.
  { apply no_close_app; [done|]. no_close_in_list. }
  destruct (w_prepare_ok w); simpl; [|done].
  destruct (type =? MSG_JUST_EXEC).
  { unfold handle_just_exec.
    assert (∀ status tr2, EvVchanClose ∉ tr2 →
              match
                match send_exit_code (w_send_hdr w) (w_send_status w) status tr2
                with
                | SendDone tr => SReturn 0 (tr ++ [EvVchanClose])
                | SendVchanError op tr => SVchanError op tr
                end
              with
              | SReturn _ tr =>
                  ∃ tr', tr = tr' ++ [EvVchanClose] ∧ EvVchanClose ∉ tr'
              | other => EvVchanClose ∉ outcome_trace other
              end) as Hsend.
    { intros status tr2 Htr2. rewrite send_exit_code_cases.
      repeat case_match; simplify_eq; simpl;
        first [ apply no_close_app; [done|]; no_close_in_list
              | eexists; split; [done|];
                apply no_close_app; [done|]; no_close_in_list ]. }
    destruct (split_colon cmdline) as [[before after]|]; [|by apply Hsend].
    destruct (w_fork w =? -1); [by apply Hsend|].
    destruct (w_fork w =? 0); [done|].
    apply Hsend. apply no_close_app; [done|]. no_close_in_list. }
  destruct (type =? MSG_EXEC_CMDLINE).
  { apply close_and_return_once, process_child_io_no_close.
    apply no_close_app; [done|]. no_close_in_list. }
  destruct (type =? MSG_SERVICE_CONNECT).
  { by apply close_and_return_once, process_child_io_no_close. }
  eauto.
Qed.

End CloseOnce.

(** X12. Whatever its arguments and the environment, when
    [handle_new_process_common] returns, [libvchan_close] has been called
    exactly once, as the last thing the function did; when it does not return
    (it aborts, exits after a failed connection, fails on the vchan or is
    still in its loop), [libvchan_close] has not been called. *)
Theorem vchan_closed_once_at_return `{qrexec_h} (type : Z)
    (cmdline : option string) (cmdline_len : Z)
    (stdin_fd stdout_fd stderr_fd buffer_size : Z) (w : session_env) :
  match handle_new_process_common type cmdline cmdline_len
          stdin_fd stdout_fd stderr_fd buffer_size w with
  | SReturn _ tr => ∃ tr', tr = tr' ++ [EvVchanClose] ∧ EvVchanClose ∉ tr'
  | other => EvVchanClose ∉ outcome_trace other
  end.
Proof.
  unfold handle_new_process_common.
  destruct (type =? MSG_SERVICE_CONNECT).
  - destruct (w_vchan_ok w); [|no_close_in_list].
    apply run_session_closes_once.
    no_close_in_list.
  - destruct cmdline as [buf|]; [|apply not_elem_of_nil].
    destruct (cmdline_len =? 0); [apply not_elem_of_nil|].
    destruct (cmdline_len >? MAX_QREXEC_CMD_LEN); [apply not_elem_of_nil|].
    destruct (Z.of_nat (String.length buf) <? cmdline_len);
      [apply not_elem_of_nil|].
    destruct (w_vchan_ok w); [|no_close_in_list].
    apply run_session_closes_once. no_close_in_list.
Qed.

(** X13. The checks of lines 421-447. For a type other than
    MSG_SERVICE_CONNECT a missing command line, a length of zero and a length
    above [MAX_QREXEC_CMD_LEN] each make the function abort before it touches
    the vchan; with a command line of a length from 1 to
    [MAX_QREXEC_CMD_LEN] that lies within its buffer, the function connects
    as a client, and a vchan that cannot be set up makes it exit with code 1
    before any handshake.  The service-connect mode takes no command line
    and, for a buffer size that is not negative, creates the vchan as a server
    with that size, or with 65536 when the size is 0; when that fails it exits
    with code 1, else it waits on the vchan and the session starts. *)
Theorem dispatcher_checks_its_arguments `{qrexec_h} (type : Z)
    (cmdline : option string) (cmdline_len : Z)
    (stdin_fd stdout_fd stderr_fd buffer_size : Z) (w : session_env) :
  let outcome := handle_new_process_common type cmdline cmdline_len
                   stdin_fd stdout_fd stderr_fd buffer_size w in
  (type ≠ MSG_SERVICE_CONNECT →
   cmdline = None ∨ cmdline_len = 0 ∨ MAX_QREXEC_CMD_LEN < cmdline_len →
   outcome = SAbort []) ∧
  (∀ buf, type ≠ MSG_SERVICE_CONNECT → cmdline = Some buf →
   0 < cmdline_len ≤ MAX_QREXEC_CMD_LEN →
   cmdline_len ≤ Z.of_nat (String.length buf) →
   outcome =
     if w_vchan_ok w
     then run_session type
            (c_string (store (Z.to_nat (cmdline_len - 1)) NUL buf))
            stdin_fd stdout_fd stderr_fd w [EvVchanClientInit]
     else SExit 1 [EvVchanClientInit]) ∧
  (type = MSG_SERVICE_CONNECT → 0 ≤ buffer_size →
   outcome =
     let size := if buffer_size =? 0 then 65536 else buffer_size in
     if w_vchan_ok w
     then run_session type "" stdin_fd stdout_fd stderr_fd w
            [EvVchanServerInit size; EvVchanWait]
     else SExit 1 [EvVchanServerInit size]).
Proof.
  intros outcome. subst outcome. unfold handle_new_process_common.
  repeat split.
  - intros Ht Hbad. rewrite (proj2 (Z.eqb_neq _ _) Ht).
    destruct cmdline as [buf|]; [|done].
    destruct (Z.eqb_spec cmdline_len 0); [done|].
    destruct (Z.gtb_spec cmdline_len MAX_QREXEC_CMD_LEN); [done|].
    destruct Hbad as [?|[?|?]]; [done|done|lia].
  - intros buf Ht -> Hl Hb. rewrite (proj2 (Z.eqb_neq _ _) Ht).
    destruct (Z.eqb_spec cmdline_len 0); [lia|].
    destruct (Z.gtb_spec cmdline_len MAX_QREXEC_CMD_LEN); [lia|].
    by destruct (Z.ltb_spec (Z.of_nat (String.length buf)) cmdline_len); [lia|].
  - intros -> _. by rewrite Z.eqb_refl.
Qed.

(** ** Without a local child *)

Section ServiceConnect.
Context `{qrexec_h}.
Variables (mt ver : Z).

Lemma single_socket_remote_status (e : iter_env) (s : io_state) :
  remote_process_status (state_of (single_socket e s)) = remote_process_status s.
Proof. unfold single_socket. by repeat case_match. Qed.

Lemma clear_vchan_event_remote_status (e : iter_env) (rdset : gset Z)
    (s : io_state) :
  remote_process_status (state_of (clear_vchan_event e rdset s)) =
  remote_process_status s.
Proof. unfold clear_vchan_event, handle_vchan_error. by repeat case_match. Qed.

Lemma dispatch_stdout_remote_status (e : iter_env) (rdset : gset Z)
    (s : io_state) :
  remote_process_status (state_of (dispatch_stdout mt ver e rdset s)) =
  remote_process_status s.
Proof. unfold dispatch_stdout, handle_vchan_error. by repeat case_match. Qed.

Lemma dispatch_stderr_remote_status (e : iter_env) (rdset : gset Z)
    (s : io_state) :
  remote_process_status (state_of (dispatch_stderr ver e rdset s)) =
  remote_process_status s.
Proof. unfold dispatch_stderr, handle_vchan_error. by repeat case_match. Qed.

Lemma dispatch_remote_service (e : iter_env) (s : io_state) :
  remote_process_status s = -1 → status_only_at_exit e →
  match dispatch_remote 0 ver e s with
  | Return v s' =>
      rd_rc (e_remote e) = REMOTE_EXITED ∧
      v = default (-1) (rd_status (e_remote e))
  | Go s' => remote_process_status s' = -1
  | _ => True
  end.
Proof.
  intros Hs Honly. unfold status_only_at_exit in Honly.
  destruct (rd_rc (e_remote e)) eqn:Hrc.
  - destruct (rd_status (e_remote e)) eqn:Hst;
      [by specialize (Honly ltac:(done))|].
    unfold dispatch_remote. by rewrite Hrc, Hst.
  - unfold dispatch_remote, handle_vchan_error. by rewrite Hrc.
  - destruct (rd_status (e_remote e)) eqn:Hst;
      [by specialize (Honly ltac:(done))|].
    unfold dispatch_remote. rewrite Hrc, Hst.
    by destruct (rd_closed (e_remote e)).
  - destruct (dispatch_remote_exited 0 ver e s Hrc) as (s' & -> & Hr & _).
    change (0 =? 0) with true. cbv iota. split; [done|].
    by rewrite Hr, Hs.
Qed.

Lemma wait_and_dispatch_service (es : list iter_env) (e : iter_env)
    (s : io_state) :
  e ∈ es → remote_process_status s = -1 → status_only_at_exit e →
  service_result es (wait_and_dispatch 0 mt ver e s).
Proof.
  intros He Hs Honly. unfold wait_and_dispatch.
  assert (remote_process_status (deliver_sigchld e s) = -1) as Hsig.
  { unfold deliver_sigchld. by case_match. }
  destruct (e_pselect e (select_timeout e (deliver_sigchld e s)))
    as [rd wr| |]; [|done..].
  set (rdset := build_rdset e s ∩ rd).
  pose proof (clear_vchan_event_remote_status e rdset (deliver_sigchld e s))
    as Hc.
  destruct (clear_vchan_event_outcome e rdset (deliver_sigchld e s))
    as [[s1 Hs1]|[s1 [Hs1 _]]]; rewrite Hs1 in *; [|done]. simpl in *.
  rewrite Hsig in Hc.
  pose proof (dispatch_remote_service e s1 Hc Honly) as Hr.
  pose proof (dispatch_remote_outcome 0 ver e s1) as Hout.
  destruct (dispatch_remote 0 ver e s1) as [s2|s2|s2|v s2|s2|op s2]; try done;
    cbn [flow_bind service_result] in *.
  - pose proof (dispatch_stdout_remote_status e rdset s2) as Ho.
    destruct (dispatch_stdout_outcome mt ver e rdset s2)
      as [[s3 Hs3]|[s3 Hs3]]; rewrite Hs3 in *; [|done]. simpl in *.
    pose proof (dispatch_stderr_remote_status e rdset s3) as Hx.
    destruct (dispatch_stderr_outcome ver e rdset s3)
      as [[s4 Hs4]|[s4 Hs4]]; rewrite Hs4 in *; [|done]. simpl in *.
    congruence.
  - destruct Hr as [Hrc ->].
    destruct (rd_status (e_remote e)) as [v|] eqn:Hst; [|by left].
    right. by exists e.
Qed.

Lemma loop_iteration_service (es : list iter_env) (e : iter_env)
    (s : io_state) :
  e ∈ es → remote_process_status s = -1 → status_only_at_exit e →
  service_result es (loop_iteration 0 mt ver e s) ∧
  adds no_send s (state_of (loop_iteration 0 mt ver e s)).
Proof.
  intros He Hs Honly. unfold loop_iteration.
  set (s1 := reap 0 e (deliver_sigusr1 e s)).
  assert (remote_process_status s1 = -1) as Hs1.
  { destruct (deliver_sigusr1_fields e s) as (_ & _ & _ & _ & Hr & _).
    destruct (reap_fields 0 e (deliver_sigusr1 e s)) as (_ & _ & Hr1 & _).
    subst s1. by rewrite Hr1, Hr. }
  assert (adds no_send s s1) as Hadds.
  { eapply adds_weaken; [apply fd_event_no_send | apply reap_sigusr1_adds]. }
  assert (all_done 0 s1 = false) as Hnot.
  { unfold all_done. by rewrite Hs1. }
  destruct (vchan_finished e s1) eqn:Hfin.
  - rewrite termination_test_vchan by done. simpl. done.
  - rewrite termination_test_goes_on by done. simpl. split.
    + pose proof (single_socket_remote_status e s1) as Hss.
      destruct (single_socket_outcome e s1) as [[s2 Hs2]|[s2 Hs2]];
        rewrite Hs2 in *; [|done]. simpl in *.
      apply wait_and_dispatch_service; [done|congruence|done].
    + eapply adds_trans; [done|apply rest_of_turn_adds].
Qed.

Lemma io_loop_service (es all : list iter_env) (s : io_state) :
  es ⊆ all → Forall status_only_at_exit es →
  remote_process_status s = -1 →
  service_result all (io_loop 0 mt ver es s) ∧
  adds no_send s (state_of (io_loop 0 mt ver es s)).
Proof.
  revert s. induction es as [|e es IH]; intros s Hsub Hall Hs; simpl.
  - split; [done|apply adds_refl].
  - apply Forall_cons in Hall as [He Hall].
    destruct (loop_iteration_service all e s) as [Hres Hadds];
      [set_solver|done..|].
    assert (es ⊆ all) as Hsub' by set_solver.
    destruct (loop_iteration 0 mt ver e s) as [s'|s'| | | |]; try done;
      simpl in *;
      (destruct (IH s' Hsub' Hall Hres) as [Hres' Hadds']; split; [done|];
       by eapply adds_trans).
Qed.

(** A turn that gets as far as [handle_remote_data] and has it report the
    exit of the remote. *)
Lemma turn_remote_exit (e : iter_env) (s1 : io_state) (rd wr : gset Z) :
  ¬ wound_down 0 s1 → ¬ vchan_drained e s1 →
  stdio_socket_requested s1 ≠ 1 →
  e_pselect e (select_timeout e s1) = PselectReady rd wr →
  (e_vchan_fd e ∈ rd → 0 ≤ e_vchan_wait e) →
  rd_rc (e_remote e) = REMOTE_EXITED →
  ∃ s',
    termination_test 0 e s1 >>> single_socket e >>>
      wait_and_dispatch 0 mt ver e =
      Return (default (remote_process_status s1) (rd_status (e_remote e))) s' ∧
    stdin_fd s' = stdin_fd s1 ∧ stdout_fd s' = -1 ∧ stderr_fd s' = -1 ∧
    stdin_buf s' = rd_buf (e_remote e) ∧
    io_trace s' =
      io_trace s1 ++
      (if decide (e_vchan_fd e ∈ rd) then [EvVchanWait] else []) ++
      [EvHandleRemoteData (stdin_fd s1) ver;
       EvClose (stdout_fd s1); EvClose (stderr_fd s1)].
Proof.
  intros Hw Hd Hr Hp Hwait Hrc.
  rewrite termination_test_goes_on; cycle 1.
  { destruct (all_done 0 s1) eqn:Ha; [|done].
    by apply all_done_wound_down in Ha. }
  { destruct (vchan_finished e s1) eqn:Hv; [|done].
    by apply vchan_finished_drained in Hv. }
  cbn [flow_bind]. unfold single_socket at 1.
  rewrite (proj2 (Z.eqb_neq _ _) Hr). cbn [flow_bind].
  unfold wait_and_dispatch.
  assert (select_timeout e (deliver_sigchld e s1) = select_timeout e s1) as ->.
  { unfold select_timeout, deliver_sigchld. by destruct (e_sigchld e). }
  rewrite Hp.
  set (s2 := deliver_sigchld e s1).
  assert (stdin_fd s2 = stdin_fd s1 ∧ stdout_fd s2 = stdout_fd s1 ∧
          stderr_fd s2 = stderr_fd s1 ∧
          remote_process_status s2 = remote_process_status s1 ∧
          io_trace s2 = io_trace s1) as (E0 & E1 & E2 & Er & Et).
  { subst s2. unfold deliver_sigchld. by destruct (e_sigchld e). }
  clearbody s2.
  assert (∃ s3, clear_vchan_event e (build_rdset e s1 ∩ rd) s2 = Go s3 ∧
            stdin_fd s3 = stdin_fd s1 ∧ stdout_fd s3 = stdout_fd s1 ∧
            stderr_fd s3 = stderr_fd s1 ∧
            remote_process_status s3 = remote_process_status s1 ∧
            io_trace s3 =
              io_trace s1 ++
              (if decide (e_vchan_fd e ∈ rd) then [EvVchanWait] else []))
    as (s3 & -> & F0 & F1 & F2 & Fr & Ft).
  { unfold clear_vchan_event.
    destruct (decide (e_vchan_fd e ∈ rd)) as [Hin|Hin].
    - rewrite decide_True
        by (apply elem_of_intersection; split; [|done];
            apply build_rdset_members; by left).
      destruct (Z.ltb_spec (e_vchan_wait e) 0); [specialize (Hwait Hin); lia|].
      eexists. split; [done|]. fields. by rewrite Et.
    - rewrite decide_False by (intros [_ ?]%elem_of_intersection; done).
      exists s2. by rewrite app_nil_r. }
  cbn [flow_bind].
  destruct (dispatch_remote_exited 0 ver e s3 Hrc)
    as (s' & -> & Hst & H0 & H1 & H2 & Hb & Htr).
  change (0 =? 0) with true in *. cbn [orb flow_bind] in *.
  exists s'. rewrite Hst, Fr. split; [done|].
  split; [congruence|]. repeat (split; [done|]).
  rewrite Htr, Ft, F0, F1, F2. by rewrite <- !app_assoc.
Qed.

End ServiceConnect.

(** X7. The exit of the remote ends a run without a local child at once.
    When the turns before leave the loop running and this turn gets as far as
    [handle_remote_data] (after the reaper the session is neither wound down
    nor the vchan drained, no request for a single socket is pending,
    [pselect] returns without an error and [libvchan_wait], if called, does
    not fail), and [handle_remote_data] reports the exit of the remote, then
    [process_child_io] returns from inside the loop the status that the
    report stored, or the one it had when the report stored none.  The last
    things it does are [close(stdout_fd)] and [close(stderr_fd)]: the
    teardown of lines 365-392 is skipped, [stdin_fd] is left as it is, not
    closed and not set to the sentinel, what [handle_remote_data] left in the
    staging buffer is not written, and the turns that the environment still
    offers are not taken. *)
Theorem remote_exit_returns_at_once `{qrexec_h} (mt fd0 fd1 fd2 ver : Z)
    (buf : list Z) (exited requested : Z) (tr : trace) (w : io_env)
    (es1 : list iter_env) (e : iter_env) (es2 : list iter_env)
    (s : io_state) (rd wr : gset Z) :
  io_iters w = es1 ++ e :: es2 →
  prologue (io_other_fds w)
    (initial_state 0 fd0 fd1 fd2 buf exited requested tr) >>>
    io_loop 0 mt ver es1 = Go s →
  let s1 := reap 0 e (deliver_sigusr1 e s) in
  ¬ wound_down 0 s1 → ¬ vchan_drained e s1 →
  stdio_socket_requested s1 ≠ 1 →
  e_pselect e (select_timeout e s1) = PselectReady rd wr →
  (e_vchan_fd e ∈ rd → 0 ≤ e_vchan_wait e) →
  rd_rc (e_remote e) = REMOTE_EXITED →
  ∃ s',
    process_child_io 0 mt fd0 fd1 fd2 ver buf exited requested tr w =
      Return (default (remote_process_status s1) (rd_status (e_remote e))) s' ∧
    stdin_fd s' = stdin_fd s1 ∧ stdout_fd s' = -1 ∧ stderr_fd s' = -1 ∧
    stdin_buf s' = rd_buf (e_remote e) ∧
    io_trace s' =
      io_trace s1 ++
      (if decide (e_vchan_fd e ∈ rd) then [EvVchanWait] else []) ++
      [EvHandleRemoteData (stdin_fd s1) ver;
       EvClose (stdout_fd s1); EvClose (stderr_fd s1)].
Proof.
  intros Hw Hpre s1 Hnw Hnd Hr Hp Hwait Hrc.
  destruct (turn_remote_exit mt ver e s1 rd wr Hnw Hnd Hr Hp Hwait Hrc)
    as (s' & Hturn & Hrest).
  exists s'. split; [|done].
  unfold process_child_io. rewrite Hw.
  destruct (prologue (io_other_fds w)
              (initial_state 0 fd0 fd1 fd2 buf exited requested tr))
    as [s0|s0|s0|v0 s0|s0|op0 s0]; try done.
  cbn [flow_bind] in *. rewrite io_loop_app, Hpre. cbn [flow_bind io_loop].
  unfold loop_iteration. fold s1. by rewrite Hturn.
Qed.

(** X14. Without a local child (the service-connect mode), and provided
    [handle_remote_data] stores a status only when it reports the exit of the
    remote: [process_child_io] never sends an EXIT_CODE message, all it puts
    on the vchan comes from the calls of the pump; a value it returns is -1 or
    a status that the remote reported in that run; and it does return the
    status [v] that the remote reports, when the turns before leave the loop
    running and the turn of the report gets as far as [handle_remote_data]
    (after the reaper the vchan is not drained, no request for a single
    socket is pending, [pselect] returns without an error and
    [libvchan_wait], if called, does not fail). *)
Theorem service_connect_returns_remote_status `{qrexec_h}
    (mt fd0 fd1 fd2 ver : Z) (buf : list Z) (exited requested : Z)
    (tr : trace) (w : io_env) :
  Forall status_only_at_exit (io_iters w) →
  let f := process_child_io 0 mt fd0 fd1 fd2 ver buf exited requested tr w in
  (∃ new, io_trace (state_of f) = tr ++ new ∧ Forall no_send new) ∧
  (∀ v s', f = Return v s' →
     v = -1 ∨
     ∃ e, e ∈ io_iters w ∧ rd_rc (e_remote e) = REMOTE_EXITED ∧
          rd_status (e_remote e) = Some v) ∧
  (∀ es1 e es2 s rd wr v,
     io_iters w = es1 ++ e :: es2 →
     prologue (io_other_fds w)
       (initial_state 0 fd0 fd1 fd2 buf exited requested tr) >>>
       io_loop 0 mt ver es1 = Go s →
     let s1 := reap 0 e (deliver_sigusr1 e s) in
     ¬ vchan_drained e s1 → stdio_socket_requested s1 ≠ 1 →
     e_pselect e (select_timeout e s1) = PselectReady rd wr →
     (e_vchan_fd e ∈ rd → 0 ≤ e_vchan_wait e) →
     rd_rc (e_remote e) = REMOTE_EXITED →
     rd_status (e_remote e) = Some v →
     ∃ s', f = Return v s').
Proof.
  intros Hall f. subst f. unfold process_child_io.
  set (s0 := initial_state 0 fd0 fd1 fd2 buf exited requested tr).
  assert (remote_process_status (state_of (prologue (io_other_fds w) s0)) = -1)
    as Hpr.
  { unfold prologue.
    repeat (cbn [flow_bind state_of]; case_match); by cbn [flow_bind state_of]. }
  apply and_assoc. split.
  - change tr with (io_trace s0). fold (adds no_send s0).
    pose proof (prologue_adds (io_other_fds w) s0) as Hpa.
    destruct (prologue_outcome (io_other_fds w) s0) as [[s1 Hp]|[s1 Hp]];
      rewrite Hp in *; cbn [flow_bind state_of] in *.
    + destruct (io_loop_service mt ver (io_iters w) (io_iters w) s1)
        as [Hres Hadds]; [done..|].
      assert (adds no_send s0 s1) as Hp1.
      { by eapply adds_weaken; [apply fd_event_no_send|]. }
      destruct (io_loop 0 mt ver (io_iters w) s1) as [s2|s2|s2|v s2|s2|op s2];
        cbn [finish state_of service_result] in *.
      * split; [by eapply adds_trans|done].
      * split; [by eapply adds_trans|done].
      * split.
        -- eapply adds_trans; [by eapply adds_trans|].
           eapply adds_weaken; [apply fd_event_no_send|apply teardown_adds].
        -- intros v s' [= <- <-]. left. unfold return_value.
           change (0 =? 0) with true. cbv iota.
           by destruct (teardown_statuses 0 (io_shutdown w) s2) as [_ ->].
      * split; [by eapply adds_trans|]. by intros v' s' [= <- <-].
      * split; [by eapply adds_trans|done].
      * split; [by eapply adds_trans|done].
    + split; [|done]. by eapply adds_weaken; [apply fd_event_no_send|].
  - intros es1 e es2 s rd wr v Hw Hpre Hnd Hr Hp Hwait Hrc Hst.
    set (s1 := reap 0 e (deliver_sigusr1 e s)) in *.
    rewrite Hw in *.
    destruct (prologue (io_other_fds w) s0)
      as [p|p|p|v0 p|p|op0 p]; try done.
    cbn [flow_bind state_of] in *.
    apply Forall_app in Hall as [Hall1 _].
    destruct (io_loop_service mt ver es1 es1 p) as [Hres _]; [done..|].
    rewrite Hpre in Hres. cbn [service_result] in Hres.
    assert (remote_process_status s1 = -1) as Hs1.
    { destruct (deliver_sigusr1_fields e s) as (_ & _ & _ & _ & Hr0 & _).
      destruct (reap_fields 0 e (deliver_sigusr1 e s)) as (_ & _ & Hr1 & _).
      subst s1. by rewrite Hr1, Hr0. }
    assert (¬ wound_down 0 s1) as Hnw.
    { intros (_ & Hrem & _). specialize (Hrem eq_refl). lia. }
    destruct (turn_remote_exit mt ver e s1 rd wr Hnw Hnd Hr Hp Hwait Hrc)
      as (s' & Hturn & _).
    exists s'. rewrite io_loop_app, Hpre. cbn [flow_bind io_loop].
    unfold loop_iteration. fold s1. rewrite Hturn, Hst. done.
Qed.

Section ServiceAtV3.
#[local] Existing Instance qrexec_h_v3.

Lemma service_connect_returns_remote_status_witness :
  Forall status_only_at_exit (io_iters remote_exits_with_7) ∧
  ∃ s',
    process_child_io 0 MSG_DATA_STDIN 4 5 (-1) 3 [] 0 0 [] remote_exits_with_7 =
      Return 7 s'.
Proof.
  assert (Forall status_only_at_exit (io_iters remote_exits_with_7)) as Hall.
  { repeat constructor. }
  split; [done|].
  destruct (service_connect_returns_remote_status MSG_DATA_STDIN 4 5 (-1) 3 []
              0 0 [] remote_exits_with_7 Hall) as (_ & _ & Hret).
  apply (Hret [] remote_exit_7_iter []
           (state_of (prologue (Some ∅) service_start)) {[9]} ∅ 7).
  - reflexivity.
  - reflexivity.
  - intros (_ & Hopen & _). done.
  - by vm_compute.
  - reflexivity.
  - intros _. by vm_compute.
  - reflexivity.
  - reflexivity.
Defined.

Lemma remote_exit_returns_at_once_witness :
  ∃ s',
    process_child_io 0 MSG_DATA_STDIN 4 5 (-1) 3 [] 0 0 [] remote_exits_with_7 =
      Return 7 s' ∧
    stdin_fd s' = 4 ∧ stdout_fd s' = -1 ∧ stderr_fd s' = -1 ∧
    io_trace s' =
      [EvSetNonblock 4; EvSetNonblock 5; EvVchanWait;
       EvHandleRemoteData 4 3; EvClose 5; EvClose (-1)].
Proof.
  destruct (remote_exit_returns_at_once MSG_DATA_STDIN 4 5 (-1) 3 [] 0 0 []
              remote_exits_with_7 [] remote_exit_7_iter []
              (state_of (prologue (Some ∅) service_start)) {[9]} ∅)
    as (s' & Hf & H0 & H1 & H2 & _ & Htr).
  - reflexivity.
  - reflexivity.
  - intros (_ & Hrem & _). specialize (Hrem eq_refl). by vm_compute in Hrem.
  - intros (_ & Hopen & _). done.
  - by vm_compute.
  - reflexivity.
  - intros _. by vm_compute.
  - reflexivity.
  - exists s'. split; [exact Hf|]. split; [exact H0|]. split; [exact H1|].
    split; [exact H2|]. rewrite Htr. by vm_compute.
Defined.

End ServiceAtV3.

(** ** The start of [process_child_io] *)

(** X15. Lines 190-196. When [stdin_fd] and [stdout_fd] are handed in as
    different descriptors they are kept; when they are the same descriptor,
    [stdout_fd] continues as a duplicate numbered 3 or above that is none of
    the descriptors handed in, and the function aborts exactly when that
    duplicate cannot be had: the descriptor is not an open one (as -1 is) or
    the process has no descriptor left. *)
Theorem equal_descriptors_are_separated `{qrexec_h} (pid fd0 fd1 fd2 : Z)
    (buf : list Z) (exited requested : Z) (tr : trace)
    (other : option (gset Z)) :
  match prologue other (initial_state pid fd0 fd1 fd2 buf exited requested tr)
  with
  | Go s' =>
      stdin_fd s' = fd0 ∧ stderr_fd s' = fd2 ∧
      (fd1 ≠ fd0 → stdout_fd s' = fd1) ∧
      (fd1 = fd0 →
         0 ≤ fd0 ∧ other ≠ None ∧ 3 ≤ stdout_fd s' ∧
         stdout_fd s' ≠ fd0 ∧ stdout_fd s' ≠ fd2)
  | Aborted _ => fd1 = fd0 ∧ (fd0 < 0 ∨ other = None)
  | _ => False
  end.
Proof.
  unfold prologue.
  set (s0 := initial_state pid fd0 fd1 fd2 buf exited requested tr).
  cbn [stdin_fd stdout_fd emit s0 initial_state].
  destruct (Z.eqb_spec fd1 fd0) as [->|Hne]; cbn [negb].
  - set (r := fcntl_dupfd _ _ _ _).
    assert (r = fcntl_dupfd (initial_open fd0 fd0 fd2) other fd0 3) as Hr
      by done.
    destruct (Z.ltb_spec r 0) as [Hneg|Hpos]; cbn [flow_bind].
    + split; [done|]. revert Hr. unfold fcntl_dupfd.
      destruct other as [o|]; [|by right].
      destruct (decide (fd0 ∈ initial_open fd0 fd0 fd2)) as [Hin|Hin].
      * intros Hr. destruct (lowest_free_spec (initial_open fd0 fd0 fd2 ∪ o) 3).
        lia.
      * intros _. left. rewrite initial_open_members in Hin.
        destruct (decide (fd0 < 0)); [done|]. exfalso. apply Hin.
        split; [lia|by left].
    + destruct (fcntl_dupfd_spec (initial_open fd0 fd0 fd2) other fd0 3)
        as [Hm|[Hge Hfresh]]; [lia|lia|]. rewrite <- Hr in Hge, Hfresh.
      assert (0 ≤ fd0 ∧ other ≠ None) as [Hfd0 Hother].
      { revert Hr. unfold fcntl_dupfd. destruct other as [o|]; [|lia].
        destruct (decide (fd0 ∈ initial_open fd0 fd0 fd2)) as [Hin|Hin]; [|lia].
        intros _. apply initial_open_members in Hin. by split; [lia|]. }
      case_match; cbn; (split; [done|]; split; [done|]; split; [done|];
        intros _; split; [done|]; split; [done|]; split; [done|];
        split; intros Heq; apply Hfresh, initial_open_members; (split; [lia|]);
        rewrite Heq; auto).
  - cbn [flow_bind]. case_match; cbn; by repeat split.
Qed.

(** X16. A spawn helper that fails and leaves the descriptors as
    [handle_new_process] passed them makes the session abort: with
    [stdin_fd] and [stdout_fd] equal and negative, the execute-and-wait mode
    ends in the [abort()] of line 194, after the handshake and the attempt to
    spawn, without entering the loop and without closing the vchan. *)
Theorem failed_spawn_aborts `{qrexec_h} (buf : string) (cmdline_len : Z)
    (w : session_env) :
  0 < cmdline_len ≤ MAX_QREXEC_CMD_LEN →
  cmdline_len ≤ Z.of_nat (String.length buf) →
  w_vchan_ok w = true → w_prepare_ok w = true →
  sp_stdout_fd (w_spawn w) = sp_stdin_fd (w_spawn w) →
  sp_stdin_fd (w_spawn w) < 0 →
  handle_new_process MSG_EXEC_CMDLINE (Some buf) cmdline_len w =
    SAbort ((handle_handshake (w_handshake w) [EvVchanClientInit]).2 ++
            [EvPrepareChildEnv;
             EvSpawn (sp_ret (w_spawn w)) (sp_pid (w_spawn w));
             EvSetNonblock (sp_stdin_fd (w_spawn w));
             EvDupfd (sp_stdin_fd (w_spawn w)) (-1)]).
Proof.
  intros Hl Hb Hv Hp Heq Hneg. unfold handle_new_process.
  destruct case_labels_differ as (Hd1 & Hd2 & Hd3).
  rewrite (proj2 (Z.eqb_neq _ _) Hd3).
  rewrite common_client_side by done.
  unfold run_session.
  destruct (handle_handshake (w_handshake w) [EvVchanClientInit]) as [v tr1].
  rewrite Hp. cbn [negb snd].
  rewrite (proj2 (Z.eqb_neq MSG_EXEC_CMDLINE MSG_JUST_EXEC)) by done.
  rewrite Z.eqb_refl, Heq.
  unfold process_child_io, prologue.
  cbn [stdin_fd stdout_fd emit initial_state io_trace open_fds].
  rewrite Z.eqb_refl. cbn [negb].
  assert (fcntl_dupfd
            (initial_open (sp_stdin_fd (w_spawn w)) (sp_stdin_fd (w_spawn w))
               (sp_stderr_fd (w_spawn w)))
            (io_other_fds (w_io w)) (sp_stdin_fd (w_spawn w)) 3 = -1) as ->.
  { unfold fcntl_dupfd. destruct (io_other_fds (w_io w)); [|done].
    case_decide as Hin; [|done].
    apply initial_open_members in Hin. lia. }
  cbn. by rewrite <- !app_assoc.
Qed.

Section SpawnAtV3.
#[local] Existing Instance qrexec_h_v3.

Lemma failed_spawn_aborts_witness :
  handle_new_process MSG_EXEC_CMDLINE (Some sleep_cmdline) sleep_cmdline_len
    failed_spawn_session =
  SAbort
    [EvVchanClientInit;
     EvSendHdr {| hdr_type := 0x300; hdr_len := 4 |};
     EvSendInfo {| info_version := 3 |}; EvRecvHdr; EvRecvInfo;
     EvPrepareChildEnv; EvSpawn (-1) 0; EvSetNonblock (-1); EvDupfd (-1) (-1)].
Proof.
  rewrite (failed_spawn_aborts sleep_cmdline sleep_cmdline_len
             failed_spawn_session); by vm_compute.
Defined.

End SpawnAtV3.

(** ** What the pumps are called with *)

Section PumpArguments.
Context `{qrexec_h}.
Variables (pid mt ver : Z).

Lemma fd_event_pump_arguments (ev : event) :
  is_fd_event ev → pump_arguments mt ver ev.
Proof. by destruct ev. Qed.

Lemma exit_code_send_pump_arguments (ev : event) :
  is_exit_code_send ev → pump_arguments mt ver ev.
Proof. by destruct ev. Qed.

Lemma handshake_event_pump_arguments (ev : event) :
  is_handshake_event ev → pump_arguments mt ver ev.
Proof. by destruct ev. Qed.

Lemma dispatch_remote_adds_args (e : iter_env) (s : io_state) :
  adds (pump_arguments mt ver) s (state_of (dispatch_remote pid ver e s)).
Proof.
  unfold dispatch_remote, handle_vchan_error.
  repeat case_match; cbn [state_of]; adds_auto.
Qed.

Lemma dispatch_stdout_adds_args (e : iter_env) (rdset : gset Z) (s : io_state) :
  adds (pump_arguments mt ver) s (state_of (dispatch_stdout mt ver e rdset s)).
Proof.
  unfold dispatch_stdout, handle_vchan_error.
  repeat case_match; cbn [state_of]; adds_auto;
    apply adds_emit; repeat constructor; by left.
Qed.

Lemma dispatch_stderr_adds_args (e : iter_env) (rdset : gset Z) (s : io_state) :
  adds (pump_arguments mt ver) s (state_of (dispatch_stderr ver e rdset s)).
Proof.
  unfold dispatch_stderr, handle_vchan_error.
  repeat case_match; cbn [state_of]; adds_auto;
    apply adds_emit; repeat constructor; by right.
Qed.

Lemma clear_vchan_event_adds_wait (e : iter_env) (rdset : gset Z)
    (s : io_state) :
  adds (λ ev, ev = EvVchanWait) s (state_of (clear_vchan_event e rdset s)).
Proof.
  unfold clear_vchan_event, handle_vchan_error.
  repeat case_match; cbn [state_of]; adds_auto.
Qed.

Lemma wait_and_dispatch_adds_args (e : iter_env) (s : io_state) :
  adds (pump_arguments mt ver) s
    (state_of (wait_and_dispatch pid mt ver e s)).
Proof.
  unfold wait_and_dispatch.
  assert (adds (pump_arguments mt ver) s (deliver_sigchld e s)) as Hsig.
  { unfold deliver_sigchld. case_match; adds_auto. }
  destruct (e_pselect e (select_timeout e (deliver_sigchld e s))) as [rd wr| |];
    [|done..].
  repeat apply bind_adds.
  - eapply adds_trans; [exact Hsig|].
    eapply adds_weaken; [|apply clear_vchan_event_adds_wait]. by intros ? ->.
  - intros s1. apply dispatch_remote_adds_args.
  - intros s1. apply dispatch_stdout_adds_args.
  - intros s1. apply dispatch_stderr_adds_args.
Qed.

Lemma loop_iteration_adds_args (e : iter_env) (s : io_state) :
  adds (pump_arguments mt ver) s (state_of (loop_iteration pid mt ver e s)).
Proof.
  unfold loop_iteration. repeat apply bind_adds.
  - eapply adds_trans.
    + eapply adds_weaken; [apply fd_event_pump_arguments|].
      apply reap_sigusr1_adds.
    + eapply adds_weaken; [apply exit_code_send_pump_arguments|].
      apply termination_test_adds.
  - intros s1. eapply adds_weaken; [apply fd_event_pump_arguments|].
    apply single_socket_adds.
  - intros s1. apply wait_and_dispatch_adds_args.
Qed.

Lemma process_child_io_adds_args (fd0 fd1 fd2 : Z) (buf : list Z)
    (exited requested : Z) (tr : trace) (w : io_env) :
  Forall (pump_arguments mt ver) tr →
  Forall (pump_arguments mt ver)
    (io_trace (state_of (process_child_io pid mt fd0 fd1 fd2 ver buf exited
                           requested tr w))).
Proof.
  intros Htr.
  assert (adds (pump_arguments mt ver)
            (initial_state pid fd0 fd1 fd2 buf exited requested tr)
            (state_of (process_child_io pid mt fd0 fd1 fd2 ver buf exited
                         requested tr w))) as (new & -> & Hnew).
  { unfold process_child_io.
    set (s0 := initial_state pid fd0 fd1 fd2 buf exited requested tr).
    assert (adds (pump_arguments mt ver) s0
              (state_of (prologue (io_other_fds w) s0 >>>
                         io_loop pid mt ver (io_iters w)))) as Hloop.
    { apply bind_adds.
      - eapply adds_weaken; [apply fd_event_pump_arguments|].
        apply prologue_adds.
      - intros s1.
        apply (io_loop_invariant pid mt ver (adds (pump_arguments mt ver) s1));
          [|apply adds_refl].
        intros e s2 _ Hs2.
        eapply adds_trans; [done|apply loop_iteration_adds_args]. }
    destruct (prologue (io_other_fds w) s0 >>> io_loop pid mt ver (io_iters w));
      try done.
    cbn [finish state_of] in *. eapply adds_trans; [done|].
    eapply adds_weaken; [apply fd_event_pump_arguments|apply teardown_adds]. }
  by apply Forall_app.
Qed.

End PumpArguments.

Ltac forall_args :=
  repeat first
    [ done
    | apply Forall_app; split
    | apply Forall_nil_2
    | apply Forall_cons; split; [by cbn|] ].

Lemma handle_handshake_value `{qrexec_h} (w : handshake_env) (tr : trace) :
  (handle_handshake w tr).1 = (handle_handshake w []).1.
Proof. unfold handle_handshake. by repeat case_match. Qed.

(** X17. The handshake parameterizes the pumps. Every call of
    [handle_remote_data] and of [handle_input] that a session makes is given,
    as protocol version, the value that [handle_handshake] returned for the
    session, be it -1; and every call of [handle_input] frames what it reads
    as stderr data or with the session's stdout message type, which the
    service-connect mode sets to MSG_DATA_STDIN. *)
Theorem pumps_get_the_handshake_result `{qrexec_h} (type : Z)
    (cmdline : option string) (cmdline_len : Z)
    (stdin_fd stdout_fd stderr_fd buffer_size : Z) (w : session_env) :
  Forall
    (pump_arguments
       (if type =? MSG_SERVICE_CONNECT then MSG_DATA_STDIN
        else w_stdout_msg_type w)
       (handle_handshake (w_handshake w) []).1)
    (outcome_trace
       (handle_new_process_common type cmdline cmdline_len
          stdin_fd stdout_fd stderr_fd buffer_size w)).
Proof.
  set (mt := if type =? MSG_SERVICE_CONNECT then MSG_DATA_STDIN
             else w_stdout_msg_type w).
  set (ver := (handle_handshake (w_handshake w) []).1).
  assert (∀ cmd tr, Forall (pump_arguments mt ver) tr →
            Forall (pump_arguments mt ver)
              (outcome_trace
                 (run_session type cmd stdin_fd stdout_fd stderr_fd w tr)))
    as Hrun.
  { intros cmd tr Htr. unfold run_session.
    pose proof (handle_handshake_value (w_handshake w) tr) as Hv.
    destruct (handle_handshake_adds (w_handshake w) tr) as (new & Hnew & Hhs).
    destruct (handle_handshake (w_handshake w) tr) as [v tr1].
    simpl in Hv, Hnew. fold ver in Hv. subst v tr1.
    assert (Forall (pump_arguments mt ver) (tr ++ new)) as Htr1.
    { apply Forall_app. split; [done|].
      eapply Forall_impl; [done|]. apply handshake_event_pump_arguments. }
    assert (∀ f, Forall (pump_arguments mt ver) (io_trace (state_of f)) →
              Forall (pump_arguments mt ver)
                (outcome_trace (close_and_return f))) as Hclose.
    { intros [] Hf; simpl in *; try done. forall_args. }
    destruct (w_prepare_ok w); cbn [negb]; [|simpl; forall_args].
    destruct (Z.eqb_spec type MSG_JUST_EXEC) as [Hje|Hje].
    { unfold handle_just_exec.
      assert (∀ status tr2, Forall (pump_arguments mt ver) tr2 →
                Forall (pump_arguments mt ver)
                  (outcome_trace
                     match send_exit_code (w_send_hdr w) (w_send_status w)
                             status tr2 with
                     | SendDone tr => SReturn 0 (tr ++ [EvVchanClose])
                     | SendVchanError op tr => SVchanError op tr
                     end)) as Hsend.
      { intros status tr2 Htr2. rewrite send_exit_code_cases.
        destruct (w_send_hdr w <? 0); [simpl; forall_args|].
        destruct (w_send_status w <? 0); simpl; forall_args. }
      destruct (split_colon cmd) as [[before after]|];
        [|apply Hsend; forall_args].
      destruct (w_fork w =? -1); [apply Hsend; forall_args|].
      destruct (w_fork w =? 0); [simpl; forall_args|].
      apply Hsend. forall_args. }
    destruct (Z.eqb_spec type MSG_EXEC_CMDLINE) as [Hec|Hec].
    { apply Hclose. subst mt.
      destruct case_labels_differ as (_ & _ & Hd).
      subst type. rewrite (proj2 (Z.eqb_neq _ _) Hd) in *.
      apply process_child_io_adds_args. forall_args. }
    destruct (Z.eqb_spec type MSG_SERVICE_CONNECT) as [Hsc|Hsc].
    { apply Hclose. subst mt. subst type. try rewrite Z.eqb_refl in *.
      apply process_child_io_adds_args. forall_args. }
    simpl. forall_args. }
  unfold handle_new_process_common.
  destruct (type =? MSG_SERVICE_CONNECT) eqn:Ht.
  - destruct (w_vchan_ok w); [|by repeat constructor].
    apply Hrun. by repeat constructor.
  - destruct cmdline as [buf|]; [|constructor].
    destruct (cmdline_len =? 0); [constructor|].
    destruct (cmdline_len >? MAX_QREXEC_CMD_LEN); [constructor|].
    destruct (Z.of_nat (String.length buf) <? cmdline_len); [constructor|].
    destruct (w_vchan_ok w); [|by repeat constructor].
    apply Hrun. by repeat constructor.
Qed.

(** ** The wound-down session ends with its exit code *)

(** X18. A turn that finds the session wound down with an exit code of
    the local child above -1 (after the reaper has run) sends the EXIT_CODE
    message with that code, when neither send reports an error, and leaves
    the loop; [process_child_io] then returns without touching a descriptor
    again: with a local child it returns the code it has just sent, without
    one the status of the remote. *)
Theorem wound_down_sends_exit_code `{qrexec_h} (pid mt ver : Z)
    (e : iter_env) (es : list iter_env) (shut : Z → shut_how → shut_res)
    (s : io_state) :
  let s1 := reap pid e (deliver_sigusr1 e s) in
  wound_down pid s1 → -1 < child_process_status s1 →
  0 ≤ e_send_hdr e → 0 ≤ e_send_status e →
  ∃ s',
    finish pid shut (io_loop pid mt ver (e :: es) s) =
      Return (if pid =? 0 then remote_process_status s1
              else child_process_status s1) s' ∧
    io_trace s' =
      io_trace s1 ++ [EvSendHdr exit_code_hdr;
                      EvSendStatus (child_process_status s1)] ∧
    all_closed s'.
Proof.
  intros s1 Hw Hst Hs1 Hs2. simpl. unfold loop_iteration. fold s1.
  clearbody s1.
  rewrite termination_test_all_done by by apply all_done_wound_down.
  destruct (Z.gtb_spec (child_process_status s1) (-1)); [|lia].
  rewrite send_exit_code_cases.
  destruct (Z.ltb_spec (e_send_hdr e) 0); [lia|].
  destruct (Z.ltb_spec (e_send_status e) 0); [lia|].
  cbn [flow_bind finish].
  set (s2 := set_io_trace _ s1).
  assert (teardown pid shut s2 = s2) as ->.
  { destruct Hw as (_ & _ & Hfd0 & Hfd1 & Hfd2). unfold teardown.
    subst s2. fields. rewrite Hfd1, Z.eqb_refl. cbn [negb]. fields.
    rewrite Hfd0, Z.eqb_refl. cbn [negb]. fields.
    by rewrite Hfd2, Z.eqb_refl. }
  exists s2. split; [|split].
  - by unfold return_value.
  - done.
  - by destruct Hw as (_ & _ & ?).
Qed.

Section WoundDownAtV3.
#[local] Existing Instance qrexec_h_v3.

Lemma wound_down_sends_exit_code_witness :
  let s := state_of (io_loop 1234 MSG_DATA_STDOUT 3 [all_at_end_iter]
                       (exec_start 0)) in
  ∃ s',
    finish 1234 pipes
      (io_loop 1234 MSG_DATA_STDOUT 3 (reaped_ring_full_iter :: []) s) =
      Return 0 s' ∧ all_closed s'.
Proof.
  intros s.
  destruct (wound_down_sends_exit_code 1234 MSG_DATA_STDOUT 3
              reaped_ring_full_iter [] pipes s) as (s' & Hf & _ & Hc).
  - by vm_compute.
  - by vm_compute.
  - by vm_compute.
  - by vm_compute.
  - exists s'. split; [|done]. rewrite Hf. f_equal.
Defined.

End WoundDownAtV3.

(** ** The request for a single socket *)

Section SingleSocket.
Context `{qrexec_h}.
Variables (pid mt ver : Z).

Lemma reap_sigusr1_no_dup (e : iter_env) (s : io_state) :
  adds no_dup s (reap pid e (deliver_sigusr1 e s)).
Proof.
  apply (adds_trans _ _ (deliver_sigusr1 e s)).
  - unfold deliver_sigusr1. case_match; adds_auto.
  - unfold reap. repeat case_match; adds_auto.
Qed.

Lemma reap_sigusr1_requested (e : iter_env) (s : io_state) :
  stdio_socket_requested (reap pid e (deliver_sigusr1 e s)) =
  stdio_socket_requested (deliver_sigusr1 e s).
Proof. by destruct (reap_fields pid e (deliver_sigusr1 e s)) as (_&_&_&_&->). Qed.

Lemma termination_test_no_dup (e : iter_env) (s : io_state) :
  adds no_dup s (state_of (termination_test pid e s)).
Proof.
  eapply adds_weaken; [|apply termination_test_adds]. intros ev. by destruct ev.
Qed.

Lemma termination_test_requested (e : iter_env) (s : io_state) :
  stdio_socket_requested (state_of (termination_test pid e s)) =
  stdio_socket_requested s.
Proof.
  unfold termination_test, send_exit_code_in_loop, handle_vchan_error.
  by repeat case_match.
Qed.

Lemma termination_test_is_not_continue (e : iter_env) (s s' : io_state) :
  termination_test pid e s ≠ Continue s'.
Proof.
  unfold termination_test, send_exit_code_in_loop, handle_vchan_error.
  by repeat case_match.
Qed.

Lemma clear_vchan_event_requested (e : iter_env) (rdset : gset Z)
    (s : io_state) :
  stdio_socket_requested (state_of (clear_vchan_event e rdset s)) =
  stdio_socket_requested s.
Proof. unfold clear_vchan_event, handle_vchan_error. by repeat case_match. Qed.

Lemma dispatch_remote_requested (e : iter_env) (s : io_state) :
  stdio_socket_requested (state_of (dispatch_remote pid ver e s)) =
  stdio_socket_requested s.
Proof.
  unfold dispatch_remote, handle_vchan_error.
  repeat case_match; cbn [state_of]; by norm_fields.
Qed.

Lemma dispatch_stdout_requested (e : iter_env) (rdset : gset Z)
    (s : io_state) :
  stdio_socket_requested (state_of (dispatch_stdout mt ver e rdset s)) =
  stdio_socket_requested s.
Proof.
  unfold dispatch_stdout, handle_vchan_error.
  repeat case_match; cbn [state_of]; by norm_fields.
Qed.

Lemma dispatch_stderr_requested (e : iter_env) (rdset : gset Z)
    (s : io_state) :
  stdio_socket_requested (state_of (dispatch_stderr ver e rdset s)) =
  stdio_socket_requested s.
Proof.
  unfold dispatch_stderr, handle_vchan_error.
  repeat case_match; cbn [state_of]; by norm_fields.
Qed.

Lemma wait_and_dispatch_requested (e : iter_env) (s : io_state) :
  stdio_socket_requested (state_of (wait_and_dispatch pid mt ver e s)) =
  stdio_socket_requested s.
Proof.
  unfold wait_and_dispatch.
  assert (stdio_socket_requested (deliver_sigchld e s) =
          stdio_socket_requested s)
    as Hsig by (unfold deliver_sigchld; by case_match).
  destruct (e_pselect e (select_timeout e (deliver_sigchld e s))); [|done..].
  rewrite <- Hsig.
  repeat apply (bind_keeps stdio_socket_requested); intros.
  - apply clear_vchan_event_requested.
  - apply dispatch_remote_requested.
  - apply dispatch_stdout_requested.
  - apply dispatch_stderr_requested.
Qed.

Lemma wait_and_dispatch_no_dup (e : iter_env) (s : io_state) :
  adds no_dup s (state_of (wait_and_dispatch pid mt ver e s)).
Proof.
  unfold wait_and_dispatch.
  assert (adds no_dup s (deliver_sigchld e s)) as Hsig.
  { unfold deliver_sigchld. case_match; adds_auto. }
  destruct (e_pselect e (select_timeout e (deliver_sigchld e s))) as [rd wr| |];
    [|done..].
  repeat apply bind_adds.
  - eapply adds_trans; [exact Hsig|].
    eapply adds_weaken; [|apply clear_vchan_event_adds_wait]. by intros ? ->.
  - intros s1. unfold dispatch_remote, handle_vchan_error.
    repeat case_match; cbn [state_of]; adds_auto.
  - intros s1. unfold dispatch_stdout, handle_vchan_error.
    repeat case_match; cbn [state_of]; adds_auto.
  - intros s1. unfold dispatch_stderr, handle_vchan_error.
    repeat case_match; cbn [state_of]; adds_auto.
Qed.

(** The step of lines 238-256 does nothing unless the flag holds 1; when it
    does, it makes one duplication and either aborts or stores 2. *)
Lemma single_socket_dups (e : iter_env) (s : io_state) :
  (stdio_socket_requested s ≠ 1 → single_socket e s = Go s) ∧
  (stdio_socket_requested s = 1 →
   ∃ d s', is_dup d = true ∧ io_trace s' = io_trace s ++ [d] ∧
     (single_socket e s = Aborted s' ∨
      (single_socket e s = Go s' ∧ stdio_socket_requested s' = 2))).
Proof.
  unfold single_socket. split; intros Hr.
  - by rewrite (proj2 (Z.eqb_neq _ _) Hr).
  - rewrite Hr, Z.eqb_refl.
    destruct (negb (stdout_fd s =? -1)).
    + exists (EvDup3 (stdin_fd s) (stdout_fd s)).
      destruct (negb (e_dup3_errno e =? 0)); eexists;
        (split; [done|]); (split; [|eauto]); done.
    + exists (EvDupfd (stdin_fd s)
                (fcntl_dupfd (open_fds s) (e_other_fds e) (stdin_fd s) 3)).
      destruct (fcntl_dupfd (open_fds s) (e_other_fds e) (stdin_fd s) 3 <? 3);
        eexists; (split; [done|]); (split; [|eauto]); done.
Qed.

Lemma deliver_sigusr1_requested (e : iter_env) (s : io_state) :
  stdio_socket_requested (deliver_sigusr1 e s) =
    (if e_sigusr1 e then 1 else stdio_socket_requested s).
Proof. unfold deliver_sigusr1. by case_match. Qed.

Lemma dups_app (tr1 tr2 : trace) : dups (tr1 ++ tr2) = dups tr1 ++ dups tr2.
Proof. apply filter_app. Qed.

Lemma dups_no_dup (tr : trace) : Forall no_dup tr → dups tr = [].
Proof.
  induction 1 as [|ev tr Hev _ IH]; [done|].
  unfold dups in *. rewrite filter_cons. unfold no_dup in Hev.
  case_decide; [congruence|done].
Qed.

Lemma dups_nil (tr : trace) : dups tr = [] → Forall no_dup tr.
Proof.
  induction tr as [|ev tr IH]; [done|].
  unfold dups in *. rewrite filter_cons. case_decide as Hev; [done|].
  intros Hnil. constructor; [|by apply IH].
  unfold no_dup. by destruct (is_dup ev).
Qed.

Lemma dups_one (d : event) : (length (dups [d]) ≤ 1)%nat.
Proof. unfold dups. rewrite filter_cons. case_decide; simpl; lia. Qed.

(** One turn of the loop, by what the flag holds once SIGUSR1 is in. *)
Lemma loop_iteration_dups (e : iter_env) (s : io_state) :
  let f := loop_iteration pid mt ver e s in
  let r := stdio_socket_requested (deliver_sigusr1 e s) in
  ∃ new,
    io_trace (state_of f) = io_trace s ++ new ∧
    (r ≠ 1 → dups new = [] ∧ stdio_socket_requested (state_of f) = r) ∧
    (r = 1 → (length (dups new) ≤ 1)%nat ∧
             (leaves_loop f = false → stdio_socket_requested (state_of f) = 2)).
Proof.
  intros f r. subst f. unfold loop_iteration.
  set (s1 := reap pid e (deliver_sigusr1 e s)).
  assert (stdio_socket_requested s1 = r) as Hr1
    by apply reap_sigusr1_requested.
  destruct (reap_sigusr1_no_dup e s) as (n1 & Hn1 & Fn1). fold s1 in Hn1.
  apply dups_no_dup in Fn1.
  pose proof (termination_test_no_dup e s1) as (n2 & Hn2 & Fn2).
  apply dups_no_dup in Fn2.
  pose proof (termination_test_requested e s1) as Hr2.
  pose proof (termination_test_is_not_continue e s1) as Hnc.
  destruct (termination_test pid e s1) as [s2|s2|s2|v s2|s2|op s2];
    cbn [flow_bind state_of leaves_loop] in *;
    try (exists (n1 ++ n2); rewrite Hn2, Hn1, <- app_assoc;
         split; [done|]; rewrite dups_app, Fn1, Fn2;
         split; [intros _; split; [done|congruence]|
           intros _; split; [simpl; lia|done]]).
  - destruct (single_socket_dups e s2) as [Hno Hyes].
    pose proof (wait_and_dispatch_no_dup e) as Hw.
    pose proof (wait_and_dispatch_requested e) as Hwr.
    destruct (decide (r = 1)) as [Hr|Hr].
    + destruct Hyes as (d & s3 & Hd & Hs3 & [->| [-> Hr3]]); [congruence| |].
      * cbn [flow_bind state_of leaves_loop].
        exists (n1 ++ n2 ++ [d]). rewrite Hs3, Hn2, Hn1, <- !app_assoc.
        split; [done|]. split; [done|]. intros _. split; [|done].
        rewrite !dups_app, Fn1, Fn2. apply dups_one.
      * cbn [flow_bind]. destruct (Hw s3) as (n3 & Hn3 & Fn3).
        apply dups_no_dup in Fn3.
        exists (n1 ++ n2 ++ [d] ++ n3).
        rewrite Hn3, Hs3, Hn2, Hn1, <- !app_assoc.
        split; [done|]. split; [done|]. intros _. split.
        -- rewrite !dups_app, Fn1, Fn2, Fn3, app_nil_r. apply dups_one.
        -- intros _. by rewrite Hwr.
    + rewrite Hno by congruence. cbn [flow_bind].
      destruct (Hw s2) as (n3 & Hn3 & Fn3). apply dups_no_dup in Fn3.
      exists (n1 ++ n2 ++ n3). rewrite Hn3, Hn2, Hn1, <- !app_assoc.
      split; [done|]. split; [|done]. intros _. split.
      * by rewrite !dups_app, Fn1, Fn2, Fn3.
      * rewrite Hwr. congruence.
  - by destruct (Hnc s2).
Qed.

Lemma socket_requests_cons (e : iter_env) (es : list iter_env)
    (s : io_state) :
  socket_requests s (e :: es) =
    ((if (stdio_socket_requested s =? 1)%Z then 1 else 0) +
     ((if e_sigusr1 e then 1 else 0) + handler_runs es))%nat.
Proof.
  unfold socket_requests, handler_runs. rewrite filter_cons.
  destruct (e_sigusr1 e); case_decide; try done; simpl; lia.
Qed.

Lemma io_loop_dups (es : list iter_env) (s : io_state) :
  ∃ new,
    io_trace (state_of (io_loop pid mt ver es s)) = io_trace s ++ new ∧
    (length (dups new) ≤ socket_requests s es)%nat.
Proof.
  revert s. induction es as [|e es IH]; intros s.
  { exists []. simpl. rewrite app_nil_r. split; [done|]. simpl. lia. }
  destruct (loop_iteration_dups e s) as (n1 & Hn1 & Hno & Hyes).
  rewrite deliver_sigusr1_requested in Hno, Hyes.
  rewrite socket_requests_cons.
  assert (length (dups n1) ≤
          (if (stdio_socket_requested s =? 1)%Z then 1 else 0) +
          (if e_sigusr1 e then 1 else 0))%nat as Hturn.
  { destruct (e_sigusr1 e).
    - destruct Hyes as [Hle _]; [done|]. lia.
    - destruct (Z.eqb_spec (stdio_socket_requested s) 1) as [H1|H1].
      + destruct Hyes as [Hle _]; [done|]. lia.
      + destruct Hno as [-> _]; [done|]. simpl. lia. }
  assert (∀ s1, state_of (loop_iteration pid mt ver e s) = s1 →
                leaves_loop (loop_iteration pid mt ver e s) = false →
          ∃ new,
            io_trace (state_of (io_loop pid mt ver es s1)) =
              io_trace s ++ new ∧
            (length (dups new) ≤
             (if (stdio_socket_requested s =? 1)%Z then 1 else 0) +
             ((if e_sigusr1 e then 1 else 0) + handler_runs es))%nat) as Hgo.
  { intros s1 Hst Hl. destruct (IH s1) as (n2 & Hn2 & Hle2).
    rewrite Hst in *. exists (n1 ++ n2). rewrite Hn2, Hn1, <- app_assoc.
    split; [done|]. rewrite dups_app, length_app.
    unfold socket_requests in Hle2.
    destruct (e_sigusr1 e).
    - destruct Hyes as [Hle1 Hr2]; [done|]. rewrite (Hr2 Hl) in Hle2.
      simpl in Hle2. lia.
    - destruct (Z.eqb_spec (stdio_socket_requested s) 1) as [H1|H1].
      + destruct Hyes as [Hle1 Hr2]; [done|]. rewrite (Hr2 Hl) in Hle2.
        simpl in Hle2. lia.
      + destruct Hno as [Hn Hr2]; [done|]. rewrite Hn, Hr2 in *.
        rewrite (proj2 (Z.eqb_neq _ _) H1) in Hle2. simpl in *. lia. }
  simpl.
  destruct (loop_iteration pid mt ver e s) as [s1|s1|s1|v s1|s1|op s1];
    cbn [state_of leaves_loop] in *;
    first [ by apply Hgo | exists n1; split; [done|lia] ].
Qed.

End SingleSocket.

(** X19. The loop of [process_child_io] duplicates a descriptor only to
    serve a request for a single socket, and serves each request at most
    once: in a run of the loop the duplications ([dup3] of [stdin_fd] onto
    [stdout_fd], or [fcntl] when [stdout_fd] is closed) are no more than the
    requests, which are the 1 that the flag [stdio_socket_requested] may hold
    when the loop is entered and one for each run of the handler of SIGUSR1,
    which stores 1 whatever the flag held.  So a run with the flag not at 1
    on entry and no SIGUSR1 duplicates nothing, and one in which the handler
    runs once (it has the signal ignored from then on) duplicates at most
    once more than the flag asked for on entry. *)
Theorem single_socket_served_once `{qrexec_h} (pid mt ver : Z)
    (es : list iter_env) (s : io_state) :
  let new := new_events s (state_of (io_loop pid mt ver es s)) in
  io_trace (state_of (io_loop pid mt ver es s)) = io_trace s ++ new ∧
  (length (dups new) ≤ socket_requests s es)%nat ∧
  (stdio_socket_requested s ≠ 1 ∧ Forall (λ e, e_sigusr1 e = false) es →
     Forall no_dup new).
Proof.
  intros new. subst new. unfold new_events.
  destruct (io_loop_dups pid mt ver es s) as (n & -> & Hle).
  rewrite drop_app_length. split; [done|]. split; [done|].
  intros [Hr Hes].
  assert (handler_runs es = 0%nat) as Hruns.
  { unfold handler_runs. clear Hle.
    induction Hes as [|e es He _ IH]; [done|].
    rewrite filter_cons. case_decide; [congruence|done]. }
  unfold socket_requests in Hle.
  rewrite Hruns, (proj2 (Z.eqb_neq _ _) Hr) in Hle.
  apply dups_nil, nil_length_inv. simpl in Hle. lia.
Qed.

Section SingleSocketAtV3.
#[local] Existing Instance qrexec_h_v3.

(** A run of the handler serves a request again after an earlier one was
    served: with the flag at 2 when the loop is entered, the turn before
    which the handler ran duplicates [stdin_fd] onto [stdout_fd]. *)
Lemma handler_run_is_served_again :
  dups (new_events (initial_state 1234 4 5 6 [] 0 2 [])
          (state_of (io_loop 1234 MSG_DATA_STDOUT 3 [sigusr1_iter]
                       (initial_state 1234 4 5 6 [] 0 2 [])))) =
  [EvDup3 4 5].
Proof. by vm_compute. Qed.

End SingleSocketAtV3.

(** ** The session from its start to its end *)

Section Session.
Context `{qrexec_h}.
Variables (pid mt ver : Z).

Lemma sent_status_recorded (fd0 fd1 fd2 : Z) (buf : list Z)
    (exited requested : Z) (tr : trace) (w : io_env) (v : Z) :
  0 < pid →
  EvSendStatus v ∈
    drop (length tr)
      (io_trace (state_of (process_child_io pid mt fd0 fd1 fd2 ver buf exited
                             requested tr w))) →
  ∃ e, e ∈ io_iters w ∧ 0 < e_waitpid_ret e ∧
       v = wait_status_to_exit_code (e_waitpid_status e).
Proof.
  intros Hpid Hin.
  pose proof (process_child_io_status_recorded pid mt ver fd0 fd1 fd2 buf
                exited requested tr w) as Hrec.
  destruct (process_child_io_shape pid mt ver fd0 fd1 fd2 buf exited requested
              tr w) as (new & pumps & tail & Hnew & Hout & Hp & Htail).
  rewrite Hnew, drop_app_length in Hin.
  assert (EvSendStatus v ∈ outbound new) as Hin'.
  { unfold outbound. by apply list_elem_of_filter. }
  rewrite Hout in Hin'. apply elem_of_app in Hin' as [Hin'|Hin'].
  { rewrite Forall_forall in Hp. by apply Hp in Hin'. }
  destruct Htail as [->|([->| ->] & _ & Hst & _)].
  - by apply elem_of_nil in Hin'.
  - apply list_elem_of_singleton in Hin'. done.
  - apply elem_of_cons in Hin' as [Heq|Hin']; [done|].
    apply list_elem_of_singleton in Hin'. injection Hin' as ->.
    destruct Hrec as [Hm|(e & He & _ & Hw & Hc)].
    + destruct (Z.gtb_spec pid 0); lia.
    + by exists e.
Qed.

Lemma exit_code_for_translation (status : Z) :
  exit_code_for status (wait_status_to_exit_code status).
Proof.
  split.
  - intros sig core Hs ->. by apply exit_code_of_signal.
  - intros ret Hr ->. by apply exit_code_of_exit.
Qed.




End Session.




(** C8, as the code has it. In every turn [stdout_fd] and [stderr_fd] are
    put in the read set only when the free space of the vchan exceeds the
    size of a message header, and so every call of [handle_input] of the turn
    on a descriptor other than the vchan's is made with that much room.  The
    sends of this file are not gated: a turn that finds the session wound
    down with an exit code sends the EXIT_CODE header whatever the free
    space is. *)
Theorem reads_gated_exit_code_is_not `{qrexec_h} (pid mt ver : Z)
    (e : iter_env) (s : io_state) :
  let s1 := reap pid e (deliver_sigusr1 e s) in
  let new := new_events s (state_of (loop_iteration pid mt ver e s)) in
  (∀ fd, fd ∈ build_rdset e s → fd ≠ e_vchan_fd e →
     sizeof_msg_header < e_buffer_space e) ∧
  (∀ fd type version, EvHandleInput fd type version ∈ new →
     fd ≠ e_vchan_fd e → sizeof_msg_header < e_buffer_space e) ∧
  (wound_down pid s1 → -1 < child_process_status s1 →
     EvSendHdr exit_code_hdr ∈ new).
Proof.
  intros s1 new. split; [|split].
  - intros fd Hin Hne. apply build_rdset_members in Hin. intuition.
  - intros fd type version Hin Hne.
    set (Q := λ ev, match ev with
                    | EvHandleInput fd _ _ =>
                        fd ≠ e_vchan_fd e → sizeof_msg_header < e_buffer_space e
                    | _ => True
                    end).
    assert (adds Q s (state_of (loop_iteration pid mt ver e s))) as Hadds.
    { unfold loop_iteration. repeat apply bind_adds.
      - eapply adds_trans.
        + eapply adds_weaken; [|apply reap_sigusr1_adds]. by intros [].
        + eapply adds_weaken; [|apply termination_test_adds]. by intros [].
      - intros s2. eapply adds_weaken; [|apply single_socket_adds]. by intros [].
      - intros s2. eapply adds_weaken; [|apply wait_and_dispatch_adds].
        intros [] [Hl|Hp]; simpl in *; try done.
        intros Hv. apply build_rdset_members in Hp. intuition. }
    apply adds_new_events in Hadds as [_ HQ].
    rewrite Forall_forall in HQ. by apply (HQ _ Hin).
  - intros Hw Hst. subst new. unfold loop_iteration. fold s1.
    destruct (reap_sigusr1_adds pid e s) as (n1 & Hn1 & _). fold s1 in Hn1.
    rewrite termination_test_all_done by by apply all_done_wound_down.
    destruct (Z.gtb_spec (child_process_status s1) (-1)); [|lia].
    rewrite send_exit_code_cases. unfold new_events.
    destruct (e_send_hdr e <? 0); [|destruct (e_send_status e <? 0)];
      cbn [flow_bind state_of io_trace set_io_trace];
      rewrite Hn1, <- app_assoc, drop_app_length;
      apply elem_of_app; right; by left.
Qed.

(** C9. With a local child: the exit code the reaper records for a reaped
    child is 128 + N when signal N terminated it, core dumped or not, and the
    exit status when it exited; and every status that [process_child_io]
    sends in an EXIT_CODE message is the code so recorded for a wait status
    that [waitpid] reported in that run. *)
Theorem reaped_exit_code_translation `{qrexec_h} (pid mt fd0 fd1 fd2 ver : Z)
    (buf : list Z) (exited requested : Z) (tr : trace) (w : io_env) :
  0 < pid →
  let f := process_child_io pid mt fd0 fd1 fd2 ver buf exited requested tr w in
  (∀ e s, child_exited s ≠ 0 → 0 < e_waitpid_ret e →
     exit_code_for (e_waitpid_status e)
       (child_process_status (reap pid e s))) ∧
  (∀ v, EvSendStatus v ∈ drop (length tr) (io_trace (state_of f)) →
     ∃ e, e ∈ io_iters w ∧ 0 < e_waitpid_ret e ∧
          exit_code_for (e_waitpid_status e) v).
Proof.
  intros Hpid f. split.
  - intros e s Hf Hw.
    destruct (reap_reaped pid e s Hf Hpid Hw) as [-> _].
    apply exit_code_for_translation.
  - intros v Hin.
    destruct (sent_status_recorded pid mt ver fd0 fd1 fd2 buf exited requested
                tr w v Hpid Hin) as (e & He & Hw & ->).
    exists e. split; [done|]. split; [done|].
    apply exit_code_for_translation.
Qed.

Section SessionAtV3.
#[local] Existing Instance qrexec_h_v3.





(** C8, as the claim has it, fails for the EXIT_CODE message: in the turn
    that reaps the child the ring of the vchan has no free space, and the
    header and the status are sent all the same. *)
Lemma exit_code_sent_with_full_ring :
  e_buffer_space reaped_ring_full_iter = 0 ∧
  new_events
    (state_of (io_loop 1234 MSG_DATA_STDOUT 3 [all_at_end_iter] (exec_start 0)))
    (state_of (io_loop 1234 MSG_DATA_STDOUT 3
                 [all_at_end_iter; reaped_ring_full_iter] (exec_start 0))) =
  [EvSendHdr {| hdr_type := 0x193; hdr_len := 4 |}; EvSendStatus 0].
Proof. split; by vm_compute. Qed.

Lemma reaped_exit_code_translation_witness :
  0 < 1234 ∧
  last (io_trace
          (state_of (process_child_io 1234 MSG_DATA_STDOUT 4 5 6 3 [] 0 0 []
                       ends_killed))) = Some (EvSendStatus 137) ∧
  ∀ v,
    EvSendStatus v ∈
      drop (length (@nil event))
        (io_trace
           (state_of (process_child_io 1234 MSG_DATA_STDOUT 4 5 6 3 [] 0 0 []
                        ends_killed))) →
    ∃ e, e ∈ io_iters ends_killed ∧ 0 < e_waitpid_ret e ∧
         exit_code_for (e_waitpid_status e) v.
Proof.
  split; [lia|]. split; [by vm_compute|].
  apply (reaped_exit_code_translation 1234 MSG_DATA_STDOUT 4 5 6 3 [] 0 0 []
           ends_killed).
  lia.
Defined.

End SessionAtV3.
